(** * CLI runner of rmorse/openclaw: a shallow embedding and its properties

    The development follows the TypeScript sources:
    - [runs.ts] (second half of [cli-session-map.ts]): the registry of active
      runs and of "wait for end" callers;
    - the two streaming runners (pipe based and pseudo-terminal based) with
      their line handlers and exit handlers;
    - [pi-cli-runner/run.ts]: the non-streaming legacy runner;
    - [cli-backends.ts]: backend descriptors, merge and resolution;
    - [cli-runner.ts]: the backend-agnostic runner and its failure
      classification.

    JavaScript strings are sequences of UTF-16 code units, modelled as
    [list N]; objects that are mutated through shared references (the
    [Set] of waiters, the closure variables of a run reachable through its
    handle) live in explicit stores indexed by references.  Promises and
    timers are events: a promise is the entry its [resolve] writes once, a
    timer is pending until it fires or is cleared.  Calls to the
    diagnostic logger change nothing that is modelled and are left out;
    the session state changes given to [logSessionStateChange] are kept.
    Helpers of modules outside the sources at hand ([JSON.parse], the
    provider normaliser, the failover classifier, the output parsers) are
    section variables. *)

From Stdlib Require Import ZArith NArith Ascii String DecimalString List Lia Bool.
From stdpp Require Import base option list gmap.

Local Open Scope Z_scope.

(* ===================================================================== *)
(** * Part I: definitions                                                 *)
(* ===================================================================== *)

(** ** JavaScript strings *)

Abbreviation jsstring := (list N).

Module JS.

(** A string literal of the source, code unit by code unit. *)
Definition lit (s : string) : jsstring :=
  map N_of_ascii (list_ascii_of_string s).

(** [Boolean(s)] for a string: the empty string is the only falsy one. *)
Definition truthy (s : jsstring) : bool :=
  match s with [] => false | _ :: _ => true end.

(** [Boolean(s)] for [string | undefined]. *)
Definition truthy_opt (s : option jsstring) : bool :=
  match s with Some s => truthy s | None => false end.

(** [a || b] on strings. *)
Definition or_else (a b : jsstring) : jsstring :=
  if truthy a then a else b.

(** WhiteSpace and LineTerminator code units, as [String.prototype.trim]
    strips them. *)
Definition isWhiteSpace (c : N) : bool :=
  ((9 <=? c) && (c <=? 13) || (c =? 32) || (c =? 160) || (c =? 5760)
   || (8192 <=? c) && (c <=? 8202) || (c =? 8232) || (c =? 8233)
   || (c =? 8239) || (c =? 8287) || (c =? 12288) || (c =? 65279))%N.

Fixpoint trimStart (s : jsstring) : jsstring :=
  match s with
  | c :: s' => if isWhiteSpace c then trimStart s' else s
  | [] => []
  end.

Definition trimEnd (s : jsstring) : jsstring := rev (trimStart (rev s)).

Definition trim (s : jsstring) : jsstring := trimEnd (trimStart s).

(** [s.slice(0, n)] and [s.slice(n)] for [0 <= n]. *)
Definition slice_to (n : nat) (s : jsstring) : jsstring := take n s.
Definition slice_from (n : nat) (s : jsstring) : jsstring := drop n s.

(** [s.indexOf(c)] for a single code unit; [None] stands for [-1]. *)
Fixpoint indexOf (c : N) (s : jsstring) : option nat :=
  match s with
  | [] => None
  | d :: s' => if (d =? c)%N then Some O else S <$> indexOf c s'
  end.

(** [s.replace(/\r$/, "")]. *)
Definition stripTrailingCR (s : jsstring) : jsstring :=
  match rev s with
  | 13%N :: r => rev r
  | _ => s
  end.

Global Arguments lit : simpl never.

(** [xs.includes(x)] on an array of strings. *)
Definition includes (x : jsstring) (xs : list jsstring) : bool :=
  bool_decide (x ∈ xs).

(** [Array.from(new Set(xs))]: the first occurrence of each element, in
    order. *)
Fixpoint dedupe (seen xs : list jsstring) : list jsstring :=
  match xs with
  | [] => []
  | x :: xs' =>
      if includes x seen then dedupe seen xs'
      else x :: dedupe (seen ++ [x]) xs'
  end.

End JS.

(** ** Results of a run ([EmbeddedPiRunResult]) *)

Record Payload := { text : jsstring; isError : bool }.

Definition textPayload (t : jsstring) : Payload :=
  {| text := t; isError := false |}.
Definition errorPayload (t : jsstring) : Payload :=
  {| text := t; isError := true |}.

(** Usage counters, present only for the fields the backend reported. *)
Record Usage := {
  usage_input : option Z;
  usage_output : option Z;
  usage_cacheRead : option Z;
  usage_cacheWrite : option Z;
  usage_total : option Z
}.

Record AgentMeta := {
  meta_sessionId : jsstring;
  meta_provider : jsstring;
  meta_model : jsstring;
  meta_usage : option Usage
}.

Record RunResult := {
  payloads : option (list Payload);   (* [undefined] is [None] *)
  durationMs : Z;
  result_aborted : option bool;       (* [cli-runner.ts] leaves it out *)
  agentMeta : AgentMeta
}.

(** ** Callbacks delivered to the caller, in the order they fire *)

Inductive Callback :=
| PartialReply (t : jsstring)
| BlockReply (t : jsstring)
| ToolResult (t : jsstring).

(** ** Closure variables of one streaming run

    The promise executor of [runCliAgent] declares these variables; the
    handle's methods, the line handler, the timeout callback and the exit
    handler all close over them.  The signals sent to the child process,
    the callbacks fired and the value the promise was resolved with are
    recorded next to them. *)

Record RunParams := {
  p_sessionId : jsstring;
  p_timeoutMs : Z;
  p_model : jsstring;      (* after [resolveCliModel] *)
  p_started : Z
}.

Record HandleVars := {
  isStreaming : bool;
  aborted : bool;
  timeoutId : option Z;            (* pending [setTimeout], with its delay *)
  signals : list jsstring;         (* [kill(signal)] calls on the child *)
  resolved : option RunResult      (* what [resolve(result)] settled *)
}.

Record StreamVars := {
  resolvedSessionId : jsstring;
  collectedTexts : list jsstring;
  currentTextBuffer : jsstring;
  delivered : list Callback
}.

Record RunVars := {
  params : RunParams;
  handle : HandleVars;
  stream : StreamVars;
  stderrBuffer : jsstring;     (* pipe runner *)
  dataBuffer : jsstring        (* pseudo-terminal runner *)
}.

Definition set_handle (f : HandleVars → HandleVars) (r : RunVars) : RunVars :=
  {| params := params r; handle := f (handle r); stream := stream r;
     stderrBuffer := stderrBuffer r; dataBuffer := dataBuffer r |}.
Definition set_stream (f : StreamVars → StreamVars) (r : RunVars) : RunVars :=
  {| params := params r; handle := handle r; stream := f (stream r);
     stderrBuffer := stderrBuffer r; dataBuffer := dataBuffer r |}.
Definition set_stderrBuffer (b : jsstring) (r : RunVars) : RunVars :=
  {| params := params r; handle := handle r; stream := stream r;
     stderrBuffer := b; dataBuffer := dataBuffer r |}.
Definition set_dataBuffer (b : jsstring) (r : RunVars) : RunVars :=
  {| params := params r; handle := handle r; stream := stream r;
     stderrBuffer := stderrBuffer r; dataBuffer := b |}.

Module Handle.

(** [handle.abort]:
    [if (!aborted) { aborted = true; isStreaming = false; child.kill("SIGTERM") }] *)
Definition abort (h : HandleVars) : HandleVars :=
  if negb (aborted h) then
    {| isStreaming := false; aborted := true; timeoutId := timeoutId h;
       signals := signals h ++ [JS.lit "SIGTERM"]; resolved := resolved h |}
  else h.

(** The run's timeout callback: [if (isStreaming) handle.abort()]. *)
Definition timeoutFires (h : HandleVars) : HandleVars :=
  match timeoutId h with
  | None => h
  | Some _ =>
      let h := {| isStreaming := isStreaming h; aborted := aborted h;
                  timeoutId := None; signals := signals h;
                  resolved := resolved h |} in
      if isStreaming h then abort h else h
  end.

(** What [finalize] does to the closure variables:
    [if (timeoutId) clearTimeout(timeoutId); isStreaming = false; ...;
     resolve(result)], a second [resolve] being ignored by the promise. *)
Definition settle (res : RunResult) (h : HandleVars) : HandleVars :=
  {| isStreaming := false; aborted := aborted h; timeoutId := None;
     signals := signals h;
     resolved := match resolved h with Some r => Some r | None => Some res end |}.

(** The variables as the executor initialises them, the timer armed when
    [params.timeoutMs > 0]. *)
Definition init (timeoutMs : Z) : HandleVars :=
  {| isStreaming := true; aborted := false;
     timeoutId := if 0 <? timeoutMs then Some timeoutMs else None;
     signals := []; resolved := None |}.

End Handle.

(** ** The run registry ([runs.ts]) *)

Inductive SessionState := processing | idle.
Inductive StateReason := cli_run_started | cli_run_replaced | cli_run_completed.

Record StateChange := {
  sc_sessionId : jsstring;
  sc_state : SessionState;
  sc_reason : StateReason
}.

(** The callback given to [setTimeout] by [waitForCliRunEnd] closes over the
    session id, the [Set] object it read from the map and its own waiter. *)
Record WaitTimer := {
  t_sessionId : jsstring;
  t_waiters : nat;         (* reference to the [Set] object *)
  t_delay : Z
}.

Record Registry := {
  ACTIVE_CLI_RUNS : gmap jsstring nat;     (* session id to handle reference *)
  CLI_RUN_WAITERS : gmap jsstring nat;     (* session id to [Set] reference *)
  waiterSets : gmap nat (list nat);        (* the [Set<CliRunWaiter>] objects *)
  timers : gmap nat WaitTimer;             (* pending timers, by waiter *)
  settled : gmap nat bool;                 (* resolved promises, by waiter *)
  runs : gmap nat RunVars;                 (* closures behind the handles *)
  nextRef : nat;                           (* next fresh object reference *)
  stateLog : list StateChange              (* [logSessionStateChange] calls *)
}.

Module Runs.

Definition empty : Registry :=
  {| ACTIVE_CLI_RUNS := ∅; CLI_RUN_WAITERS := ∅; waiterSets := ∅;
     timers := ∅; settled := ∅; runs := ∅; nextRef := O; stateLog := [] |}.

Definition set_active (f : gmap jsstring nat → gmap jsstring nat) (r : Registry) :=
  {| ACTIVE_CLI_RUNS := f (ACTIVE_CLI_RUNS r); CLI_RUN_WAITERS := CLI_RUN_WAITERS r;
     waiterSets := waiterSets r; timers := timers r; settled := settled r;
     runs := runs r; nextRef := nextRef r; stateLog := stateLog r |}.
Definition set_waiters (f : gmap jsstring nat → gmap jsstring nat) (r : Registry) :=
  {| ACTIVE_CLI_RUNS := ACTIVE_CLI_RUNS r; CLI_RUN_WAITERS := f (CLI_RUN_WAITERS r);
     waiterSets := waiterSets r; timers := timers r; settled := settled r;
     runs := runs r; nextRef := nextRef r; stateLog := stateLog r |}.
Definition set_waiterSets (f : gmap nat (list nat) → gmap nat (list nat)) (r : Registry) :=
  {| ACTIVE_CLI_RUNS := ACTIVE_CLI_RUNS r; CLI_RUN_WAITERS := CLI_RUN_WAITERS r;
     waiterSets := f (waiterSets r); timers := timers r; settled := settled r;
     runs := runs r; nextRef := nextRef r; stateLog := stateLog r |}.
Definition set_timers (f : gmap nat WaitTimer → gmap nat WaitTimer) (r : Registry) :=
  {| ACTIVE_CLI_RUNS := ACTIVE_CLI_RUNS r; CLI_RUN_WAITERS := CLI_RUN_WAITERS r;
     waiterSets := waiterSets r; timers := f (timers r); settled := settled r;
     runs := runs r; nextRef := nextRef r; stateLog := stateLog r |}.
Definition set_settled (f : gmap nat bool → gmap nat bool) (r : Registry) :=
  {| ACTIVE_CLI_RUNS := ACTIVE_CLI_RUNS r; CLI_RUN_WAITERS := CLI_RUN_WAITERS r;
     waiterSets := waiterSets r; timers := timers r; settled := f (settled r);
     runs := runs r; nextRef := nextRef r; stateLog := stateLog r |}.
Definition set_runs (f : gmap nat RunVars → gmap nat RunVars) (r : Registry) :=
  {| ACTIVE_CLI_RUNS := ACTIVE_CLI_RUNS r; CLI_RUN_WAITERS := CLI_RUN_WAITERS r;
     waiterSets := waiterSets r; timers := timers r; settled := settled r;
     runs := f (runs r); nextRef := nextRef r; stateLog := stateLog r |}.
Definition fresh (r : Registry) : nat * Registry :=
  (nextRef r,
   {| ACTIVE_CLI_RUNS := ACTIVE_CLI_RUNS r; CLI_RUN_WAITERS := CLI_RUN_WAITERS r;
      waiterSets := waiterSets r; timers := timers r; settled := settled r;
      runs := runs r; nextRef := S (nextRef r); stateLog := stateLog r |}).
Definition logSessionStateChange (c : StateChange) (r : Registry) :=
  {| ACTIVE_CLI_RUNS := ACTIVE_CLI_RUNS r; CLI_RUN_WAITERS := CLI_RUN_WAITERS r;
     waiterSets := waiterSets r; timers := timers r; settled := settled r;
     runs := runs r; nextRef := nextRef r; stateLog := stateLog r ++ [c] |}.

(** [ACTIVE_CLI_RUNS.has(sessionId)] *)
Definition has_active (sessionId : jsstring) (r : Registry) : bool :=
  bool_decide (is_Some (ACTIVE_CLI_RUNS r !! sessionId)).

(** [Set.prototype.add], [delete] and [size] on a set of waiters. *)
Definition setAdd (w : nat) (ws : list nat) : list nat :=
  if bool_decide (w ∈ ws) then ws else ws ++ [w].
Definition setDelete (w : nat) (ws : list nat) : list nat :=
  filter (λ v, v ≠ w) ws.
Definition setSize (s : nat) (r : Registry) : nat :=
  length (default [] (waiterSets r !! s)).
Global Arguments setAdd : simpl never.
Global Arguments setDelete : simpl never.

(** [waiter.resolve(b)]: only the first call settles the promise. *)
Definition resolveWaiter (w : nat) (b : bool) (r : Registry) : Registry :=
  match settled r !! w with
  | Some _ => r
  | None => set_settled (<[w := b]>) r
  end.

(** [clearTimeout(waiter.timer)] *)
Definition clearTimeout (w : nat) (r : Registry) : Registry :=
  set_timers (delete w) r.

Definition queueCliMessage (sessionId text : jsstring) (r : Registry) : bool :=
  false.

Definition abortCliRun (sessionId : jsstring) (r : Registry) : bool * Registry :=
  match ACTIVE_CLI_RUNS r !! sessionId with
  | None => (false, r)
  | Some h => (true, set_runs (alter (set_handle Handle.abort) h) r)
  end.

Definition isCliRunActive (sessionId : jsstring) (r : Registry) : bool :=
  has_active sessionId r.

(** [handle?.isStreaming() ?? false] *)
Definition isCliRunStreaming (sessionId : jsstring) (r : Registry) : bool :=
  match ACTIVE_CLI_RUNS r !! sessionId with
  | None => false
  | Some h => from_option (λ v, isStreaming (handle v)) false (runs r !! h)
  end.

(** What [waitForCliRunEnd] returns: [Promise.resolve(b)], or a new
    promise that the waiter with the given reference settles. *)
Inductive WaitPromise :=
| Resolved (b : bool)
| Pending (w : nat).

(** The waiter leaves its set; an emptied set leaves the map. *)
Definition dropWaiter (sessionId : jsstring) (s w : nat) (r : Registry) : Registry :=
  let r := set_waiterSets (alter (setDelete w) s) r in
  if Nat.eqb (setSize s r) 0 then set_waiters (delete sessionId) r else r.

Definition waitForCliRunEnd (sessionId : jsstring) (timeoutMs : option Z)
    (r : Registry) : WaitPromise * Registry :=
  let timeoutMs := default 15000 timeoutMs in
  if negb (JS.truthy sessionId) || negb (has_active sessionId r)
  then (Resolved true, r)
  else
    (* [CLI_RUN_WAITERS.get(sessionId) ?? new Set()] *)
    let '(s, r) :=
      match CLI_RUN_WAITERS r !! sessionId with
      | Some s => (s, r)
      | None =>
          let '(s, r) := fresh r in (s, set_waiterSets (<[s := []]>) r)
      end in
    let '(w, r) := fresh r in
    let r := set_timers
               (<[w := {| t_sessionId := sessionId; t_waiters := s;
                          t_delay := Z.max 100 timeoutMs |}]>) r in
    let r := set_waiterSets (alter (setAdd w) s) r in
    let r := set_waiters (<[sessionId := s]>) r in
    let r :=
      if negb (has_active sessionId r)
      then resolveWaiter w true (clearTimeout w (dropWaiter sessionId s w r))
      else r in
    (Pending w, r).

(** The callback of the waiter's timer; a cleared timer never fires. *)
Definition waitTimeoutFires (w : nat) (r : Registry) : Registry :=
  match timers r !! w with
  | None => r
  | Some t =>
      let r := set_timers (delete w) r in
      let r := dropWaiter (t_sessionId t) (t_waiters t) w r in
      resolveWaiter w false r
  end.

(** The body of [for (const waiter of waiters)] in [notifyCliRunEnded]:
    [clearTimeout(waiter.timer); waiter.resolve(true)]. *)
Definition releaseStep (r : Registry) (w : nat) : Registry :=
  resolveWaiter w true (clearTimeout w r).

Definition notifyCliRunEnded (sessionId : jsstring) (r : Registry) : Registry :=
  match CLI_RUN_WAITERS r !! sessionId with
  | None => r
  | Some s =>
      match default [] (waiterSets r !! s) with
      | [] => r
      | ws => foldl releaseStep (set_waiters (delete sessionId) r) ws
      end
  end.

Definition setActiveCliRun (sessionId : jsstring) (h : nat) (r : Registry) : Registry :=
  let wasActive := has_active sessionId r in
  let r := set_active (<[sessionId := h]>) r in
  logSessionStateChange
    {| sc_sessionId := sessionId; sc_state := processing;
       sc_reason := if wasActive then cli_run_replaced else cli_run_started |} r.

(** [ACTIVE_CLI_RUNS.get(sessionId) === handle]: identity of references. *)
Definition clearActiveCliRun (sessionId : jsstring) (h : nat) (r : Registry) : Registry :=
  if bool_decide (ACTIVE_CLI_RUNS r !! sessionId = Some h) then
    let r := set_active (delete sessionId) r in
    let r := logSessionStateChange
               {| sc_sessionId := sessionId; sc_state := idle;
                  sc_reason := cli_run_completed |} r in
    notifyCliRunEnded sessionId r
  else r.

End Runs.

(** ** Stream-JSON events ([types.ts])

    Fields are optional where the handlers test for them before use. *)

Record ContentBlock := {
  block_type : jsstring;
  block_text : option jsstring
}.

Record Message := {
  msg_type : option jsstring;
  msg_text : option jsstring;
  msg_content : option (list ContentBlock)   (* [None]: not an array *)
}.

Record Delta := {
  delta_type : option jsstring;
  delta_text : option jsstring
}.

Inductive ResultValue :=
| ResultString (s : jsstring)
| ResultObject (result_text : option jsstring).

Inductive CliStreamEvent :=
| EvSystem (subtype session_id : option jsstring)
| EvAssistant (message : option Message)
| EvContentBlockStart
| EvContentBlockDelta (delta : option Delta)
| EvContentBlockStop
| EvToolUse
| EvToolResult (content : option jsstring)
| EvResult (result : option ResultValue) (session_id : option jsstring)
| EvError (message : jsstring)
| EvOther (type : jsstring).

(** ** What the two streaming runners share, case by case *)

Module Stream.

Definition init (sessionId : jsstring) : StreamVars :=
  {| resolvedSessionId := sessionId; collectedTexts := [];
     currentTextBuffer := []; delivered := [] |}.

Definition setSessionId (sid : jsstring) (v : StreamVars) : StreamVars :=
  {| resolvedSessionId := sid; collectedTexts := collectedTexts v;
     currentTextBuffer := currentTextBuffer v; delivered := delivered v |}.

(** [collectedTexts.push(t)] *)
Definition collect (t : jsstring) (v : StreamVars) : StreamVars :=
  {| resolvedSessionId := resolvedSessionId v;
     collectedTexts := collectedTexts v ++ [t];
     currentTextBuffer := currentTextBuffer v; delivered := delivered v |}.

Definition fire (c : Callback) (v : StreamVars) : StreamVars :=
  {| resolvedSessionId := resolvedSessionId v;
     collectedTexts := collectedTexts v;
     currentTextBuffer := currentTextBuffer v;
     delivered := delivered v ++ [c] |}.

Definition setBuffer (b : jsstring) (v : StreamVars) : StreamVars :=
  {| resolvedSessionId := resolvedSessionId v;
     collectedTexts := collectedTexts v;
     currentTextBuffer := b; delivered := delivered v |}.

(** The texts a list of callbacks carried, by kind of callback. *)
Definition partialTexts (cs : list Callback) : list jsstring :=
  omap (λ c, match c with PartialReply t => Some t | _ => None end) cs.
Definition blockTexts (cs : list Callback) : list jsstring :=
  omap (λ c, match c with BlockReply t => Some t | _ => None end) cs.
Definition toolTexts (cs : list Callback) : list jsstring :=
  omap (λ c, match c with ToolResult t => Some t | _ => None end) cs.

(** [v'] continues the block that is open in [v]: it fired further
    callbacks, none of them a block reply, and its text buffer grew by the
    texts of the partial replies among them. *)
Definition extendsBlock (v v' : StreamVars) : Prop :=
  ∃ new, delivered v' = delivered v ++ new
         ∧ blockTexts new = []
         ∧ Forall (λ t, t ≠ []) (partialTexts new)
         ∧ currentTextBuffer v' = currentTextBuffer v ++ concat (partialTexts new).

(** Reading the callbacks in the order they fired: the text of the partial
    replies since the last block reply, provided every block reply so far
    carried exactly the text that was open when it fired. *)
Fixpoint openText (open : jsstring) (cs : list Callback) : option jsstring :=
  match cs with
  | [] => Some open
  | PartialReply t :: cs => openText (open ++ t) cs
  | BlockReply t :: cs => if bool_decide (t = open) then openText [] cs else None
  | ToolResult _ :: cs => openText open cs
  end.

(** [v'] collected what [v] had collected and, after it, further texts,
    none of them empty. *)
Definition collectsMore (v v' : StreamVars) : Prop :=
  ∃ rest, collectedTexts v' = collectedTexts v ++ rest
          ∧ Forall (λ t, t ≠ []) rest.

(** [currentTextBuffer += t; params.onPartialReply?.({ text: t })] *)
Definition appendText (t : jsstring) (v : StreamVars) : StreamVars :=
  fire (PartialReply t) (setBuffer (currentTextBuffer v ++ t) v).

(** case "system" *)
Definition onSystem (subtype session_id : option jsstring) (v : StreamVars) :=
  if bool_decide (subtype = Some (JS.lit "init")) && JS.truthy_opt session_id
  then setSessionId (default [] session_id) v
  else v.

(** case "content_block_delta" *)
Definition onDelta (delta : option Delta) (v : StreamVars) : StreamVars :=
  match delta with
  | Some d =>
      if bool_decide (delta_type d = Some (JS.lit "text_delta"))
         && JS.truthy_opt (delta_text d)
      then appendText (default [] (delta_text d)) v
      else v
  | None => v
  end.

(** case "content_block_stop" *)
Definition onBlockStop (v : StreamVars) : StreamVars :=
  if JS.truthy (currentTextBuffer v)
  then setBuffer [] (fire (BlockReply (currentTextBuffer v))
                       (collect (currentTextBuffer v) v))
  else v.

(** [content.length > 200 ? content.slice(0, 200) + "..." : content] *)
Definition summary (content : jsstring) : jsstring :=
  if (200 <? length content)%nat
  then JS.slice_to 200 content ++ JS.lit "..."
  else content.

(** case "tool_result" *)
Definition onToolResult (content : option jsstring) (v : StreamVars) : StreamVars :=
  match content with
  | Some c => if JS.truthy c then fire (ToolResult (summary c)) v else v
  | None => v
  end.

(** case "error" *)
Definition onError (message : jsstring) (v : StreamVars) : StreamVars :=
  collect (JS.lit "Error: " ++ message) v.

(** The exit handlers' flush:
    [if (currentTextBuffer) collectedTexts.push(currentTextBuffer)] *)
Definition flush (v : StreamVars) : StreamVars :=
  if JS.truthy (currentTextBuffer v) then collect (currentTextBuffer v) v else v.

(** [collectedTexts.length > 0 ? collectedTexts.map((text) => ({ text })) : undefined] *)
Definition payloadsOf (texts : list jsstring) : option (list Payload) :=
  match texts with
  | [] => None
  | _ => Some (map textPayload texts)
  end.

Definition showCode (code : option Z) : jsstring :=
  match code with
  | Some z => JS.lit (NilZero.string_of_int (Z.to_int z))
  | None => JS.lit "null"
  end.

Definition mkResult (ps : option (list Payload)) (now : Z) (v : RunVars) : RunResult :=
  {| payloads := ps;
     durationMs := now - p_started (params v);
     result_aborted := Some (aborted (handle v));
     agentMeta := {| meta_sessionId := resolvedSessionId (stream v);
                     meta_provider := JS.lit "anthropic";
                     meta_model := p_model (params v);
                     meta_usage := None |} |}.

Definition initRun (p : RunParams) : RunVars :=
  {| params := p; handle := Handle.init (p_timeoutMs p);
     stream := init (p_sessionId p); stderrBuffer := []; dataBuffer := [] |}.

(** [finalize(result)] of the run behind handle [h].  The
    pseudo-terminal runner also disposes its data and exit listeners
    here; a history simply holds no further events of that run. *)
Definition finalize (h : nat) (res : RunResult) (r : Registry) : Registry :=
  match runs r !! h with
  | None => r
  | Some v =>
      let r := Runs.set_runs (<[h := set_handle (Handle.settle res) v]>) r in
      Runs.clearActiveCliRun (p_sessionId (params v)) h r
  end.

(** The executor up to [setActiveCliRun(params.sessionId, handle)]. *)
Definition spawnRun (p : RunParams) (r : Registry) : nat * Registry :=
  let '(h, r) := Runs.fresh r in
  let r := Runs.set_runs (<[h := initRun p]>) r in
  (h, Runs.setActiveCliRun (p_sessionId p) h r).

(** [handle.abort()] and the run's timeout callback, on the store. *)
Definition abortRun (h : nat) (r : Registry) : Registry :=
  Runs.set_runs (alter (set_handle Handle.abort) h) r.
Definition runTimeoutFires (h : nat) (r : Registry) : Registry :=
  Runs.set_runs (alter (set_handle Handle.timeoutFires) h) r.

End Stream.

(** ** The pipe-based streaming runner *)

Module Pipe.
Section WithParser.

(** [JSON.parse(line) as CliStreamEvent]; [None] when it throws.  A value
    without a [type] the switch knows is [EvOther]; the handler reads
    [event.type] unguarded, so the JSON value [null] is outside what is
    modelled here. *)
Variable JSON_parse : jsstring → option CliStreamEvent.

(** case "assistant":
    [event.message?.type === "text" && event.message.text] *)
Definition onAssistant (message : option Message) (v : StreamVars) : StreamVars :=
  match message with
  | Some m =>
      if bool_decide (msg_type m = Some (JS.lit "text")) && JS.truthy_opt (msg_text m)
      then Stream.appendText (default [] (msg_text m)) v
      else v
  | None => v
  end.

(** [event.result?.text] *)
Definition resultText (result : option ResultValue) : option jsstring :=
  match result with
  | Some (ResultObject t) => t
  | _ => None
  end.

(** case "result" *)
Definition onResult (result : option ResultValue) (session_id : option jsstring)
    (v : StreamVars) : StreamVars :=
  let v := if JS.truthy_opt session_id
           then Stream.setSessionId (default [] session_id) v else v in
  if JS.truthy_opt (resultText result)
     && negb (JS.includes (default [] (resultText result)) (collectedTexts v))
  then Stream.collect (default [] (resultText result)) v
  else v.

Definition handleEvent (event : CliStreamEvent) (v : StreamVars) : StreamVars :=
  match event with
  | EvSystem subtype session_id => Stream.onSystem subtype session_id v
  | EvAssistant message => onAssistant message v
  | EvContentBlockDelta delta => Stream.onDelta delta v
  | EvContentBlockStop => Stream.onBlockStop v
  | EvToolResult content => Stream.onToolResult content v
  | EvResult result session_id => onResult result session_id v
  | EvError message => Stream.onError message v
  | EvContentBlockStart | EvToolUse | EvOther _ => v
  end.

(** A sequence of events, handled in the order they arrive. *)
Definition handleEvents (events : list CliStreamEvent) (v : StreamVars) : StreamVars :=
  foldl (λ v event, handleEvent event v) v events.

(** The [rl.on("line", ...)] handler. *)
Definition onLine (line : jsstring) (v : StreamVars) : StreamVars :=
  if negb (JS.truthy (JS.trim line)) then v
  else match JSON_parse line with
       | None => v
       | Some event => handleEvent event v
       end.

(** [child.stderr.on("data", ...)] *)
Definition onStderr (chunk : jsstring) (v : RunVars) : RunVars :=
  set_stderrBuffer (stderrBuffer v ++ chunk) v.

(** The [child.on("close", ...)] handler up to its [finalize] call: the
    variables after the flush and the result handed to [finalize]. *)
Definition onClose (code : option Z) (now : Z) (v : RunVars) : RunVars * RunResult :=
  let v := set_stream Stream.flush v in
  let payloads := Stream.payloadsOf (collectedTexts (stream v)) in
  if negb (bool_decide (code = Some 0)) && JS.truthy (stderrBuffer v)
     && negb (aborted (handle v))
  then
    let errorP := errorPayload
      (JS.lit "CLI error (exit " ++ Stream.showCode code ++ JS.lit "): "
       ++ JS.slice_to 500 (JS.trim (stderrBuffer v))) in
    (v, Stream.mkResult (Some (default [] payloads ++ [errorP])) now v)
  else (v, Stream.mkResult payloads now v).

(** The [child.on("error", ...)] handler's result. *)
Definition onSpawnError (errMessage : jsstring) (now : Z) (v : RunVars) : RunResult :=
  Stream.mkResult
    (Some [errorPayload (JS.lit "Failed to spawn CLI: " ++ errMessage)]) now v.

(** The handlers as events on the store of runs. *)
Definition lineEvent (h : nat) (line : jsstring) (r : Registry) : Registry :=
  Runs.set_runs (alter (set_stream (onLine line)) h) r.

Definition closeEvent (h : nat) (code : option Z) (now : Z) (r : Registry) : Registry :=
  match runs r !! h with
  | None => r
  | Some v =>
      let '(v, res) := onClose code now v in
      Stream.finalize h res (Runs.set_runs (<[h := v]>) r)
  end.

End WithParser.
End Pipe.

(** ** The pseudo-terminal-based streaming runner *)

Module Pty.
Section WithParser.

Variable JSON_parse : jsstring → option CliStreamEvent.

(** The loop body over [content]:
    [if (block.type === "text" && block.text) { ... }] *)
Definition onBlock (v : StreamVars) (block : ContentBlock) : StreamVars :=
  if bool_decide (block_type block = JS.lit "text") && JS.truthy_opt (block_text block)
  then Stream.appendText (default [] (block_text block)) v
  else v.

(** case "assistant" *)
Definition onAssistant (message : option Message) (v : StreamVars) : StreamVars :=
  match message with
  | Some m =>
      match msg_content m with
      | Some content => foldl onBlock v content
      | None => v
      end
  | None => v
  end.

(** [typeof event.result === "string" ? event.result : event.result?.text] *)
Definition resultText (result : option ResultValue) : option jsstring :=
  match result with
  | Some (ResultString s) => Some s
  | Some (ResultObject t) => t
  | None => None
  end.

(** case "result" *)
Definition onResult (result : option ResultValue) (session_id : option jsstring)
    (v : StreamVars) : StreamVars :=
  let v := if JS.truthy_opt session_id
           then Stream.setSessionId (default [] session_id) v else v in
  if Nat.eqb (length (collectedTexts v)) 0
     && bool_decide (currentTextBuffer v = [])
  then
    if JS.truthy_opt (resultText result)
    then Stream.collect (default [] (resultText result)) v
    else v
  else v.

Definition handleEvent (event : CliStreamEvent) (v : StreamVars) : StreamVars :=
  match event with
  | EvSystem subtype session_id => Stream.onSystem subtype session_id v
  | EvAssistant message => onAssistant message v
  | EvContentBlockDelta delta => Stream.onDelta delta v
  | EvContentBlockStop => Stream.onBlockStop v
  | EvToolResult content => Stream.onToolResult content v
  | EvResult result session_id => onResult result session_id v
  | EvError message => Stream.onError message v
  | EvContentBlockStart | EvToolUse | EvOther _ => v
  end.

Definition handleEvents (events : list CliStreamEvent) (v : StreamVars) : StreamVars :=
  foldl (λ v event, handleEvent event v) v events.

Definition processLine (line : jsstring) (v : StreamVars) : StreamVars :=
  if negb (JS.truthy (JS.trim line)) then v
  else match JSON_parse line with
       | None => v
       | Some event => handleEvent event v
       end.

(** The [while ((newlineIdx = dataBuffer.indexOf("\n")) !== -1)] loop;
    every turn removes at least one code unit from [dataBuffer]. *)
Fixpoint drainLines (fuel : nat) (v : RunVars) : RunVars :=
  match fuel with
  | O => v
  | S fuel =>
      match JS.indexOf 10 (dataBuffer v) with
      | None => v
      | Some newlineIdx =>
          let line := JS.stripTrailingCR (JS.slice_to newlineIdx (dataBuffer v)) in
          let v := set_dataBuffer (JS.slice_from (S newlineIdx) (dataBuffer v)) v in
          drainLines fuel (set_stream (processLine line) v)
      end
  end.

(** The [pty.onData] handler. *)
Definition onData (data : jsstring) (v : RunVars) : RunVars :=
  let v := set_dataBuffer (dataBuffer v ++ data) v in
  drainLines (S (length (dataBuffer v))) v.

(** The first two steps of the [pty.onExit] handler: the rest of
    [dataBuffer] as a last line, then the flush of the text buffer. *)
Definition drainAtExit (v : RunVars) : RunVars :=
  let v := if JS.truthy (JS.trim (dataBuffer v))
           then set_stream (processLine (JS.trim (dataBuffer v))) v
           else v in
  set_stream Stream.flush v.

(** The [pty.onExit] handler up to its [finalize] call. *)
Definition onExit (exitCode : Z) (now : Z) (v : RunVars) : RunVars * RunResult :=
  let v := drainAtExit v in
  let payloads := Stream.payloadsOf (collectedTexts (stream v)) in
  if negb (exitCode =? 0) && negb (aborted (handle v))
     && Nat.eqb (length (collectedTexts (stream v))) 0
  then
    (v, Stream.mkResult
          (Some [errorPayload (JS.lit "CLI exited with code "
                               ++ Stream.showCode (Some exitCode))]) now v)
  else (v, Stream.mkResult payloads now v).

Definition dataEvent (h : nat) (data : jsstring) (r : Registry) : Registry :=
  Runs.set_runs (alter (onData data) h) r.

Definition exitEvent (h : nat) (exitCode : Z) (now : Z) (r : Registry) : Registry :=
  match runs r !! h with
  | None => r
  | Some v =>
      let '(v, res) := onExit exitCode now v in
      Stream.finalize h res (Runs.set_runs (<[h := v]>) r)
  end.

End WithParser.
End Pty.

(** ** Normal and exceptional completion *)

(** What a rejected promise or a [throw] carries. *)
Inductive Thrown :=
| FailoverError (message reason provider model : jsstring) (status : option Z)
| PlainError (message : jsstring).

Inductive Outcome (A : Type) :=
| Returned (a : A)
| Threw (e : Thrown).
Arguments Returned {A} a.
Arguments Threw {A} e.

(** [err instanceof Error ? err.message : String(err)] *)
Definition thrownMessage (e : Thrown) : jsstring :=
  match e with
  | FailoverError message _ _ _ _ => message
  | PlainError message => message
  end.

(** ** The non-streaming legacy runner ([pi-cli-runner/run.ts]) *)

(** What [runCommandWithTimeout] resolves with. *)
Record ExecResult := {
  code : option Z;         (* [null] when a signal ended the process *)
  stdout : jsstring;
  stderr : jsstring;
  killed : bool
}.

Module Exec.

(** [runCliAgent] from [await runCommandWithTimeout(...)] on; there is no
    [try] around the call, so its rejection is the runner's. *)
Definition runCliAgent (p : RunParams) (now : Z) (executed : Outcome ExecResult)
    : Outcome RunResult :=
  match executed with
  | Threw e => Threw e
  | Returned result =>
      let stdout := JS.trim (stdout result) in
      let stderr := JS.trim (stderr result) in
      let meta := {| meta_sessionId := p_sessionId p;
                     meta_provider := JS.lit "anthropic";
                     meta_model := p_model p;
                     meta_usage := None |} in
      if negb (bool_decide (code result = Some 0)) then
        let errMsg :=
          JS.or_else stderr
            (JS.or_else stdout
               (JS.lit "CLI exited with code " ++ Stream.showCode (code result))) in
        Returned {| payloads := Some [errorPayload errMsg];
                    durationMs := now - p_started p;
                    result_aborted := Some (killed result);
                    agentMeta := meta |}
      else
        Returned {| payloads := if JS.truthy stdout
                                then Some [textPayload stdout] else None;
                    durationMs := now - p_started p;
                    result_aborted := Some false;
                    agentMeta := meta |}
  end.

End Exec.

(** ** Backend descriptors ([cli-backends.ts])

    [CliBackendConfig] is declared in [config/types.ts]; the fields are the
    ones the built-in descriptors and the merge name.  An absent property
    is [None]. *)

Record FormatEntry := {
  eventTypes : option (list jsstring);
  contentPath : option jsstring;
  matchType : option jsstring;
  textField : option jsstring;
  idField : option jsstring;
  nameField : option jsstring;
  inputField : option jsstring;
  outputField : option jsstring;
  isErrorField : option jsstring
}.

Record StreamingFormat := {
  fmt_text : option FormatEntry;
  fmt_toolUse : option FormatEntry;
  fmt_toolResult : option FormatEntry
}.

Record UsageFields := {
  uf_input : option (list jsstring);
  uf_output : option (list jsstring);
  uf_cacheRead : option (list jsstring);
  uf_cacheWrite : option (list jsstring);
  uf_total : option (list jsstring)
}.

Record CliBackendConfig := {
  command : option jsstring;
  args : option (list jsstring);
  resumeArgs : option (list jsstring);
  sessionArgs : option (list jsstring);
  output : option jsstring;
  resumeOutput : option jsstring;
  input : option jsstring;
  modelArg : option jsstring;
  modelAliases : option (gmap jsstring jsstring);
  sessionArg : option jsstring;
  sessionMode : option jsstring;
  sessionIdFields : option (list jsstring);
  systemPromptArg : option jsstring;
  systemPromptMode : option jsstring;
  systemPromptWhen : option jsstring;
  imageArg : option jsstring;
  imageMode : option jsstring;
  clearEnv : option (list jsstring);
  env : option (gmap jsstring jsstring);
  serialize : option bool;
  usageFields : option UsageFields;
  streaming : option bool;
  streamingEventTypes : option (list jsstring);
  streamingFormat : option StreamingFormat
}.

Record ResolvedCliBackend := {
  id : jsstring;
  config : CliBackendConfig
}.

(** The part of the configuration that resolution reads:
    [cfg?.agents?.defaults?.cliBackends], its entries in the order of
    [Object.entries]. *)
Record OpenClawConfig := {
  cliBackends : option (list (jsstring * CliBackendConfig))
}.

Module Backends.

Definition L := JS.lit.

Definition emptyEntry : FormatEntry :=
  {| eventTypes := None; contentPath := None; matchType := None;
     textField := None; idField := None; nameField := None;
     inputField := None; outputField := None; isErrorField := None |}.

Definition CLAUDE_MODEL_ALIASES : gmap jsstring jsstring :=
  list_to_map
    [ (L "opus", L "opus"); (L "opus-4.6", L "opus"); (L "opus-4.5", L "opus");
      (L "opus-4", L "opus"); (L "claude-opus-4-6", L "opus");
      (L "claude-opus-4-5", L "opus"); (L "claude-opus-4", L "opus");
      (L "sonnet", L "sonnet"); (L "sonnet-4.5", L "sonnet");
      (L "sonnet-4.1", L "sonnet"); (L "sonnet-4.0", L "sonnet");
      (L "claude-sonnet-4-5", L "sonnet"); (L "claude-sonnet-4-1", L "sonnet");
      (L "claude-sonnet-4-0", L "sonnet"); (L "haiku", L "haiku");
      (L "haiku-3.5", L "haiku"); (L "claude-haiku-3-5", L "haiku") ].

Definition DEFAULT_CLAUDE_BACKEND : CliBackendConfig :=
  {| command := Some (L "claude");
     args := Some [L "-p"; L "--output-format"; L "stream-json";
                   L "--dangerously-skip-permissions"; L "--verbose"];
     resumeArgs := Some [L "-p"; L "--output-format"; L "stream-json";
                         L "--dangerously-skip-permissions"; L "--verbose";
                         L "--resume"; L "{sessionId}"];
     sessionArgs := None;
     output := Some (L "jsonl");
     resumeOutput := None;
     input := Some (L "arg");
     modelArg := Some (L "--model");
     modelAliases := Some CLAUDE_MODEL_ALIASES;
     sessionArg := Some (L "--session-id");
     sessionMode := Some (L "always");
     sessionIdFields := Some [L "session_id"; L "sessionId";
                              L "conversation_id"; L "conversationId"];
     systemPromptArg := Some (L "--system-prompt");
     systemPromptMode := Some (L "append");
     systemPromptWhen := Some (L "always");
     imageArg := None;
     imageMode := None;
     clearEnv := Some [L "ANTHROPIC_API_KEY"; L "ANTHROPIC_API_KEY_OLD"];
     env := None;
     serialize := Some true;
     usageFields := Some
       {| uf_input := Some [L "input_tokens"; L "inputTokens"];
          uf_output := Some [L "output_tokens"; L "outputTokens"];
          uf_cacheRead := Some [L "cache_read_input_tokens";
                                L "cached_input_tokens"; L "cacheRead"];
          uf_cacheWrite := Some [L "cache_creation_input_tokens";
                                 L "cache_write_input_tokens"; L "cacheWrite"];
          uf_total := Some [L "total_tokens"; L "total"] |};
     streaming := Some true;
     streamingEventTypes := Some [L "tool_use"; L "tool_result"; L "text"; L "result"];
     streamingFormat := Some
       {| fmt_text := Some
            {| eventTypes := Some [L "assistant"];
               contentPath := Some (L "message.content");
               matchType := Some (L "text"); textField := Some (L "text");
               idField := None; nameField := None; inputField := None;
               outputField := None; isErrorField := None |};
          fmt_toolUse := Some
            {| eventTypes := Some [L "assistant"];
               contentPath := Some (L "message.content");
               matchType := Some (L "tool_use"); textField := None;
               idField := Some (L "id"); nameField := Some (L "name");
               inputField := Some (L "input");
               outputField := None; isErrorField := None |};
          fmt_toolResult := Some
            {| eventTypes := Some [L "user"];
               contentPath := Some (L "message.content");
               matchType := Some (L "tool_result"); textField := None;
               idField := Some (L "tool_use_id"); nameField := None;
               inputField := None; outputField := Some (L "content");
               isErrorField := Some (L "is_error") |} |} |}.

Definition DEFAULT_CODEX_BACKEND : CliBackendConfig :=
  {| command := Some (L "codex");
     args := Some [L "exec"; L "--json"; L "--color"; L "never"; L "--sandbox";
                   L "read-only"; L "--skip-git-repo-check"];
     resumeArgs := Some [L "exec"; L "resume"; L "{sessionId}"; L "--color";
                         L "never"; L "--sandbox"; L "read-only";
                         L "--skip-git-repo-check"];
     sessionArgs := None;
     output := Some (L "jsonl");
     resumeOutput := Some (L "text");
     input := Some (L "arg");
     modelArg := Some (L "--model");
     modelAliases := None;
     sessionArg := None;
     sessionMode := Some (L "existing");
     sessionIdFields := Some [L "thread_id"];
     systemPromptArg := None;
     systemPromptMode := None;
     systemPromptWhen := None;
     imageArg := Some (L "--image");
     imageMode := Some (L "repeat");
     clearEnv := None;
     env := None;
     serialize := Some true;
     usageFields := Some
       {| uf_input := Some [L "prompt_tokens"; L "input_tokens"];
          uf_output := Some [L "completion_tokens"; L "output_tokens"];
          uf_cacheRead := None; uf_cacheWrite := None;
          uf_total := Some [L "total_tokens"] |};
     streaming := Some true;
     streamingEventTypes := Some [L "item"; L "turn.completed"];
     streamingFormat := Some
       {| fmt_text := Some
            {| eventTypes := Some [L "item.completed"];
               contentPath := Some (L "item");
               matchType := Some (L "message"); textField := Some (L "text");
               idField := None; nameField := None; inputField := None;
               outputField := None; isErrorField := None |};
          fmt_toolUse := Some
            {| eventTypes := Some [L "item.created"; L "item.started"];
               contentPath := Some (L "item");
               matchType := Some (L "function_call"); textField := None;
               idField := Some (L "id"); nameField := Some (L "name");
               inputField := Some (L "arguments");
               outputField := None; isErrorField := None |};
          fmt_toolResult := Some
            {| eventTypes := Some [L "item.completed"];
               contentPath := Some (L "item");
               matchType := Some (L "function_call_output"); textField := None;
               idField := Some (L "call_id"); nameField := None;
               inputField := None; outputField := Some (L "output");
               isErrorField := None |} |} |}.

(** An override object without properties. *)
Definition emptyOverride : CliBackendConfig :=
  {| command := None; args := None; resumeArgs := None; sessionArgs := None;
     output := None; resumeOutput := None; input := None; modelArg := None;
     modelAliases := None; sessionArg := None; sessionMode := None;
     sessionIdFields := None; systemPromptArg := None; systemPromptMode := None;
     systemPromptWhen := None; imageArg := None; imageMode := None;
     clearEnv := None; env := None; serialize := None; usageFields := None;
     streaming := None; streamingEventTypes := None; streamingFormat := None |}.

(** The same object with its [streaming] property set. *)
Definition withStreaming (b : bool) (c : CliBackendConfig) : CliBackendConfig :=
  {| command := command c;
     args := args c; resumeArgs := resumeArgs c; sessionArgs := sessionArgs c;
     output := output c; resumeOutput := resumeOutput c; input := input c;
     modelArg := modelArg c; modelAliases := modelAliases c;
     sessionArg := sessionArg c; sessionMode := sessionMode c;
     sessionIdFields := sessionIdFields c;
     systemPromptArg := systemPromptArg c; systemPromptMode := systemPromptMode c;
     systemPromptWhen := systemPromptWhen c;
     imageArg := imageArg c; imageMode := imageMode c;
     clearEnv := clearEnv c; env := env c; serialize := serialize c;
     usageFields := usageFields c; streaming := Some b;
     streamingEventTypes := streamingEventTypes c;
     streamingFormat := streamingFormat c |}.

(** [o ?? b], and the property of [{ ...b, ...o }] for one key; an
    override read from the configuration file has no property whose value
    is [undefined], so both agree. *)
Definition orElse {A} (o b : option A) : option A :=
  match o with Some x => Some x | None => b end.

(** [{ ...base, ...override }] on the entries of a streaming format. *)
Definition mergeEntry (base override : option FormatEntry) : FormatEntry :=
  let b := default emptyEntry base in
  let o := default emptyEntry override in
  {| eventTypes := orElse (eventTypes o) (eventTypes b);
     contentPath := orElse (contentPath o) (contentPath b);
     matchType := orElse (matchType o) (matchType b);
     textField := orElse (textField o) (textField b);
     idField := orElse (idField o) (idField b);
     nameField := orElse (nameField o) (nameField b);
     inputField := orElse (inputField o) (inputField b);
     outputField := orElse (outputField o) (outputField b);
     isErrorField := orElse (isErrorField o) (isErrorField b) |}.

(** [{ ...a, ...b }] on string maps: the keys of [b] win. *)
Definition spreadMaps (a b : option (gmap jsstring jsstring)) : gmap jsstring jsstring :=
  default ∅ b ∪ default ∅ a.

Definition mergeBackendConfig (base : CliBackendConfig)
    (override : option CliBackendConfig) : CliBackendConfig :=
  match override with
  | None => base
  | Some o =>
      {| command := orElse (command o) (command base);
         args := orElse (args o) (args base);
         resumeArgs := orElse (resumeArgs o) (resumeArgs base);
         sessionArgs := orElse (sessionArgs o) (sessionArgs base);
         output := orElse (output o) (output base);
         resumeOutput := orElse (resumeOutput o) (resumeOutput base);
         input := orElse (input o) (input base);
         modelArg := orElse (modelArg o) (modelArg base);
         modelAliases := Some (spreadMaps (modelAliases base) (modelAliases o));
         sessionArg := orElse (sessionArg o) (sessionArg base);
         sessionMode := orElse (sessionMode o) (sessionMode base);
         sessionIdFields := orElse (sessionIdFields o) (sessionIdFields base);
         systemPromptArg := orElse (systemPromptArg o) (systemPromptArg base);
         systemPromptMode := orElse (systemPromptMode o) (systemPromptMode base);
         systemPromptWhen := orElse (systemPromptWhen o) (systemPromptWhen base);
         imageArg := orElse (imageArg o) (imageArg base);
         imageMode := orElse (imageMode o) (imageMode base);
         clearEnv := Some (JS.dedupe [] (default [] (clearEnv base)
                                         ++ default [] (clearEnv o)));
         env := Some (spreadMaps (env base) (env o));
         serialize := orElse (serialize o) (serialize base);
         usageFields := orElse (usageFields o) (usageFields base);
         streaming := orElse (streaming o) (streaming base);
         streamingEventTypes :=
           orElse (streamingEventTypes o) (streamingEventTypes base);
         streamingFormat :=
           match streamingFormat o with
           | Some f =>
               let b := streamingFormat base in
               Some {| fmt_text := Some (mergeEntry (b ≫= fmt_text) (fmt_text f));
                       fmt_toolUse :=
                         Some (mergeEntry (b ≫= fmt_toolUse) (fmt_toolUse f));
                       fmt_toolResult :=
                         Some (mergeEntry (b ≫= fmt_toolResult) (fmt_toolResult f)) |}
           | None => streamingFormat base
           end |}
  end.

(** [{ ...c, command }] *)
Definition withCommand (cmd : jsstring) (c : CliBackendConfig) : CliBackendConfig :=
  {| command := Some cmd;
     args := args c; resumeArgs := resumeArgs c; sessionArgs := sessionArgs c;
     output := output c; resumeOutput := resumeOutput c; input := input c;
     modelArg := modelArg c; modelAliases := modelAliases c;
     sessionArg := sessionArg c; sessionMode := sessionMode c;
     sessionIdFields := sessionIdFields c;
     systemPromptArg := systemPromptArg c; systemPromptMode := systemPromptMode c;
     systemPromptWhen := systemPromptWhen c;
     imageArg := imageArg c; imageMode := imageMode c;
     clearEnv := clearEnv c; env := env c; serialize := serialize c;
     usageFields := usageFields c; streaming := streaming c;
     streamingEventTypes := streamingEventTypes c;
     streamingFormat := streamingFormat c |}.

Section WithNormalizer.

(** [normalizeProviderId] of [model-selection.ts]. *)
Variable normalizeProviderId : jsstring → jsstring.

Definition normalizeBackendKey (key : jsstring) : jsstring :=
  normalizeProviderId key.

Fixpoint pickBackendConfig (config : list (jsstring * CliBackendConfig))
    (normalizedId : jsstring) : option CliBackendConfig :=
  match config with
  | [] => None
  | (key, entry) :: rest =>
      if bool_decide (normalizeBackendKey key = normalizedId) then Some entry
      else pickBackendConfig rest normalizedId
  end.

(** [merged.command?.trim()] followed by [if (!command) return null]. *)
Definition usableCommand (c : CliBackendConfig) : option jsstring :=
  match JS.trim <$> command c with
  | Some cmd => if JS.truthy cmd then Some cmd else None
  | None => None
  end.

Definition resolveCliBackendConfig (provider : jsstring)
    (cfg : option OpenClawConfig) : option ResolvedCliBackend :=
  let normalized := normalizeBackendKey provider in
  let configured := default [] (cfg ≫= cliBackends) in
  let override := pickBackendConfig configured normalized in
  if bool_decide (normalized = L "claude-cli") then
    let merged := mergeBackendConfig DEFAULT_CLAUDE_BACKEND override in
    match usableCommand merged with
    | None => None
    | Some cmd => Some {| id := normalized; config := withCommand cmd merged |}
    end
  else if bool_decide (normalized = L "codex-cli") then
    let merged := mergeBackendConfig DEFAULT_CODEX_BACKEND override in
    match usableCommand merged with
    | None => None
    | Some cmd => Some {| id := normalized; config := withCommand cmd merged |}
    end
  else
    match override with
    | None => None
    | Some o =>
        match usableCommand o with
        | None => None
        | Some cmd => Some {| id := normalized; config := withCommand cmd o |}
        end
    end.

(** The descriptor whose command resolution examines: the merge of a
    built-in with the override for the two built-in ids, the override
    alone for any other id, none when there is neither. *)
Definition mergedFor (normalized : jsstring) (override : option CliBackendConfig)
    : option CliBackendConfig :=
  if bool_decide (normalized = L "claude-cli")
  then Some (mergeBackendConfig DEFAULT_CLAUDE_BACKEND override)
  else if bool_decide (normalized = L "codex-cli")
  then Some (mergeBackendConfig DEFAULT_CODEX_BACKEND override)
  else override.

End WithNormalizer.
End Backends.

(** ** The backend-agnostic runner ([cli-runner.ts]) *)

(** The value the queued task returns. *)
Record CliOutput := {
  out_text : option jsstring;
  out_sessionId : option jsstring;
  out_usage : option Usage
}.

(** What [runCliWithStreaming] resolves with. *)
Record StreamResult := {
  sr_text : jsstring;
  sr_sessionId : option jsstring;
  sr_usage : option Usage
}.

Record CliParams := {
  cp_sessionId : jsstring;
  cp_config : option OpenClawConfig;
  cp_provider : jsstring;
  cp_model : option jsstring;
  cp_cliSessionId : option jsstring;
  cp_started : Z
}.

(** How the child process answers: the streaming helper and the
    collecting helper either resolve or reject. *)
Record ChildRun := {
  streamed : Outcome StreamResult;     (* [runCliWithStreaming] *)
  executed : Outcome ExecResult        (* [runCommandWithTimeout] *)
}.

Module CliRunner.

(** The error text of a failed collecting run:
    [stderr || stdout || "CLI failed."] on the trimmed streams. *)
Definition failureText (result : ExecResult) : jsstring :=
  JS.or_else (JS.trim (stderr result))
    (JS.or_else (JS.trim (stdout result)) (JS.lit "CLI failed.")).

Section WithHelpers.

Variable normalizeProviderId : jsstring → jsstring.
(** [pi-embedded-helpers.ts] and [failover-error.ts] *)
Variable classifyFailoverReason : jsstring → option jsstring.
Variable resolveFailoverStatus : jsstring → option Z.
Variable isFailoverErrorMessage : jsstring → bool.
(** [cli-runner/helpers.ts] *)
Variable resolveSessionIdToSend :
  CliBackendConfig → option jsstring → option jsstring * bool.
Variable parseCliJsonl parseCliJson : jsstring → CliBackendConfig → option CliOutput.

(** [classifyFailoverReason(err) ?? "unknown"] and the error built from it. *)
Definition failover (err provider modelId : jsstring) : Thrown :=
  let reason := default (JS.lit "unknown") (classifyFailoverReason err) in
  FailoverError err reason provider modelId (resolveFailoverStatus reason).

Definition textOnly (stdout : jsstring) : CliOutput :=
  {| out_text := Some stdout; out_sessionId := None; out_usage := None |}.

(** The task handed to [enqueueCliRun], from the choice of the execution
    path on. *)
Definition runTask (backend : CliBackendConfig) (useResume : bool)
    (provider modelId : jsstring) (child : ChildRun) : Outcome CliOutput :=
  if default false (streaming backend) then
    match streamed child with
    | Returned streamResult =>
        Returned {| out_text := Some (sr_text streamResult);
                    out_sessionId := sr_sessionId streamResult;
                    out_usage := sr_usage streamResult |}
    | Threw streamErr => Threw (failover (thrownMessage streamErr) provider modelId)
    end
  else
    match executed child with
    | Threw e => Threw e
    | Returned result =>
        let stdout := JS.trim (stdout result) in
        let stderr := JS.trim (stderr result) in
        if negb (bool_decide (code result = Some 0)) then
          let err := JS.or_else stderr (JS.or_else stdout (JS.lit "CLI failed.")) in
          Threw (failover err provider modelId)
        else
          let outputMode :=
            if useResume
            then Backends.orElse (resumeOutput backend) (output backend)
            else output backend in
          if bool_decide (outputMode = Some (JS.lit "text")) then
            Returned (textOnly stdout)
          else if bool_decide (outputMode = Some (JS.lit "jsonl")) then
            Returned (default (textOnly stdout) (parseCliJsonl stdout backend))
          else
            Returned (default (textOnly stdout) (parseCliJson stdout backend))
    end.

(** [const text = output.text?.trim(); const payloads = text ? [{ text }] : undefined] *)
Definition assemblePayloads (output : CliOutput) : option (list Payload) :=
  match JS.trim <$> out_text output with
  | Some text => if JS.truthy text then Some [textPayload text] else None
  | None => None
  end.

(** The [catch] clause around the queued task. *)
Definition rethrow (err : Thrown) (provider modelId : jsstring) : Thrown :=
  match err with
  | FailoverError _ _ _ _ _ => err
  | PlainError message =>
      if isFailoverErrorMessage message then failover message provider modelId
      else err
  end.

(** [runCliAgent], from the resolution of the backend to the result.  The
    steps in between that prepare the prompt, the images and the argument
    list call helpers of other modules and decide nothing below; they are
    left out. *)
Definition runCliAgent (p : CliParams) (now : Z) (child : ChildRun) : Outcome RunResult :=
  match Backends.resolveCliBackendConfig normalizeProviderId (cp_provider p) (cp_config p) with
  | None => Threw (PlainError (JS.lit "Unknown CLI backend: " ++ cp_provider p))
  | Some backendResolved =>
      let backend := config backendResolved in
      let modelId :=
        JS.or_else (JS.trim (default (JS.lit "default") (cp_model p)))
                   (JS.lit "default") in
      let '(cliSessionIdToSend, isNew) :=
        resolveSessionIdToSend backend (cp_cliSessionId p) in
      let useResume :=
        JS.truthy_opt (cp_cliSessionId p) && JS.truthy_opt cliSessionIdToSend
        && match resumeArgs backend with Some (_ :: _) => true | _ => false end in
      let sessionIdSent :=
        if JS.truthy_opt cliSessionIdToSend then
          if useResume || JS.truthy_opt (sessionArg backend)
             || match sessionArgs backend with Some (_ :: _) => true | _ => false end
          then cliSessionIdToSend else None
        else None in
      match runTask backend useResume (cp_provider p) modelId child with
      | Returned output =>
          Returned
            {| payloads := assemblePayloads output;
               durationMs := now - cp_started p;
               result_aborted := None;
               agentMeta :=
                 {| meta_sessionId :=
                      default (cp_sessionId p)
                        (Backends.orElse (out_sessionId output) sessionIdSent);
                    meta_provider := cp_provider p;
                    meta_model := modelId;
                    meta_usage := out_usage output |} |}
      | Threw err => Threw (rethrow err (cp_provider p) modelId)
      end
  end.

End WithHelpers.
End CliRunner.

(** ** Histories of the registry

    Everything that can happen to the registry between two turns of the
    event loop: the exported operations of [runs.ts], the timer of a waiter
    firing, and what a run does to it (spawning registers the handle,
    [finalize] clears it; every other handler of a run only touches the
    closure variables of that run). *)

Inductive Event :=
| ESpawn (p : RunParams)
| ERegister (sessionId : jsstring) (h : nat)
| EClear (sessionId : jsstring) (h : nat)
| EWait (sessionId : jsstring) (timeoutMs : option Z)
| EWaitTimeout (w : nat)
| EAbort (sessionId : jsstring)
| EHandler (h : nat) (f : RunVars → RunVars)
| EFinalize (h : nat) (res : RunResult).

Module Trace.

Definition step (r : Registry) (e : Event) : Registry :=
  match e with
  | ESpawn p => (Stream.spawnRun p r).2
  | ERegister sessionId h => Runs.setActiveCliRun sessionId h r
  | EClear sessionId h => Runs.clearActiveCliRun sessionId h r
  | EWait sessionId timeoutMs => (Runs.waitForCliRunEnd sessionId timeoutMs r).2
  | EWaitTimeout w => Runs.waitTimeoutFires w r
  | EAbort sessionId => (Runs.abortCliRun sessionId r).2
  | EHandler h f => Runs.set_runs (alter f h) r
  | EFinalize h res => Stream.finalize h res r
  end.

(** The registry after a history, from the empty maps the module starts
    with. *)
Definition run (evs : list Event) : Registry := foldl step Runs.empty evs.

(** A waiter is pending on a session while its timer is. *)
Definition pendingOn (sessionId : jsstring) (w : nat) (r : Registry) : Prop :=
  ∃ t, timers r !! w = Some t ∧ t_sessionId t = sessionId.

(** What every history keeps true of the waiters' bookkeeping. *)
Record Inv (r : Registry) : Prop := {
  inv_timer : ∀ w t, timers r !! w = Some t →
    settled r !! w = None
    ∧ CLI_RUN_WAITERS r !! t_sessionId t = Some (t_waiters t)
    ∧ ∃ ws, waiterSets r !! t_waiters t = Some ws ∧ w ∈ ws;
  inv_waiters : ∀ sessionId s,
    CLI_RUN_WAITERS r !! sessionId = Some s →
    ∃ ws, waiterSets r !! s = Some ws ∧ ws ≠ [];
  inv_owner : ∀ sessionId s ws w,
    CLI_RUN_WAITERS r !! sessionId = Some s → waiterSets r !! s = Some ws →
    w ∈ ws → pendingOn sessionId w r;
  inv_members : ∀ s ws w,
    waiterSets r !! s = Some ws → w ∈ ws → (w < nextRef r)%nat;
  inv_fresh_set : ∀ s, (nextRef r ≤ s)%nat → waiterSets r !! s = None;
  inv_fresh_settled : ∀ w, (nextRef r ≤ w)%nat → settled r !! w = None;
  inv_fresh_timer : ∀ w, (nextRef r ≤ w)%nat → timers r !! w = None
}.

End Trace.

(** ** Example lines

    A decoder for the handful of stream-JSON lines the examples below feed
    to the runners; every other line is rejected the way [JSON.parse]
    rejects text that is not JSON. *)

Module Sample.

(** A JSON string token: the text between double quotes. *)
Definition quoted (s : string) : jsstring := [34%N] ++ JS.lit s ++ [34%N].

Definition field (name : string) (value : jsstring) : jsstring :=
  quoted name ++ JS.lit ":" ++ value.

Definition object (fields : list jsstring) : jsstring :=
  JS.lit "{" ++
  match fields with
  | [] => []
  | f :: fs => f ++ concat (map (λ g, JS.lit "," ++ g) fs)
  end ++ JS.lit "}".

Definition deltaLine (t : string) : jsstring :=
  object [field "type" (quoted "content_block_delta");
          field "delta" (object [field "type" (quoted "text_delta");
                                 field "text" (quoted t)])].

Definition stopLine : jsstring :=
  object [field "type" (quoted "content_block_stop")].

Definition resultLine (t sid : string) : jsstring :=
  object [field "type" (quoted "result");
          field "result" (object [field "text" (quoted t)]);
          field "session_id" (quoted sid)].

Definition toolResultLine (t : string) : jsstring :=
  object [field "type" (quoted "tool_result"); field "content" (quoted t)].

Definition textDelta (t : string) : CliStreamEvent :=
  EvContentBlockDelta
    (Some {| delta_type := Some (JS.lit "text_delta");
             delta_text := Some (JS.lit t) |}).

Definition parse (line : jsstring) : option CliStreamEvent :=
  let line := JS.trim line in
  if bool_decide (line = stopLine) then Some EvContentBlockStop
  else if bool_decide (line = deltaLine "Hello") then Some (textDelta "Hello")
  else if bool_decide (line = deltaLine " world") then Some (textDelta " world")
  else if bool_decide (line = resultLine "Hello world" "abc")
  then Some (EvResult (Some (ResultObject (Some (JS.lit "Hello world"))))
                      (Some (JS.lit "abc")))
  else if bool_decide (line = resultLine "Done" "abc")
  then Some (EvResult (Some (ResultObject (Some (JS.lit "Done"))))
                      (Some (JS.lit "abc")))
  else if bool_decide (line = toolResultLine "ok")
  then Some (EvToolResult (Some (JS.lit "ok")))
  else None.

Definition params : RunParams :=
  {| p_sessionId := JS.lit "s1"; p_timeoutMs := 30000;
     p_model := JS.lit "claude-sonnet-4-5"; p_started := 1000 |}.

(** Stand-ins for the helpers of other modules, for the examples:
    provider ids are trimmed, one error text is known to the classifier. *)
Definition normalizeProviderId (provider : jsstring) : jsstring := JS.trim provider.

Definition classifyFailoverReason (err : jsstring) : option jsstring :=
  if bool_decide (err = JS.lit "401 unauthorized") then Some (JS.lit "auth") else None.

Definition resolveFailoverStatus (reason : jsstring) : option Z :=
  if bool_decide (reason = JS.lit "auth") then Some 401 else None.

Definition isFailoverErrorMessage (message : jsstring) : bool :=
  bool_decide (is_Some (classifyFailoverReason message)).

Definition resolveSessionIdToSend (backend : CliBackendConfig)
    (cliSessionId : option jsstring) : option jsstring * bool :=
  match cliSessionId with
  | Some sid => (Some sid, false)
  | None => (None, true)
  end.

Definition parseNothing (stdout : jsstring) (backend : CliBackendConfig)
    : option CliOutput := None.

End Sample.

(** ** One run's closure variables under every order of events

    [handle.abort()], the run's timer and [finalize] can come in any
    order and any number of times; a history of them starts from the
    variables as the executor initialises them. *)

Inductive HandleOp :=
| OpAbort                          (* [handle.abort()] *)
| OpTimeout                        (* the callback of the run's [setTimeout] *)
| OpFinalize (res : RunResult).    (* [finalize(result)] *)

Module HandleOps.

Definition step (h : HandleVars) (op : HandleOp) : HandleVars :=
  match op with
  | OpAbort => Handle.abort h
  | OpTimeout => Handle.timeoutFires h
  | OpFinalize res => Handle.settle res h
  end.

Definition run (timeoutMs : Z) (ops : list HandleOp) : HandleVars :=
  foldl step (Handle.init timeoutMs) ops.

End HandleOps.

(** ** What the events of a stream carry *)

Module Events.

(** The session id an event makes the runners adopt: a [system] event of
    subtype [init] and a [result] event, when their [session_id] is a
    non-empty string. *)
Definition announcedSessionId (e : CliStreamEvent) : option jsstring :=
  match e with
  | EvSystem subtype session_id =>
      if bool_decide (subtype = Some (JS.lit "init")) && JS.truthy_opt session_id
      then session_id else None
  | EvResult _ session_id =>
      if JS.truthy_opt session_id then session_id else None
  | _ => None
  end.

Definition callbackText (c : Callback) : jsstring :=
  match c with PartialReply t | BlockReply t | ToolResult t => t end.

(** The cases of the [switch] that the two runners write alike. *)
Definition sameInBothRunners (e : CliStreamEvent) : bool :=
  match e with EvAssistant _ | EvResult _ _ => false | _ => true end.

(** The cases that push to [collectedTexts] without a block reply. *)
Definition collectsDirectly (e : CliStreamEvent) : bool :=
  match e with EvResult _ _ | EvError _ => true | _ => false end.

(** A callback the caller can show: its text is not empty, and a tool
    result carries at most the 200 code units and the ellipsis. *)
Definition shown (c : Callback) : Prop :=
  callbackText c ≠ [] ∧ ∀ t, c = ToolResult t → (length t ≤ 203)%nat.

(** The text streamed so far is the text collected plus the text open. *)
Definition streamedIsKept (v : StreamVars) : Prop :=
  concat (collectedTexts v) ++ currentTextBuffer v
  = concat (Stream.partialTexts (delivered v)).

(** The text of complete lines as a pseudo-terminal delivers it: every
    line followed by a line feed. *)
Definition terminated (lines : list jsstring) : jsstring :=
  concat (map (λ line, line ++ [10%N]) lines).

End Events.

(** ** The model id given to the CLI ([resolveCliModel]) *)

Module CliModel.

(** [s.split(sep)] for a separator of one code unit. *)
Fixpoint split (sep : N) (s : jsstring) : list jsstring :=
  match s with
  | [] => [[]]
  | c :: s' =>
      if (c =? sep)%N then [] :: split sep s'
      else match split sep s' with
           | part :: parts => (c :: part) :: parts
           | [] => [[c]]
           end
  end.

(** [parts.join(sep)] *)
Fixpoint join (sep : N) (parts : list jsstring) : jsstring :=
  match parts with
  | [] => []
  | part :: parts' =>
      match parts' with
      | [] => part
      | _ :: _ => part ++ sep :: join sep parts'
      end
  end.

(** The same function in the three runners of [pi-cli-runner]. *)
Definition resolveCliModel (model : option jsstring) : jsstring :=
  if negb (JS.truthy_opt model) then JS.lit "claude-sonnet-4-5"
  else
    let model := default [] model in
    let parts := split 47 model in
    if (1 <? length parts)%nat then join 47 (drop 1 parts) else model.

End CliModel.

(** ** The ids of the known backends ([resolveCliBackendIds]) *)

Module BackendIds.
Section WithNormalizer.

Variable normalizeProviderId : jsstring → jsstring.

(** The [Set<string>] it returns, in insertion order. *)
Definition resolveCliBackendIds (cfg : option OpenClawConfig) : list jsstring :=
  let configured := default [] (cfg ≫= cliBackends) in
  JS.dedupe []
    ([Backends.normalizeBackendKey normalizeProviderId (JS.lit "claude-cli");
      Backends.normalizeBackendKey normalizeProviderId (JS.lit "codex-cli")]
     ++ map (λ entry, Backends.normalizeBackendKey normalizeProviderId entry.1)
            configured).

End WithNormalizer.
End BackendIds.

(** ** The environment of the child process ([cli-runner.ts]) *)

Module Task.

(** [const env]: [{ ...process.env, ...backend.env }] after
    [delete next[key]] for every key of [backend.clearEnv]. *)
Definition env (processEnv : gmap jsstring jsstring) (backend : CliBackendConfig)
    : gmap jsstring jsstring :=
  foldl (λ next key, delete key next)
        (Backends.spreadMaps (Some processEnv) (env backend))
        (default [] (clearEnv backend)).

End Task.

(** ** The wrapper for the Claude CLI ([runClaudeCliAgent]) *)

Record ClaudeCliParams := {
  ccp_sessionId : jsstring;
  ccp_config : option OpenClawConfig;
  ccp_provider : option jsstring;
  ccp_model : option jsstring;
  ccp_claudeSessionId : option jsstring;
  ccp_started : Z
}.

Module ClaudeCli.
Section WithHelpers.

Variable normalizeProviderId : jsstring → jsstring.
Variable classifyFailoverReason : jsstring → option jsstring.
Variable resolveFailoverStatus : jsstring → option Z.
Variable isFailoverErrorMessage : jsstring → bool.
Variable resolveSessionIdToSend :
  CliBackendConfig → option jsstring → option jsstring * bool.
Variable parseCliJsonl parseCliJson : jsstring → CliBackendConfig → option CliOutput.

Definition runClaudeCliAgent (p : ClaudeCliParams) (now : Z) (child : ChildRun)
    : Outcome RunResult :=
  CliRunner.runCliAgent normalizeProviderId classifyFailoverReason
    resolveFailoverStatus isFailoverErrorMessage resolveSessionIdToSend
    parseCliJsonl parseCliJson
    {| cp_sessionId := ccp_sessionId p;
       cp_config := ccp_config p;
       cp_provider := default (JS.lit "claude-cli") (ccp_provider p);
       cp_model := Some (default (JS.lit "opus") (ccp_model p));
       cp_cliSessionId := ccp_claudeSessionId p;
       cp_started := ccp_started p |}
    now child.

End WithHelpers.
End ClaudeCli.

(** ** The router in front of the two runners ([pi-embedded.ts])

    The embedded runner is another module: its state and its exported
    functions are section variables.  The router's own state is the pair
    of that state and the registry of CLI runs. *)

(** [config?.agents?.defaults?.cli], as far as the router reads it. *)
Record CliModeConfig := {
  cli_enabled : option bool
}.

Inductive Route := ToCliRunner | ToEmbeddedRunner.

(** The promise [waitForEmbeddedPiRunEnd] hands on: the embedded
    runner's, or the one of [waitForCliRunEnd]. *)
Inductive RoutedPromise (P : Type) :=
| FromEmbedded (p : P)
| FromCli (p : Runs.WaitPromise).
Arguments FromEmbedded {P} p.
Arguments FromCli {P} p.

Module Router.

Definition isCliMode (config : option CliModeConfig) : bool :=
  bool_decide (config ≫= cli_enabled = Some true).

(** Which runner [runEmbeddedPiAgent] hands the parameters to. *)
Definition runEmbeddedPiAgent (config : option CliModeConfig) : Route :=
  if isCliMode config then ToCliRunner else ToEmbeddedRunner.

Section WithEmbedded.

Variable Embedded : Type.
Variable EmbeddedPromise : Type.
Variable embedded_isEmbeddedPiRunActive : jsstring → Embedded → bool.
Variable embedded_queueEmbeddedPiMessage :
  jsstring → jsstring → Embedded → bool * Embedded.
Variable embedded_abortEmbeddedPiRun : jsstring → Embedded → bool * Embedded.
Variable embedded_isEmbeddedPiRunStreaming : jsstring → Embedded → bool.
Variable embedded_waitForEmbeddedPiRunEnd :
  jsstring → option Z → Embedded → EmbeddedPromise * Embedded.

Definition queueEmbeddedPiMessage (sessionId text : jsstring)
    (s : Embedded * Registry) : bool * (Embedded * Registry) :=
  if embedded_isEmbeddedPiRunActive sessionId s.1 then
    let '(queued, e) := embedded_queueEmbeddedPiMessage sessionId text s.1 in
    (queued, (e, s.2))
  else if Runs.isCliRunActive sessionId s.2 then
    (Runs.queueCliMessage sessionId text s.2, s)
  else (false, s).

Definition abortEmbeddedPiRun (sessionId : jsstring)
    (s : Embedded * Registry) : bool * (Embedded * Registry) :=
  if embedded_isEmbeddedPiRunActive sessionId s.1 then
    let '(aborted, e) := embedded_abortEmbeddedPiRun sessionId s.1 in
    (aborted, (e, s.2))
  else if Runs.isCliRunActive sessionId s.2 then
    let '(aborted, r) := Runs.abortCliRun sessionId s.2 in
    (aborted, (s.1, r))
  else (false, s).

Definition isEmbeddedPiRunActive (sessionId : jsstring)
    (s : Embedded * Registry) : bool :=
  embedded_isEmbeddedPiRunActive sessionId s.1 || Runs.isCliRunActive sessionId s.2.

Definition isEmbeddedPiRunStreaming (sessionId : jsstring)
    (s : Embedded * Registry) : bool :=
  if embedded_isEmbeddedPiRunActive sessionId s.1 then
    embedded_isEmbeddedPiRunStreaming sessionId s.1
  else if Runs.isCliRunActive sessionId s.2 then
    Runs.isCliRunStreaming sessionId s.2
  else false.

Definition waitForEmbeddedPiRunEnd (sessionId : jsstring) (timeoutMs : option Z)
    (s : Embedded * Registry)
    : RoutedPromise EmbeddedPromise * (Embedded * Registry) :=
  if embedded_isEmbeddedPiRunActive sessionId s.1 then
    let '(p, e) := embedded_waitForEmbeddedPiRunEnd sessionId timeoutMs s.1 in
    (FromEmbedded p, (e, s.2))
  else if Runs.isCliRunActive sessionId s.2 then
    let '(p, r) := Runs.waitForCliRunEnd sessionId timeoutMs s.2 in
    (FromCli p, (s.1, r))
  else (FromCli (Runs.Resolved true), s).

End WithEmbedded.
End Router.

(** ** Counting the session state changes that were logged *)

#[global] Instance StateReason_eq_dec : EqDecision StateReason.
Proof. solve_decision. Defined.

Module StateLog.

(** How often the log holds a change of the session with this reason. *)
Definition count (sessionId : jsstring) (reason : StateReason)
    (log : list StateChange) : nat :=
  length (filter (λ c, sc_sessionId c = sessionId ∧ sc_reason c = reason) log).

End StateLog.

(** ** Transcript utilities ([session-utils.fs.ts]) *)

Module SessionUtils.

(** [truncatePreviewText] for an integer [maxChars]. *)
Definition truncatePreviewText (text : jsstring) (maxChars : Z) : jsstring :=
  if (maxChars <=? 0) || (Z.of_nat (length text) <=? maxChars) then text
  else if maxChars <=? 3 then JS.slice_to (Z.to_nat maxChars) text
  else JS.slice_to (Z.to_nat (maxChars - 3)) text ++ JS.lit "...".

Section Cap.

Context {T : Type}.

(** [jsonUtf8Bytes]: the byte length of the item's JSON text. *)
Variable jsonUtf8Bytes : T → Z.

(** The [while (bytes > maxBytes && start < items.length - 1)] loop, on the
    items from [start] on: [parts[start]] is the size of the first of
    them, and [start < items.length - 1] says a second one follows. *)
Fixpoint dropOversize (maxBytes : Z) (items : list T) (bytes : Z) : list T * Z :=
  match items with
  | item :: (_ :: _) as rest =>
      if maxBytes <? bytes
      then dropOversize maxBytes rest (bytes - (jsonUtf8Bytes item + 1))
      else (items, bytes)
  | _ => (items, bytes)
  end.

(** [2 + parts.reduce((a, b) => a + b, 0) + (items.length - 1)]: the
    brackets, the items and the commas between them. *)
Definition arrayBytes (items : list T) : Z :=
  let parts := map jsonUtf8Bytes items in
  2 + foldl Z.add 0 parts + (Z.of_nat (length items) - 1).

Definition capArrayByJsonBytes (items : list T) (maxBytes : Z) : list T * Z :=
  match items with
  | [] => (items, 2)
  | _ :: _ => dropOversize maxBytes items (arrayBytes items)
  end.

End Cap.

End SessionUtils.

(** ** The pipe runner from its first line to the close handler

    The pipe runner splits no lines itself: it gives the child's standard
    output to [readline] of Node and handles the [line] events, the last of
    which [readline] emits at the end of the input, before the child's
    [close] event.  [readline] is outside the sources: the lines it emits
    for the text of the standard output are a section variable. *)

Module PipeRun.
Section WithReadline.

Variable JSON_parse : jsstring → option CliStreamEvent.

(** [createInterface({ input: child.stdout, crlfDelay: Infinity })]: the
    lines of its [line] events, in order, up to the end of the input. *)
Variable readline : jsstring → list jsstring.

(** The handlers in the order the event loop calls them: the line handler
    for every line, the stderr handler for the error output, and the close
    handler once the streams have ended. *)
Definition run (stdoutText stderrText : jsstring) (code : option Z) (now : Z)
    (p : RunParams) : RunVars * RunResult :=
  let v := foldl (λ v line, set_stream (Pipe.onLine JSON_parse line) v)
             (Stream.initRun p) (readline stdoutText) in
  Pipe.onClose code now (Pipe.onStderr stderrText v).

End WithReadline.
End PipeRun.

(** A stand-in for [readline] on text whose only line ends are line feeds:
    the text before each line feed, and at the end of the input the rest, if
    there is one. *)

Module SampleReadline.

Fixpoint readFrom (current text : jsstring) : list jsstring :=
  match text with
  | [] => if JS.truthy current then [current] else []
  | c :: text' =>
      if (c =? 10)%N then current :: readFrom [] text'
      else readFrom (current ++ [c]) text'
  end.

Definition readline (text : jsstring) : list jsstring := readFrom [] text.

End SampleReadline.

(* ===================================================================== *)
(** * Part II: properties                                                 *)
(* ===================================================================== *)

(** ** The registry: what each operation leaves alone *)

Section RegistryFacts.
Import Runs.

Lemma notify_unfold sessionId r :
  notifyCliRunEnded sessionId r =
    match CLI_RUN_WAITERS r !! sessionId with
    | None => r
    | Some s =>
        match default [] (waiterSets r !! s) with
        | [] => r
        | ws => foldl releaseStep (set_waiters (delete sessionId) r) ws
        end
    end.
Proof. reflexivity. Qed.

Lemma resolveWaiter_settled w b r v :
  settled (resolveWaiter w b r) !! v =
    match settled r !! v with
    | Some c => Some c
    | None => if bool_decide (v = w) then Some b else None
    end.
Proof.
  unfold resolveWaiter. destruct (settled r !! w) as [c|] eqn:E.
  - destruct (settled r !! v) eqn:F; [done|].
    case_bool_decide; [subst; congruence | done].
  - cbn. case_bool_decide as Hvw.
    + subst. rewrite lookup_insert_eq, E. done.
    + rewrite lookup_insert_ne by congruence. by destruct (settled r !! v).
Qed.

Lemma resolveWaiter_other w b r :
  ACTIVE_CLI_RUNS (resolveWaiter w b r) = ACTIVE_CLI_RUNS r
  ∧ CLI_RUN_WAITERS (resolveWaiter w b r) = CLI_RUN_WAITERS r
  ∧ waiterSets (resolveWaiter w b r) = waiterSets r
  ∧ timers (resolveWaiter w b r) = timers r
  ∧ runs (resolveWaiter w b r) = runs r
  ∧ nextRef (resolveWaiter w b r) = nextRef r
  ∧ stateLog (resolveWaiter w b r) = stateLog r.
Proof. unfold resolveWaiter. by destruct (settled r !! w). Qed.

Lemma releaseStep_other r w :
  ACTIVE_CLI_RUNS (releaseStep r w) = ACTIVE_CLI_RUNS r
  ∧ CLI_RUN_WAITERS (releaseStep r w) = CLI_RUN_WAITERS r
  ∧ waiterSets (releaseStep r w) = waiterSets r
  ∧ runs (releaseStep r w) = runs r
  ∧ nextRef (releaseStep r w) = nextRef r
  ∧ stateLog (releaseStep r w) = stateLog r.
Proof.
  unfold releaseStep.
  destruct (resolveWaiter_other w true (clearTimeout w r))
    as (-> & -> & -> & _ & -> & -> & ->).
  done.
Qed.

Lemma release_all_other ws : ∀ r,
  ACTIVE_CLI_RUNS (foldl releaseStep r ws) = ACTIVE_CLI_RUNS r
  ∧ CLI_RUN_WAITERS (foldl releaseStep r ws) = CLI_RUN_WAITERS r
  ∧ waiterSets (foldl releaseStep r ws) = waiterSets r
  ∧ runs (foldl releaseStep r ws) = runs r
  ∧ nextRef (foldl releaseStep r ws) = nextRef r
  ∧ stateLog (foldl releaseStep r ws) = stateLog r.
Proof.
  induction ws as [|w ws IH]; intros r; [done|].
  cbn [foldl].
  destruct (IH (releaseStep r w)) as (-> & -> & -> & -> & -> & ->).
  apply releaseStep_other.
Qed.

Lemma release_all_settled ws : ∀ r v,
  settled (foldl releaseStep r ws) !! v =
    match settled r !! v with
    | Some c => Some c
    | None => if bool_decide (v ∈ ws) then Some true else None
    end.
Proof.
  induction ws as [|w ws IH]; intros r v; cbn [foldl].
  - destruct (settled r !! v); [done|].
    rewrite bool_decide_eq_false_2; [done | apply not_elem_of_nil].
  - rewrite IH. unfold releaseStep at 1. rewrite resolveWaiter_settled.
    cbn. destruct (settled r !! v) as [c|]; [done|].
    case_bool_decide as Hvw.
    + subst. rewrite bool_decide_eq_true_2; [done | apply list_elem_of_here].
    + destruct (bool_decide (v ∈ ws)) eqn:Hin.
      * apply bool_decide_eq_true_1 in Hin.
        rewrite bool_decide_eq_true_2; [done | by apply list_elem_of_further].
      * apply bool_decide_eq_false_1 in Hin.
        rewrite bool_decide_eq_false_2; [done|].
        intros [?|?]%elem_of_cons; done.
Qed.

Lemma release_all_timers ws : ∀ r v,
  timers (foldl releaseStep r ws) !! v =
    if bool_decide (v ∈ ws) then None else timers r !! v.
Proof.
  induction ws as [|w ws IH]; intros r v; cbn [foldl].
  - rewrite bool_decide_eq_false_2; [done | apply not_elem_of_nil].
  - rewrite IH. unfold releaseStep at 1.
    destruct (resolveWaiter_other w true (clearTimeout w r))
      as (_ & _ & _ & -> & _).
    cbn. destruct (bool_decide (v ∈ ws)) eqn:Hin.
    + apply bool_decide_eq_true_1 in Hin.
      rewrite bool_decide_eq_true_2; [done | by apply list_elem_of_further].
    + apply bool_decide_eq_false_1 in Hin.
      case_bool_decide as Hc.
      * apply elem_of_cons in Hc as [->|?]; [|done].
        apply lookup_delete_eq.
      * rewrite lookup_delete_ne; [done|].
        intros ->. apply Hc, list_elem_of_here.
Qed.

Lemma notify_other sessionId r :
  ACTIVE_CLI_RUNS (notifyCliRunEnded sessionId r) = ACTIVE_CLI_RUNS r
  ∧ waiterSets (notifyCliRunEnded sessionId r) = waiterSets r
  ∧ runs (notifyCliRunEnded sessionId r) = runs r
  ∧ nextRef (notifyCliRunEnded sessionId r) = nextRef r
  ∧ stateLog (notifyCliRunEnded sessionId r) = stateLog r.
Proof.
  rewrite notify_unfold.
  destruct (CLI_RUN_WAITERS r !! sessionId) as [s|]; [|done].
  destruct (default [] (waiterSets r !! s)) as [|w ws]; [done|].
  destruct (release_all_other (w :: ws) (set_waiters (delete sessionId) r))
    as (-> & _ & -> & -> & -> & ->).
  done.
Qed.

End RegistryFacts.

(** ** The registry: the invariant of the waiters' bookkeeping *)

Section RegistryInvariant.
Import Runs Trace.

Lemma Inv_empty : Inv Runs.empty.
Proof. split; intros *; cbn; rewrite ?lookup_empty; done. Qed.

Lemma Inv_frame r r' :
  CLI_RUN_WAITERS r' = CLI_RUN_WAITERS r → waiterSets r' = waiterSets r →
  timers r' = timers r → settled r' = settled r →
  (nextRef r ≤ nextRef r')%nat →
  Inv r → Inv r'.
Proof.
  intros Hw Hs Ht Hd Hn [I1 I2 I7 I3 I4 I5 I6].
  split; unfold pendingOn in *; rewrite ?Hw, ?Hs, ?Ht, ?Hd.
  - exact I1.
  - exact I2.
  - exact I7.
  - intros s ws w H1 H2. specialize (I3 s ws w H1 H2). lia.
  - intros s H. apply I4. lia.
  - intros w H. apply I5. lia.
  - intros w H. apply I6. lia.
Qed.

Lemma setDelete_elem w v ws : v ∈ setDelete w ws ↔ v ≠ w ∧ v ∈ ws.
Proof. unfold setDelete. by rewrite list_elem_of_filter. Qed.

Lemma setAdd_elem w v ws : v ∈ setAdd w ws ↔ v = w ∨ v ∈ ws.
Proof.
  unfold setAdd. case_bool_decide as H.
  - split; [by right | intros [->|?]; done].
  - rewrite elem_of_app, list_elem_of_singleton. tauto.
Qed.

Lemma Inv_notify sessionId r : Inv r → Inv (notifyCliRunEnded sessionId r).
Proof.
  intros HI. rewrite notify_unfold.
  destruct (CLI_RUN_WAITERS r !! sessionId) as [s|] eqn:Hs; [|done].
  destruct (default [] (waiterSets r !! s)) as [|w0 ws0] eqn:Hws; [done|].
  set (ws := w0 :: ws0) in *.
  assert (Hset : waiterSets r !! s = Some ws).
  { destruct (waiterSets r !! s); cbn in Hws; [by subst | done]. }
  set (r0 := set_waiters (delete sessionId) r).
  destruct (release_all_other ws r0) as (_ & Ew & Es & _ & En & _).
  pose proof (release_all_settled ws r0) as Ed.
  pose proof (release_all_timers ws r0) as Et.
  destruct HI as [I1 I2 I7 I3 I4 I5 I6].
  split.
  - intros w t Hw. rewrite Et in Hw.
    case_bool_decide as Hin; [done|]. cbn in Hw.
    destruct (I1 w t Hw) as (Hd & Hm & ws' & Hs' & Hin').
    assert (t_sessionId t ≠ sessionId) as Hne.
    { intros <-. rewrite Hs in Hm. injection Hm as ->.
      rewrite Hset in Hs'. injection Hs' as ->. done. }
    rewrite Ed, Ew, Es. cbn. rewrite Hd.
    rewrite bool_decide_eq_false_2 by done.
    rewrite lookup_delete_ne by done. eauto.
  - intros sid s'. rewrite Ew, Es. cbn.
    rewrite lookup_delete. case_decide; [done|]. apply I2.
  - intros sid s' ws' w. rewrite Ew, Es. cbn. intros Hl Hs' Hin.
    apply lookup_delete_Some in Hl as [Hne Hl].
    destruct (I7 _ _ _ _ Hl Hs' Hin) as (t & Ht & Ho).
    exists t. split; [|done]. rewrite Et. cbn.
    rewrite bool_decide_eq_false_2; [done|].
    intros Hin2. destruct (I7 _ _ _ _ Hs Hset Hin2) as (t2 & Ht2 & Ho2).
    congruence.
  - intros s' ws' w. rewrite Es, En. cbn. apply I3.
  - intros s'. rewrite Es, En. cbn. apply I4.
  - intros w Hw. rewrite En in Hw. cbn in Hw.
    rewrite Ed. cbn. rewrite (I5 w Hw).
    rewrite bool_decide_eq_false_2; [done|].
    intros Hin. specialize (I3 s ws w Hset Hin). lia.
  - intros w Hw. rewrite En in Hw. cbn in Hw.
    rewrite Et. case_bool_decide; [done|]. cbn. by apply I6.
Qed.

Lemma Inv_clear sessionId h r : Inv r → Inv (clearActiveCliRun sessionId h r).
Proof.
  intros HI. unfold clearActiveCliRun. case_bool_decide; [|done].
  apply Inv_notify. revert HI. by apply Inv_frame.
Qed.

Lemma dropWaiter_fields sessionId s w r :
  ACTIVE_CLI_RUNS (dropWaiter sessionId s w r) = ACTIVE_CLI_RUNS r
  ∧ waiterSets (dropWaiter sessionId s w r) = alter (setDelete w) s (waiterSets r)
  ∧ timers (dropWaiter sessionId s w r) = timers r
  ∧ settled (dropWaiter sessionId s w r) = settled r
  ∧ runs (dropWaiter sessionId s w r) = runs r
  ∧ nextRef (dropWaiter sessionId s w r) = nextRef r
  ∧ stateLog (dropWaiter sessionId s w r) = stateLog r
  ∧ CLI_RUN_WAITERS (dropWaiter sessionId s w r) =
      if Nat.eqb (length (setDelete w (default [] (waiterSets r !! s)))) 0
      then delete sessionId (CLI_RUN_WAITERS r) else CLI_RUN_WAITERS r.
Proof.
  unfold dropWaiter, setSize. cbn.
  rewrite lookup_alter_eq.
  assert (default [] (setDelete w <$> waiterSets r !! s)
          = setDelete w (default [] (waiterSets r !! s))) as ->.
  { by destruct (waiterSets r !! s). }
  by destruct (Nat.eqb _ 0).
Qed.

Lemma Inv_waitTimeout w r : Inv r → Inv (waitTimeoutFires w r).
Proof.
  intros HI. unfold waitTimeoutFires.
  destruct (timers r !! w) as [t|] eqn:Ht; [|done].
  set (r1 := set_timers (delete w) r).
  destruct (dropWaiter_fields (t_sessionId t) (t_waiters t) w r1)
    as (_ & Es & Et & Ed & _ & En & _ & Ew).
  set (r2 := dropWaiter (t_sessionId t) (t_waiters t) w r1) in *.
  destruct (resolveWaiter_other w false r2) as (_ & Fw & Fs & Ft & _ & Fn & _).
  pose proof (resolveWaiter_settled w false r2) as Fd.
  cbn in Es, Et, Ed, En, Ew.
  destruct HI as [I1 I2 I7 I3 I4 I5 I6].
  destruct (I1 w t Ht) as (Hd & Hm & ws & Hs & Hin).
  rewrite Hs in Ew. cbn in Ew.
  split.
  - intros v t'. rewrite Ft, Et. intros Hv.
    apply lookup_delete_Some in Hv as [Hne Hv].
    destruct (I1 v t' Hv) as (Hd' & Hm' & ws' & Hs' & Hin').
    rewrite Fd, Ed, Hd'.
    rewrite bool_decide_eq_false_2 by congruence.
    split; [done|]. split.
    + rewrite Fw, Ew.
      destruct (Nat.eqb (length (setDelete w ws)) 0) eqn:Hsz; [|done].
      rewrite lookup_delete_ne; [done|].
      intros Heq. rewrite <- Heq, Hm in Hm'. injection Hm' as Hst.
      rewrite <- Hst, Hs in Hs'. injection Hs' as <-.
      apply Nat.eqb_eq, length_zero_iff_nil in Hsz.
      assert (v ∈ setDelete w ws) as Hv' by (apply setDelete_elem; split; congruence).
      rewrite Hsz in Hv'. by apply not_elem_of_nil in Hv'.
    + rewrite Fs, Es.
      destruct (decide (t_waiters t = t_waiters t')) as [Heq|Hneq].
      * rewrite <- Heq, lookup_alter_eq, Hs. cbn.
        rewrite <- Heq, Hs in Hs'. injection Hs' as <-.
        eexists; split; [done|]. apply setDelete_elem. split; congruence.
      * rewrite lookup_alter_ne by done. eauto.
  - intros sid s'. rewrite Fw, Fs, Ew, Es. intros Hl.
    destruct (I2 sid s') as (x & Hx & Hxne).
    { destruct (Nat.eqb (length (setDelete w ws)) 0); [|done].
      apply lookup_delete_Some in Hl. tauto. }
    rewrite lookup_alter. case_decide as Hc; [|eauto].
    subst s'. rewrite Hs. cbn. eexists; split; [done|].
    destruct (Nat.eqb (length (setDelete w ws)) 0) eqn:Hsz.
    + apply lookup_delete_Some in Hl as [Hne Hl].
      destruct x as [|x0 x]; [done|].
      destruct (I7 sid (t_waiters t) (x0 :: x) x0 Hl Hx) as (t2 & Ht2 & Ho2);
        [apply list_elem_of_here|].
      destruct (I1 _ _ Ht2) as (_ & Hm2 & _).
      rewrite Ho2, Hl in Hm2. injection Hm2 as Hm2.
      rewrite Hs in Hx. injection Hx as ->.
      destruct (I7 (t_sessionId t) (t_waiters t) (x0 :: x) x0 Hm Hs) as (t3 & Ht3 & Ho3);
        [apply list_elem_of_here|].
      congruence.
    + apply Nat.eqb_neq in Hsz. intros Hnil. by rewrite Hnil in Hsz.
  - intros sid s' ws' v. rewrite Fw, Fs, Ew, Es. intros Hl Hs' Hv.
    assert (CLI_RUN_WAITERS r !! sid = Some s') as Hl'.
    { destruct (Nat.eqb (length (setDelete w ws)) 0); [|done].
      apply lookup_delete_Some in Hl. tauto. }
    assert (v ≠ w ∧ ∃ ws0, waiterSets r !! s' = Some ws0 ∧ v ∈ ws0) as (Hvw & ws0 & Hs0 & Hv0).
    { rewrite lookup_alter in Hs'. case_decide as Hc.
      - subst s'. rewrite Hs in Hs'. cbn in Hs'. injection Hs' as <-.
        apply setDelete_elem in Hv as [? ?]. eauto.
      - split; [|eauto]. intros ->.
        destruct (I7 _ _ _ _ Hl' Hs' Hv) as (t2 & Ht2 & Ho2).
        rewrite Ht in Ht2. injection Ht2 as <-.
        rewrite Ho2, Hl' in Hm. congruence. }
    destruct (I7 _ _ _ _ Hl' Hs0 Hv0) as (t2 & Ht2 & Ho2).
    exists t2. split; [|done]. rewrite Ft, Et. by rewrite lookup_delete_ne.
  - intros s' ws' v. rewrite Fs, Fn, Es, En. cbn.
    rewrite lookup_alter. case_decide as Hc.
    + subst s'. rewrite Hs. cbn. intros [= <-] [_ Hv]%setDelete_elem. eauto.
    + apply I3.
  - intros s'. rewrite Fs, Fn, Es, En. cbn. intros Hge.
    rewrite lookup_alter. case_decide; [subst; rewrite I4; done|]. by apply I4.
  - intros v. rewrite Fn, En. cbn. intros Hge.
    rewrite Fd, Ed. cbn. rewrite (I5 v Hge).
    rewrite bool_decide_eq_false_2; [done|].
    intros ->. rewrite I6 in Ht; done.
  - intros v. rewrite Fn, En, Ft, Et. cbn. intros Hge.
    rewrite lookup_delete. case_decide; [done|]. by apply I6.
Qed.

Lemma wait_immediate sessionId timeoutMs r :
  sessionId = [] ∨ ACTIVE_CLI_RUNS r !! sessionId = None →
  waitForCliRunEnd sessionId timeoutMs r = (Resolved true, r).
Proof.
  unfold waitForCliRunEnd, has_active. intros [->|H]; [done|].
  rewrite H. rewrite (bool_decide_eq_false_2 (is_Some None)) by (by intros [? ?]).
  by rewrite orb_true_r.
Qed.

Lemma wait_pending_fields sessionId timeoutMs r :
  sessionId ≠ [] → is_Some (ACTIVE_CLI_RUNS r !! sessionId) →
  let s := default (nextRef r) (CLI_RUN_WAITERS r !! sessionId) in
  let w := match CLI_RUN_WAITERS r !! sessionId with
           | Some _ => nextRef r | None => S (nextRef r) end in
  let sets0 := match CLI_RUN_WAITERS r !! sessionId with
               | Some _ => waiterSets r | None => <[s := []]> (waiterSets r) end in
  ∃ r', waitForCliRunEnd sessionId timeoutMs r = (Pending w, r')
    ∧ ACTIVE_CLI_RUNS r' = ACTIVE_CLI_RUNS r
    ∧ CLI_RUN_WAITERS r' = <[sessionId := s]> (CLI_RUN_WAITERS r)
    ∧ waiterSets r' = alter (setAdd w) s sets0
    ∧ timers r' = <[w := {| t_sessionId := sessionId; t_waiters := s;
                            t_delay := Z.max 100 (default 15000 timeoutMs) |}]>
                    (timers r)
    ∧ settled r' = settled r
    ∧ runs r' = runs r
    ∧ nextRef r' = S w
    ∧ stateLog r' = stateLog r.
Proof.
  intros Hne Hact. unfold waitForCliRunEnd.
  assert (JS.truthy sessionId = true) as -> by (by destruct sessionId).
  assert (has_active sessionId r = true) as Hh by (by apply bool_decide_eq_true_2).
  rewrite Hh. cbn [negb orb].
  destruct (CLI_RUN_WAITERS r !! sessionId) as [s|] eqn:Hs; cbn.
  - unfold has_active in *. cbn. rewrite Hh. cbn. eexists. repeat split.
  - unfold has_active in *. cbn. rewrite Hh. cbn. eexists. repeat split.
Qed.

Lemma Inv_wait sessionId timeoutMs r :
  Inv r → Inv (waitForCliRunEnd sessionId timeoutMs r).2.
Proof.
  intros HI.
  destruct (decide (sessionId = [])) as [->|Hne].
  { by rewrite wait_immediate by (by left). }
  destruct (ACTIVE_CLI_RUNS r !! sessionId) as [h|] eqn:Hact.
  2: { by rewrite wait_immediate by (by right). }
  destruct (wait_pending_fields sessionId timeoutMs r Hne)
    as (r' & -> & _ & Ew & Es & Et & Ed & _ & En & _); [by rewrite Hact|].
  cbn [snd].
  destruct HI as [I1 I2 I7 I3 I4 I5 I6].
  set (s := default (nextRef r) (CLI_RUN_WAITERS r !! sessionId)) in *.
  set (w := match CLI_RUN_WAITERS r !! sessionId with
            | Some _ => nextRef r | None => S (nextRef r) end) in *.
  set (sets0 := match CLI_RUN_WAITERS r !! sessionId with
                | Some _ => waiterSets r | None => <[s := []]> (waiterSets r) end) in *.
  assert (nextRef r ≤ w)%nat as Hw by (subst w; destruct (CLI_RUN_WAITERS r !! _); lia).
  assert (∃ ws0, sets0 !! s = Some ws0 ∧ ∀ v, v ∈ ws0 → (v < nextRef r)%nat)
    as (ws0 & Hs0 & Hws0).
  { subst sets0 s. destruct (CLI_RUN_WAITERS r !! sessionId) as [s0|] eqn:Hm; cbn.
    - destruct (I2 _ _ Hm) as (ws0 & Hx & _). exists ws0. split; [done|].
      intros v. by apply I3 with s0.
    - rewrite lookup_insert_eq. eexists; split; [done|].
      intros v Hv. by apply not_elem_of_nil in Hv. }
  assert (∀ s', s' ≠ s → sets0 !! s' = waiterSets r !! s') as Hother.
  { intros s' Hs'. subst sets0. destruct (CLI_RUN_WAITERS r !! sessionId); [done|].
    by rewrite lookup_insert_ne. }
  assert (∀ s', is_Some (waiterSets r !! s') → is_Some (sets0 !! s')
                ∧ (s' ≠ s → sets0 !! s' = waiterSets r !! s')
                ∧ (s' = s → sets0 !! s' = waiterSets r !! s')) as Hkeep.
  { intros s' [x Hx]. subst sets0.
    destruct (CLI_RUN_WAITERS r !! sessionId) eqn:Hm; [by rewrite Hx; eauto|].
    assert (s' ≠ s).
    { intros ->. subst s. cbn in Hx. rewrite I4 in Hx; done. }
    rewrite lookup_insert_ne by done. rewrite Hx. eauto. }
  split.
  - intros v t. rewrite Et, Ed, Ew, Es. intros Hv.
    apply lookup_insert_Some in Hv as [[<- <-]|[Hvw Hv]]; cbn.
    + split; [by apply I5|]. split; [by rewrite lookup_insert_eq|].
      rewrite lookup_alter_eq, Hs0. cbn. eexists; split; [done|].
      apply setAdd_elem. by left.
    + destruct (I1 v t Hv) as (Hd & Hm & ws & Hs & Hin).
      split; [done|]. split.
      * rewrite lookup_insert. case_decide as Hc; [|done].
        subst s. rewrite Hc, Hm. done.
      * destruct (Hkeep (t_waiters t)) as (_ & K1 & K2); [by rewrite Hs|].
        rewrite lookup_alter. case_decide as Hc.
        -- specialize (K2 (eq_sym Hc)). rewrite Hs, <- Hc, Hs0 in K2.
           injection K2 as ->. rewrite Hs0. cbn. eexists; split; [done|].
           apply setAdd_elem. by right.
        -- rewrite K1, Hs by done. eauto.
  - intros sid s'. rewrite Ew, Es. intros Hl.
    assert (∀ ws1, setAdd w ws1 ≠ []) as Hadd.
    { intros ws1 Hnil. assert (w ∈ setAdd w ws1) as Hin by (apply setAdd_elem; by left).
      rewrite Hnil in Hin. by apply not_elem_of_nil in Hin. }
    apply lookup_insert_Some in Hl as [[<- <-]|[Hc Hl]].
    + rewrite lookup_alter_eq, Hs0. cbn. eauto.
    + destruct (I2 _ _ Hl) as (x & Hx & Hxne).
      destruct (Hkeep s') as (_ & K1 & K2); [by rewrite Hx|].
      rewrite lookup_alter. case_decide as Hc2.
      * rewrite Hs0. cbn. eauto.
      * rewrite K1, Hx by done. eauto.
  - intros sid s' ws' v. rewrite Ew, Es. intros Hl Hs' Hv.
    assert (∀ v0 t0, timers r !! v0 = Some t0 →
              <[w := {| t_sessionId := sessionId; t_waiters := s;
                        t_delay := Z.max 100 (default 15000 timeoutMs) |}]>
                (timers r) !! v0 = Some t0) as Hold.
    { intros v0 t0 H0. rewrite lookup_insert_ne; [done|].
      intros <-. rewrite I6 in H0; done. }
    unfold pendingOn. rewrite Et.
    apply lookup_insert_Some in Hl as [[<- <-]|[Hc Hl]].
    + rewrite lookup_alter_eq, Hs0 in Hs'. cbn in Hs'. injection Hs' as <-.
      apply setAdd_elem in Hv as [->|Hv].
      * eexists. by rewrite lookup_insert_eq.
      * subst sets0 s.
        destruct (CLI_RUN_WAITERS r !! sessionId) as [s0|] eqn:Hm; cbn in *.
        -- destruct (I7 _ _ _ _ Hm Hs0 Hv) as (t0 & H0 & Ho). eauto.
        -- rewrite lookup_insert_eq in Hs0. injection Hs0 as <-.
           by apply not_elem_of_nil in Hv.
    + destruct (I2 _ _ Hl) as (x & Hx & Hxne).
      destruct (Hkeep s') as (_ & K1 & K2); [by rewrite Hx|].
      assert (s' ≠ s) as Hss.
      { intros ->. subst sets0 s.
        destruct (CLI_RUN_WAITERS r !! sessionId) as [s0|] eqn:Hm; cbn in *.
        - destruct x as [|x0 x]; [done|].
          destruct (I7 _ _ _ x0 Hl Hx) as (t1 & Ht1 & Ho1); [apply list_elem_of_here|].
          destruct (I7 _ _ _ x0 Hm Hx) as (t2 & Ht2 & Ho2); [apply list_elem_of_here|].
          congruence.
        - rewrite I4 in Hx; done. }
      rewrite lookup_alter_ne, K1 in Hs' by done.
      destruct (I7 _ _ _ _ Hl Hs' Hv) as (t0 & H0 & Ho). eauto.
  - intros s' ws' v. rewrite Es, En. rewrite lookup_alter. case_decide as Hc.
    + subst s'. rewrite Hs0. cbn. intros [= <-] [->|Hv]%setAdd_elem; [lia|].
      specialize (Hws0 v Hv). lia.
    + rewrite Hother by done. intros H1 H2. specialize (I3 _ _ _ H1 H2). lia.
  - intros s'. rewrite Es, En. intros Hge.
    assert (s' ≠ s) as Hc.
    { subst s w. destruct (CLI_RUN_WAITERS r !! sessionId) as [s0|] eqn:Hm; cbn; [|lia].
      intros ->. destruct (I2 _ _ Hm) as (x & Hx & _). rewrite I4 in Hx; [done|lia]. }
    rewrite lookup_alter_ne by done. rewrite Hother by done. apply I4. lia.
  - intros v. rewrite Ed, En. intros Hge. apply I5. lia.
  - intros v. rewrite Et, En. intros Hge.
    rewrite lookup_insert_ne by lia. apply I6. lia.
Qed.

Lemma Inv_step r e : Inv r → Inv (step r e).
Proof.
  intros HI. destruct e as [p|sid h|sid h|sid t|w|sid|h f|h res]; cbn [step].
  - revert HI. apply Inv_frame; cbn; try done. lia.
  - revert HI. by apply Inv_frame.
  - by apply Inv_clear.
  - by apply Inv_wait.
  - by apply Inv_waitTimeout.
  - unfold abortCliRun. destruct (ACTIVE_CLI_RUNS r !! sid); [|done].
    revert HI. by apply Inv_frame.
  - revert HI. by apply Inv_frame.
  - unfold Stream.finalize. destruct (runs r !! h); [|done].
    apply Inv_clear. revert HI. by apply Inv_frame.
Qed.

Lemma Inv_run evs : Inv (run evs).
Proof.
  unfold run. generalize Inv_empty. generalize Runs.empty.
  induction evs as [|e evs IH]; intros r HI; cbn [foldl]; [done|].
  by apply IH, Inv_step.
Qed.

End RegistryInvariant.

(** ** The registry: releasing and settling waiters *)

Section RegistryWaiters.
Import Runs Trace.

Lemma clear_fields sessionId h r :
  ACTIVE_CLI_RUNS r !! sessionId = Some h →
  clearActiveCliRun sessionId h r =
    notifyCliRunEnded sessionId
      (logSessionStateChange
         {| sc_sessionId := sessionId; sc_state := idle;
            sc_reason := cli_run_completed |}
         (set_active (delete sessionId) r)).
Proof. intros H. unfold clearActiveCliRun. by rewrite bool_decide_eq_true_2. Qed.

Lemma clear_mismatch sessionId h r :
  ACTIVE_CLI_RUNS r !! sessionId ≠ Some h → clearActiveCliRun sessionId h r = r.
Proof. intros H. unfold clearActiveCliRun. by rewrite bool_decide_eq_false_2. Qed.

Lemma clear_active sessionId h r :
  ACTIVE_CLI_RUNS r !! sessionId = Some h →
  ACTIVE_CLI_RUNS (clearActiveCliRun sessionId h r)
    = delete sessionId (ACTIVE_CLI_RUNS r).
Proof.
  intros H. rewrite clear_fields by done.
  by destruct (notify_other sessionId
    (logSessionStateChange
       {| sc_sessionId := sessionId; sc_state := idle; sc_reason := cli_run_completed |}
       (set_active (delete sessionId) r))) as (-> & _).
Qed.

Lemma notify_fields sessionId r s ws :
  CLI_RUN_WAITERS r !! sessionId = Some s → waiterSets r !! s = Some ws → ws ≠ [] →
  notifyCliRunEnded sessionId r
    = foldl releaseStep (set_waiters (delete sessionId) r) ws.
Proof. intros H1 H2 H3. rewrite notify_unfold, H1, H2. by destruct ws. Qed.

(** One [clear] by the registered handle settles every waiter pending
    on that session with [true] and cancels its timer. *)
Lemma clear_releases sessionId h r w :
  Inv r → ACTIVE_CLI_RUNS r !! sessionId = Some h → pendingOn sessionId w r →
  settled (clearActiveCliRun sessionId h r) !! w = Some true
  ∧ timers (clearActiveCliRun sessionId h r) !! w = None.
Proof.
  intros [I1 _ _ _ _ _ _] Hact (t & Ht & <-).
  destruct (I1 w t Ht) as (Hd & Hm & ws & Hs & Hin).
  rewrite clear_fields by done.
  rewrite (notify_fields _ _ (t_waiters t) ws); try done.
  - rewrite release_all_settled, release_all_timers. cbn.
    rewrite Hd. by rewrite bool_decide_eq_true_2.
  - intros ->. by apply not_elem_of_nil in Hin.
Qed.

Lemma timeout_settles w r :
  Inv r → is_Some (timers r !! w) →
  settled (waitTimeoutFires w r) !! w = Some false
  ∧ timers (waitTimeoutFires w r) !! w = None.
Proof.
  intros [I1 _ _ _ _ _ _] [t Ht]. unfold waitTimeoutFires. rewrite Ht.
  destruct (I1 w t Ht) as (Hd & _).
  set (r1 := set_timers (delete w) r).
  destruct (dropWaiter_fields (t_sessionId t) (t_waiters t) w r1)
    as (_ & _ & Et & Ed & _).
  destruct (resolveWaiter_other w false
              (dropWaiter (t_sessionId t) (t_waiters t) w r1)) as (_ & _ & _ & -> & _).
  rewrite resolveWaiter_settled, Ed, Et. cbn. rewrite Hd.
  rewrite bool_decide_eq_true_2 by done. split; [done|]. apply lookup_delete_eq.
Qed.

Lemma notify_settled_stable sessionId r w b :
  settled r !! w = Some b → settled (notifyCliRunEnded sessionId r) !! w = Some b.
Proof.
  intros H. rewrite notify_unfold.
  destruct (CLI_RUN_WAITERS r !! sessionId) as [s|]; [|done].
  destruct (default [] (waiterSets r !! s)) as [|w0 ws0]; [done|].
  rewrite (release_all_settled (w0 :: ws0)). cbn [settled set_waiters].
  by rewrite H.
Qed.

Lemma clear_settled_stable sessionId h r w b :
  settled r !! w = Some b →
  settled (clearActiveCliRun sessionId h r) !! w = Some b.
Proof.
  intros H. unfold clearActiveCliRun. case_bool_decide; [|done].
  by apply notify_settled_stable.
Qed.

(** A settled promise keeps its value whatever happens next. *)
Lemma settled_stable r e w b :
  settled r !! w = Some b → settled (step r e) !! w = Some b.
Proof.
  intros H. destruct e as [p|sid h|sid h|sid t|v|sid|h f|h res]; cbn [step]; try done.
  - by apply clear_settled_stable.
  - destruct (decide (sid = [])) as [->|Hne]; [done|].
    destruct (ACTIVE_CLI_RUNS r !! sid) as [h|] eqn:Hact.
    2: { by rewrite wait_immediate by (by right). }
    destruct (wait_pending_fields sid t r Hne)
      as (r' & -> & _ & _ & _ & _ & Ed & _); [by rewrite Hact|].
    cbn. by rewrite Ed.
  - unfold waitTimeoutFires. destruct (timers r !! v) as [t|]; [|done].
    rewrite resolveWaiter_settled.
    destruct (dropWaiter_fields (t_sessionId t) (t_waiters t) v
                (set_timers (delete v) r)) as (_ & _ & _ & -> & _).
    cbn. by rewrite H.
  - unfold abortCliRun. by destruct (ACTIVE_CLI_RUNS r !! sid).
  - unfold Stream.finalize. destruct (runs r !! h) as [x|]; [|done].
    by apply clear_settled_stable.
Qed.

Lemma settled_stable_run evs : ∀ r w b,
  settled r !! w = Some b → settled (foldl step r evs) !! w = Some b.
Proof.
  induction evs as [|e evs IH]; intros r w b H; cbn [foldl]; [done|].
  by apply IH, settled_stable.
Qed.

Lemma notify_pending_other sessionId' r sessionId w :
  Inv r → sessionId' ≠ sessionId → pendingOn sessionId w r →
  pendingOn sessionId w (notifyCliRunEnded sessionId' r).
Proof.
  intros HI Hne Hp. rewrite notify_unfold.
  destruct (CLI_RUN_WAITERS r !! sessionId') as [s|] eqn:Hm; [|done].
  destruct (default [] (waiterSets r !! s)) as [|w0 ws0] eqn:Hws; [done|].
  destruct Hp as (t & Ht & Ho). exists t. split; [|done].
  rewrite (release_all_timers (w0 :: ws0)). cbn [timers set_waiters].
  rewrite bool_decide_eq_false_2; [done|].
  intros Hin. destruct HI as [_ _ I7 _ _ _ _].
  destruct (I7 sessionId' s (w0 :: ws0) w Hm) as (t2 & Ht2 & Ho2); [|done|].
  - destruct (waiterSets r !! s); cbn in Hws; [by subst|done].
  - congruence.
Qed.

Lemma clear_pending_cases sessionId' h r sessionId w :
  Inv r → pendingOn sessionId w r →
  pendingOn sessionId w (clearActiveCliRun sessionId' h r)
  ∨ (is_Some (ACTIVE_CLI_RUNS r !! sessionId)
     ∧ ACTIVE_CLI_RUNS (clearActiveCliRun sessionId' h r) !! sessionId = None
     ∧ settled (clearActiveCliRun sessionId' h r) !! w = Some true).
Proof.
  intros HI Hp.
  destruct (decide (ACTIVE_CLI_RUNS r !! sessionId' = Some h)) as [Hact|Hact].
  2: { left. by rewrite clear_mismatch. }
  destruct (decide (sessionId' = sessionId)) as [->|Hne].
  - right. split; [by rewrite Hact|]. split.
    + rewrite clear_active by done. apply lookup_delete_eq.
    + by apply clear_releases.
  - left. rewrite clear_fields by done.
    apply notify_pending_other; [|done..].
    revert HI. by apply Inv_frame.
Qed.

(** What one event can do to a pending waiter: nothing, or its own
    timeout settles it with [false], or the run of its session is cleared
    and it is settled with [true]. *)
Lemma pending_next r e sessionId w :
  Inv r → pendingOn sessionId w r →
  pendingOn sessionId w (step r e)
  ∨ (e = EWaitTimeout w ∧ settled (step r e) !! w = Some false)
  ∨ (is_Some (ACTIVE_CLI_RUNS r !! sessionId)
     ∧ ACTIVE_CLI_RUNS (step r e) !! sessionId = None
     ∧ settled (step r e) !! w = Some true).
Proof.
  intros HI Hp.
  destruct e as [p|sid h|sid h|sid t|v|sid|h f|h res]; cbn [step].
  - by left.
  - by left.
  - destruct (clear_pending_cases sid h r sessionId w HI Hp); tauto.
  - left. destruct (decide (sid = [])) as [->|Hne]; [done|].
    destruct (ACTIVE_CLI_RUNS r !! sid) as [h|] eqn:Hact.
    2: { by rewrite wait_immediate by (by right). }
    destruct (wait_pending_fields sid t r Hne)
      as (r' & -> & _ & _ & _ & Et & _); [by rewrite Hact|].
    destruct Hp as (t0 & Ht0 & Ho). exists t0. split; [|done]. cbn [snd].
    rewrite Et. rewrite lookup_insert_ne; [done|].
    intros Heq. rewrite <- Heq in Ht0. destruct HI as [_ _ _ _ _ _ I6].
    rewrite I6 in Ht0; [done|]. destruct (CLI_RUN_WAITERS r !! sid); lia.
  - destruct (decide (v = w)) as [->|Hvw].
    + right; left. split; [done|]. apply timeout_settles; [done|].
      destruct Hp as (t0 & -> & _). by eexists.
    + left. unfold waitTimeoutFires. destruct (timers r !! v) as [t|] eqn:Hv; [|done].
      destruct Hp as (t0 & Ht0 & Ho). exists t0. split; [|done].
      destruct (resolveWaiter_other v false
                  (dropWaiter (t_sessionId t) (t_waiters t) v
                     (set_timers (delete v) r))) as (_ & _ & _ & -> & _).
      destruct (dropWaiter_fields (t_sessionId t) (t_waiters t) v
                  (set_timers (delete v) r)) as (_ & _ & -> & _).
      cbn. by rewrite lookup_delete_ne.
  - left. unfold abortCliRun. by destruct (ACTIVE_CLI_RUNS r !! sid).
  - by left.
  - unfold Stream.finalize. destruct (runs r !! h) as [x|]; [|by left].
    set (r1 := set_runs _ r).
    assert (Inv r1) as HI1 by (revert HI; by apply Inv_frame).
    destruct (clear_pending_cases (p_sessionId (params x)) h r1 sessionId w HI1 Hp);
      tauto.
Qed.

End RegistryWaiters.

(** ** The registry: clearing by identity *)

Section RegistryClear.
Import Runs Trace.

Lemma spawn_fields p r :
  (Stream.spawnRun p r).1 = nextRef r
  ∧ ACTIVE_CLI_RUNS (Stream.spawnRun p r).2 = <[p_sessionId p := nextRef r]> (ACTIVE_CLI_RUNS r)
  ∧ runs (Stream.spawnRun p r).2 = <[nextRef r := Stream.initRun p]> (runs r)
  ∧ nextRef (Stream.spawnRun p r).2 = S (nextRef r).
Proof. done. Qed.

(** A run that was replaced finalizes after its successor registered: the
    successor stays registered. *)
Lemma stale_finalize_keeps_newer r pA pB res :
  p_sessionId pA = p_sessionId pB →
  ACTIVE_CLI_RUNS
    (Stream.finalize (Stream.spawnRun pA r).1 res
       (Stream.spawnRun pB (Stream.spawnRun pA r).2).2) !! p_sessionId pB
  = Some (Stream.spawnRun pB (Stream.spawnRun pA r).2).1.
Proof.
  intros HAB.
  destruct (spawn_fields pA r) as (EA1 & EA2 & EA3 & EA4).
  destruct (spawn_fields pB (Stream.spawnRun pA r).2) as (EB1 & EB2 & EB3 & EB4).
  generalize dependent (Stream.spawnRun pB (Stream.spawnRun pA r).2).
  generalize dependent (Stream.spawnRun pA r).
  intros [hA rA] EA1 EA2 EA3 EA4 [hB rB] EB1 EB2 EB3 EB4. cbn [fst snd] in *. subst hA hB.
  unfold Stream.finalize. rewrite EB3, EA4, lookup_insert_ne, EA3, lookup_insert_eq by lia.
  cbn [params Stream.initRun]. rewrite HAB.
  rewrite clear_mismatch; cbn [ACTIVE_CLI_RUNS set_runs]; rewrite EB2, lookup_insert_eq.
  - by rewrite EA4.
  - rewrite EA4. intros [= ?]. lia.
Qed.

(** C1. For every session key and every registry a history of events can
    produce, [clearActiveCliRun sessionId h] removes the registration and
    settles the pending waiters of that key with [true] when [h] is the
    handle registered for the key; with any other handle (or none
    registered) it changes nothing.  In particular the handle of a run
    that was replaced by a newer registration for the same key cannot
    erase it, neither called directly nor through the stale [finalize] of
    the replaced run. *)
Theorem clear_requires_identical_handle (evs : list Event)
    (sessionId : jsstring) (h : nat) :
  let r := run evs in
  (ACTIVE_CLI_RUNS r !! sessionId = Some h →
     ACTIVE_CLI_RUNS (clearActiveCliRun sessionId h r)
       = delete sessionId (ACTIVE_CLI_RUNS r)
     ∧ ∀ w, pendingOn sessionId w r →
            settled (clearActiveCliRun sessionId h r) !! w = Some true)
  ∧ (ACTIVE_CLI_RUNS r !! sessionId ≠ Some h →
     clearActiveCliRun sessionId h r = r)
  ∧ (∀ h', h' ≠ h →
     ACTIVE_CLI_RUNS
       (clearActiveCliRun sessionId h (setActiveCliRun sessionId h' r))
       !! sessionId = Some h')
  ∧ (∀ pA pB res, p_sessionId pA = sessionId → p_sessionId pB = sessionId →
     let rA := Stream.spawnRun pA r in
     let rB := Stream.spawnRun pB rA.2 in
     ACTIVE_CLI_RUNS (Stream.finalize rA.1 res rB.2) !! sessionId = Some rB.1).
Proof.
  intros r. pose proof (Inv_run evs) as HI. fold r in HI.
  split; [|split; [|split]].
  - intros Hact. split; [by apply clear_active|].
    intros w Hp. by apply clear_releases.
  - apply clear_mismatch.
  - intros h' Hne. rewrite clear_mismatch; cbn; rewrite lookup_insert_eq; congruence.
  - intros pA pB res HA HB rA rB. subst rA rB. rewrite <- HB.
    apply stale_finalize_keeps_newer. congruence.
Qed.

Lemma clear_requires_identical_handle_witness :
  let evs := [ERegister (JS.lit "s1") 7; EWait (JS.lit "s1") None;
              EWait (JS.lit "s1") (Some 50)] in
  let r := run evs in
  ACTIVE_CLI_RUNS r !! JS.lit "s1" = Some 7%nat
  ∧ ACTIVE_CLI_RUNS (clearActiveCliRun (JS.lit "s1") 7 r) = delete (JS.lit "s1") (ACTIVE_CLI_RUNS r)
  ∧ settled (clearActiveCliRun (JS.lit "s1") 7 r) !! 1%nat = Some true
  ∧ settled (clearActiveCliRun (JS.lit "s1") 7 r) !! 2%nat = Some true
  ∧ clearActiveCliRun (JS.lit "s1") 8 r = r.
Proof.
  intros evs r.
  destruct (clear_requires_identical_handle evs (JS.lit "s1") 7) as (H1 & _).
  destruct (clear_requires_identical_handle evs (JS.lit "s1") 8) as (_ & H2 & _).
  assert (ACTIVE_CLI_RUNS r !! JS.lit "s1" = Some 7%nat) as Hact
    by (vm_compute; reflexivity).
  destruct (H1 Hact) as (Hdel & Hrel).
  split; [exact Hact|]. split; [exact Hdel|].
  split; [|split].
  - apply Hrel. eexists. split; vm_compute; reflexivity.
  - apply Hrel. eexists. split; vm_compute; reflexivity.
  - apply H2. fold r. rewrite Hact. discriminate.
Defined.

End RegistryClear.

(** ** The registry: waiting for the end of a run *)

Section RegistryWait.
Import Runs Trace.

(** C4 as stated fails for the empty session key: with a run registered
    under it, [waitForCliRunEnd] still answers [Promise.resolve(true)] at
    once, registers no waiter and arms no timer. *)
Lemma waitForEnd_empty_key_counterexample :
  let r := setActiveCliRun [] 7 Runs.empty in
  isCliRunActive [] r = true
  ∧ waitForCliRunEnd [] (Some 5000) r = (Resolved true, r)
  ∧ ¬ (∃ w r', waitForCliRunEnd [] (Some 5000) r = (Pending w, r')).
Proof.
  intros r. split; [by vm_compute|]. split; [reflexivity|].
  intros (w & r' & H). discriminate H.
Qed.

(** C4 (amended). In every registry a history of events can produce:
    [waitForCliRunEnd] answers an already resolved [true] when the session
    key is empty or has no active run; for a non-empty key with an active
    run it returns a pending promise whose timer is armed with
    [max(100, timeoutMs)], [timeoutMs] defaulting to 15000; a [clear] by
    the registered handle settles every waiter pending on that key with
    [true] and cancels its timer; the timer firing first settles its waiter
    with [false]; any other event leaves a pending waiter pending; and a
    settled promise never changes. *)
Theorem waitForEnd_contract (evs : list Event) (sessionId : jsstring)
    (timeoutMs : option Z) :
  let r := run evs in
  (sessionId = [] ∨ ACTIVE_CLI_RUNS r !! sessionId = None →
     waitForCliRunEnd sessionId timeoutMs r = (Resolved true, r))
  ∧ (sessionId ≠ [] → is_Some (ACTIVE_CLI_RUNS r !! sessionId) →
     ∃ w s r', waitForCliRunEnd sessionId timeoutMs r = (Pending w, r')
       ∧ settled r' !! w = None
       ∧ timers r' !! w = Some {| t_sessionId := sessionId; t_waiters := s;
                                  t_delay := Z.max 100 (default 15000 timeoutMs) |}
       ∧ ACTIVE_CLI_RUNS r' = ACTIVE_CLI_RUNS r
       ∧ ∀ v, pendingOn sessionId v r → pendingOn sessionId v r')
  ∧ (∀ h w, ACTIVE_CLI_RUNS r !! sessionId = Some h → pendingOn sessionId w r →
       settled (clearActiveCliRun sessionId h r) !! w = Some true
       ∧ timers (clearActiveCliRun sessionId h r) !! w = None)
  ∧ (∀ w, pendingOn sessionId w r →
       settled (waitTimeoutFires w r) !! w = Some false
       ∧ timers (waitTimeoutFires w r) !! w = None)
  ∧ (∀ w e, pendingOn sessionId w r →
       pendingOn sessionId w (step r e)
       ∨ (e = EWaitTimeout w ∧ settled (step r e) !! w = Some false)
       ∨ (is_Some (ACTIVE_CLI_RUNS r !! sessionId)
          ∧ ACTIVE_CLI_RUNS (step r e) !! sessionId = None
          ∧ settled (step r e) !! w = Some true))
  ∧ (∀ w b later, settled r !! w = Some b →
       settled (foldl step r later) !! w = Some b).
Proof.
  intros r. pose proof (Inv_run evs) as HI. fold r in HI.
  split; [apply wait_immediate|].
  split; [|split; [|split; [|split]]].
  - intros Hne Hact.
    destruct (wait_pending_fields sessionId timeoutMs r Hne Hact)
      as (r' & E & Ea & _ & _ & Et & Ed & _).
    eexists _, _, r'. split; [exact E|].
    assert (Inv r') as HI'.
    { replace r' with (waitForCliRunEnd sessionId timeoutMs r).2 by (by rewrite E).
      by apply Inv_wait. }
    split; [|split; [by rewrite Et, lookup_insert_eq|split; [done|]]].
    + destruct HI' as [I1 _ _ _ _ _ _].
      eapply I1. rewrite Et. apply lookup_insert_eq.
    + intros v Hp.
      destruct (pending_next r (EWait sessionId timeoutMs) sessionId v HI Hp)
        as [H|[[H _]|(_ & H & _)]]; cbn [step] in H.
      * by rewrite E in H.
      * discriminate H.
      * rewrite E in H. cbn [snd] in H. rewrite Ea in H.
        destruct Hact as [h Hh]. congruence.
  - intros h w Hact Hp. by apply clear_releases.
  - intros w (t & Ht & _). apply timeout_settles; [done|]. by rewrite Ht.
  - intros w e Hp. by apply pending_next.
  - intros w b later H. by apply settled_stable_run.
Qed.

Lemma waitForEnd_contract_witness :
  let s1 := JS.lit "s1" in
  let r := run [ERegister s1 7; EWait s1 None; EWait s1 (Some 50)] in
  waitForCliRunEnd (JS.lit "other") None r = (Resolved true, r)
  ∧ (∃ w s r', waitForCliRunEnd s1 (Some 50) r = (Pending w, r')
       ∧ settled r' !! w = None
       ∧ timers r' !! w = Some {| t_sessionId := s1; t_waiters := s;
                                  t_delay := 100 |})
  ∧ settled (clearActiveCliRun s1 7 r) !! 1%nat = Some true
  ∧ settled (clearActiveCliRun s1 7 r) !! 2%nat = Some true
  ∧ settled (waitTimeoutFires 2 r) !! 2%nat = Some false.
Proof.
  intros s1 r.
  pose (evs := [ERegister s1 7; EWait s1 None; EWait s1 (Some 50)]).
  destruct (waitForEnd_contract evs (JS.lit "other") None) as (H0 & _).
  destruct (waitForEnd_contract evs s1 (Some 50)) as (_ & H1 & H2 & H3 & _).
  assert (ACTIVE_CLI_RUNS r !! s1 = Some 7%nat) as Hact by (vm_compute; reflexivity).
  assert (pendingOn s1 1 r) as Hp1 by (eexists; split; vm_compute; reflexivity).
  assert (pendingOn s1 2 r) as Hp2 by (eexists; split; vm_compute; reflexivity).
  split; [apply H0; right; vm_compute; reflexivity|].
  split.
  - destruct H1 as (w & s & r' & E & Hd & Ht & _); [discriminate|by exists 7%nat|].
    exists w, s, r'. auto.
  - split; [apply (H2 7%nat 1%nat Hact Hp1)|].
    split; [apply (H2 7%nat 2%nat Hact Hp2)|apply (H3 2%nat Hp2)].
Defined.

End RegistryWait.


(** ** Abort *)

Section Abort.
Import Runs.

Lemma abort_idempotent h : Handle.abort (Handle.abort h) = Handle.abort h.
Proof. unfold Handle.abort. destruct (aborted h) eqn:E; cbn; by rewrite ?E. Qed.

Lemma set_handle_abort_idempotent v :
  set_handle Handle.abort (set_handle Handle.abort v) = set_handle Handle.abort v.
Proof. unfold set_handle. cbn. by rewrite abort_idempotent. Qed.

Lemma abort_sets_flag h :
  aborted (Handle.abort h) = true ∧ isStreaming (Handle.abort h) = false
  ∨ Handle.abort h = h ∧ aborted h = true.
Proof. unfold Handle.abort. destruct (aborted h) eqn:E; cbn; auto. Qed.

Lemma pipe_lines_keep_handle parse lines : ∀ v,
  handle (foldl (λ v l, set_stream (Pipe.onLine parse l) v) v lines) = handle v.
Proof. induction lines as [|l lines IH]; intros v; cbn [foldl]; [done|]. by rewrite IH. Qed.

Lemma drainLines_keeps_handle parse fuel : ∀ v,
  handle (Pty.drainLines parse fuel v) = handle v
  ∧ params (Pty.drainLines parse fuel v) = params v.
Proof.
  induction fuel as [|fuel IH]; intros v; cbn [Pty.drainLines]; [done|].
  destruct (JS.indexOf 10 (dataBuffer v)); [|done].
  destruct (IH (set_stream
                  (Pty.processLine parse
                     (JS.stripTrailingCR (JS.slice_to n (dataBuffer v))))
                  (set_dataBuffer (JS.slice_from (S n) (dataBuffer v)) v)))
    as [-> ->].
  done.
Qed.

Lemma pty_chunks_keep_handle parse chunks : ∀ v,
  handle (foldl (λ v d, Pty.onData parse d v) v chunks) = handle v.
Proof.
  induction chunks as [|d chunks IH]; intros v; cbn [foldl]; [done|].
  rewrite IH. unfold Pty.onData.
  by destruct (drainLines_keeps_handle parse
                 (S (length (dataBuffer (set_dataBuffer (dataBuffer v ++ d) v))))
                 (set_dataBuffer (dataBuffer v ++ d) v)) as [-> _].
Qed.

Lemma drainAtExit_keeps_handle parse v :
  handle (Pty.drainAtExit parse v) = handle v
  ∧ params (Pty.drainAtExit parse v) = params v.
Proof. unfold Pty.drainAtExit. by destruct (JS.truthy _). Qed.

Lemma pty_exit_reports_flag parse exitCode now v :
  result_aborted (Pty.onExit parse exitCode now v).2 = Some (aborted (handle v)).
Proof.
  unfold Pty.onExit.
  destruct (drainAtExit_keeps_handle parse v) as [Hh _].
  destruct (_ && _ && _); cbn [snd result_aborted Stream.mkResult]; by rewrite Hh.
Qed.

Lemma clear_runs sessionId h r : runs (clearActiveCliRun sessionId h r) = runs r.
Proof.
  unfold clearActiveCliRun. case_bool_decide; [|done].
  by destruct (notify_other sessionId
    (logSessionStateChange
       {| sc_sessionId := sessionId; sc_state := idle; sc_reason := cli_run_completed |}
       (set_active (delete sessionId) r))) as (_ & _ & -> & _).
Qed.

(** C8. [handle.abort] invoked twice on a run that was not aborted before
    sends SIGTERM to the child once, the second invocation changing
    nothing; the same holds through [abortCliRun], which returns [true]
    both times; whatever lines or data arrive afterwards, the result the
    exit handler of either runner hands to [finalize] has [aborted: true],
    and [finalize] settles the run's promise with that result. *)
Theorem abort_twice_kills_once :
  (∀ h, Handle.abort (Handle.abort h) = Handle.abort h
        ∧ aborted (Handle.abort h) = true
        ∧ (aborted h = false →
           signals (Handle.abort (Handle.abort h)) = signals h ++ [JS.lit "SIGTERM"]))
  ∧ (∀ r sessionId h v,
       ACTIVE_CLI_RUNS r !! sessionId = Some h → runs r !! h = Some v →
       aborted (handle v) = false →
       let a1 := abortCliRun sessionId r in
       let a2 := abortCliRun sessionId a1.2 in
       a1.1 = true ∧ a2.1 = true ∧ a2.2 = a1.2
       ∧ runs a2.2 !! h = Some (set_handle Handle.abort v)
       ∧ signals (handle (set_handle Handle.abort v))
           = signals (handle v) ++ [JS.lit "SIGTERM"])
  ∧ (∀ parse lines code now v, aborted (handle v) = true →
       result_aborted
         (Pipe.onClose code now
            (foldl (λ v l, set_stream (Pipe.onLine parse l) v) v lines)).2
       = Some true)
  ∧ (∀ parse chunks exitCode now v, aborted (handle v) = true →
       result_aborted
         (Pty.onExit parse exitCode now
            (foldl (λ v d, Pty.onData parse d v) v chunks)).2
       = Some true)
  ∧ (∀ r h v res, runs r !! h = Some v → resolved (handle v) = None →
       ∃ v', runs (Stream.finalize h res r) !! h = Some v'
             ∧ resolved (handle v') = Some res).
Proof.
  split; [|split; [|split; [|split]]].
  - intros h. split; [apply abort_idempotent|].
    unfold Handle.abort. destruct (aborted h) eqn:E; cbn; rewrite ?E; done.
  - intros r sessionId h v Hact Hv Hab a1 a2.
    subst a2 a1. unfold abortCliRun. rewrite Hact. cbn. rewrite Hact. cbn.
    split; [done|]. split; [done|]. split.
    + unfold set_runs. cbn. f_equal. apply map_eq. intros i.
      destruct (decide (h = i)) as [<-|Hne].
      * rewrite !lookup_alter_eq. destruct (runs r !! h); cbn; [|done].
        by rewrite set_handle_abort_idempotent.
      * by rewrite !lookup_alter_ne.
    + split.
      * rewrite !lookup_alter_eq, Hv. cbn. by rewrite set_handle_abort_idempotent.
      * cbn. unfold Handle.abort. by rewrite Hab.
  - intros parse lines code now v Hab. unfold Pipe.onClose.
    set (v' := foldl _ v lines).
    assert (aborted (handle v') = true) as Hab'
      by (subst v'; by rewrite pipe_lines_keep_handle).
    destruct (_ && _ && _); cbn; by rewrite Hab'.
  - intros parse chunks exitCode now v Hab.
    by rewrite pty_exit_reports_flag, pty_chunks_keep_handle, Hab.
  - intros r h v res Hv Hres. unfold Stream.finalize. rewrite Hv.
    rewrite clear_runs. cbn. rewrite lookup_insert_eq.
    eexists; split; [done|]. cbn. by rewrite Hres.
Qed.

Lemma abort_twice_kills_once_witness :
  let sp := Stream.spawnRun Sample.params Runs.empty in
  let a1 := abortCliRun (JS.lit "s1") sp.2 in
  let a2 := abortCliRun (JS.lit "s1") a1.2 in
  a1.1 = true ∧ a2.1 = true ∧ a2.2 = a1.2
  ∧ signals (Handle.abort (Handle.abort (Handle.init 30000))) = [JS.lit "SIGTERM"]
  ∧ result_aborted
      (Pipe.onClose (Some 0) 2000
         (foldl (λ v l, set_stream (Pipe.onLine Sample.parse l) v)
            (set_handle Handle.abort (Stream.initRun Sample.params))
            [Sample.deltaLine "Hello"])).2 = Some true
  ∧ result_aborted
      (Pty.onExit Sample.parse 0 2000
         (foldl (λ v d, Pty.onData Sample.parse d v)
            (set_handle Handle.abort (Stream.initRun Sample.params))
            [Sample.deltaLine "Hello"])).2 = Some true.
Proof.
  intros sp a1 a2.
  destruct abort_twice_kills_once as (H1 & H2 & H3 & H4 & _).
  destruct (H2 sp.2 (JS.lit "s1") 0%nat (Stream.initRun Sample.params))
    as (E1 & E2 & E3 & _); [by vm_compute..|].
  split; [exact E1|]. split; [exact E2|]. split; [exact E3|].
  split; [by apply (H1 (Handle.init 30000))|].
  split; [by apply H3|by apply H4].
Defined.

End Abort.


(** ** Streaming: partial replies and block replies *)

Section Blocks.

Lemma extendsBlock_refl v : Stream.extendsBlock v v.
Proof. exists []. rewrite !app_nil_r. by repeat split. Qed.

Lemma extendsBlock_trans v1 v2 v3 :
  Stream.extendsBlock v1 v2 → Stream.extendsBlock v2 v3 → Stream.extendsBlock v1 v3.
Proof.
  intros (n1 & D1 & B1 & F1 & T1) (n2 & D2 & B2 & F2 & T2). exists (n1 ++ n2).
  unfold Stream.blockTexts, Stream.partialTexts in *.
  rewrite D2, D1, T2, T1, !omap_app, B1, B2, concat_app, !app_assoc.
  repeat split; try done. by apply Forall_app.
Qed.

Lemma truthy_nonempty (t : jsstring) : JS.truthy t = true → t ≠ [].
Proof. by destruct t. Qed.

Lemma truthy_opt_nonempty (o : option jsstring) :
  JS.truthy_opt o = true → default [] o ≠ [].
Proof. destruct o as [t|]; [apply truthy_nonempty|done]. Qed.

Lemma appendText_extends t v : t ≠ [] → Stream.extendsBlock v (Stream.appendText t v).
Proof.
  intros Ht. exists [PartialReply t]. cbn. rewrite app_nil_r.
  repeat split; try done. by constructor.
Qed.

Lemma keeps_callbacks_extends v v' :
  delivered v' = delivered v → currentTextBuffer v' = currentTextBuffer v →
  Stream.extendsBlock v v'.
Proof. intros D T. exists []. rewrite D, T, !app_nil_r. by repeat split. Qed.

Lemma onSystem_extends subtype sid v : Stream.extendsBlock v (Stream.onSystem subtype sid v).
Proof. unfold Stream.onSystem. destruct (_ && _); by apply keeps_callbacks_extends. Qed.

Lemma onDelta_extends delta v : Stream.extendsBlock v (Stream.onDelta delta v).
Proof.
  unfold Stream.onDelta. destruct delta as [d|]; [|apply extendsBlock_refl].
  destruct (bool_decide _); cbn [andb]; [|apply extendsBlock_refl].
  destruct (JS.truthy_opt (delta_text d)) eqn:Ht; [|apply extendsBlock_refl].
  by apply appendText_extends, truthy_opt_nonempty.
Qed.

Lemma onToolResult_extends content v :
  Stream.extendsBlock v (Stream.onToolResult content v).
Proof.
  unfold Stream.onToolResult. destruct content as [c|]; [|apply extendsBlock_refl].
  destruct (JS.truthy c); [|apply extendsBlock_refl].
  exists [ToolResult (Stream.summary c)]. cbn. rewrite app_nil_r. by repeat split.
Qed.

Lemma pipe_event_extends e v :
  e ≠ EvContentBlockStop → Stream.extendsBlock v (Pipe.handleEvent e v).
Proof.
  intros He. destruct e; cbn [Pipe.handleEvent]; try done;
    auto using extendsBlock_refl, onSystem_extends, onDelta_extends,
               onToolResult_extends.
  - unfold Pipe.onAssistant. destruct message as [m|]; [|apply extendsBlock_refl].
    destruct (bool_decide _); cbn [andb]; [|apply extendsBlock_refl].
    destruct (JS.truthy_opt (msg_text m)) eqn:Ht; [|apply extendsBlock_refl].
    by apply appendText_extends, truthy_opt_nonempty.
  - unfold Pipe.onResult.
    destruct (JS.truthy_opt session_id); destruct (_ && _);
      by apply keeps_callbacks_extends.
  - by apply keeps_callbacks_extends.
Qed.

Lemma pty_blocks_extend content : ∀ v,
  Stream.extendsBlock v (foldl Pty.onBlock v content).
Proof.
  induction content as [|b content IH]; intros v; cbn [foldl];
    [apply extendsBlock_refl|].
  eapply extendsBlock_trans; [|apply IH].
  unfold Pty.onBlock.
  destruct (bool_decide _); cbn [andb]; [|apply extendsBlock_refl].
  destruct (JS.truthy_opt (block_text b)) eqn:Ht; [|apply extendsBlock_refl].
  by apply appendText_extends, truthy_opt_nonempty.
Qed.

Lemma pty_event_extends e v :
  e ≠ EvContentBlockStop → Stream.extendsBlock v (Pty.handleEvent e v).
Proof.
  intros He. destruct e; cbn [Pty.handleEvent]; try done;
    auto using extendsBlock_refl, onSystem_extends, onDelta_extends,
               onToolResult_extends.
  - unfold Pty.onAssistant. destruct message as [m|]; [|apply extendsBlock_refl].
    destruct (msg_content m); [apply pty_blocks_extend|apply extendsBlock_refl].
  - unfold Pty.onResult.
    destruct (JS.truthy_opt session_id); destruct (_ && _);
      try destruct (JS.truthy_opt (Pty.resultText result));
      by apply keeps_callbacks_extends.
  - by apply keeps_callbacks_extends.
Qed.

Lemma events_extend (H : CliStreamEvent → StreamVars → StreamVars) :
  (∀ e v, e ≠ EvContentBlockStop → Stream.extendsBlock v (H e v)) →
  ∀ events v, EvContentBlockStop ∉ events →
    Stream.extendsBlock v (foldl (λ v e, H e v) v events).
Proof.
  intros Hstep events. induction events as [|e events IH]; intros v Hno; cbn [foldl];
    [apply extendsBlock_refl|].
  apply not_elem_of_cons in Hno as [Hne Hno].
  apply extendsBlock_trans with (H e v); [apply Hstep; congruence|by apply IH].
Qed.

(** What the block stop does with the text buffer. *)
Lemma onBlockStop_fires v :
  Stream.onBlockStop v =
    if JS.truthy (currentTextBuffer v)
    then {| resolvedSessionId := resolvedSessionId v;
            collectedTexts := collectedTexts v ++ [currentTextBuffer v];
            currentTextBuffer := [];
            delivered := delivered v ++ [BlockReply (currentTextBuffer v)] |}
    else v.
Proof. unfold Stream.onBlockStop. by destruct (JS.truthy _). Qed.

Lemma concat_nonempty (ts : list jsstring) :
  Forall (λ t, t ≠ []) ts → ts ≠ [] → concat ts ≠ [].
Proof.
  intros HF Hne. destruct ts as [|t ts]; [done|].
  apply Forall_cons in HF as [Ht _]. cbn. by destruct t.
Qed.

(** C2. In either streaming runner, let a block start with an empty text
    buffer and let events follow that contain no block stop.  Then the
    callbacks fired for them contain no block reply, and the block stop
    that closes the block fires exactly one block reply whose text is the
    concatenation of the texts of the partial replies fired for the block,
    provided there was any; the same text is what the block adds to the
    collected texts. *)
Theorem block_reply_concatenates_partials (events : list CliStreamEvent)
    (v : StreamVars) :
  EvContentBlockStop ∉ events → currentTextBuffer v = [] →
  (∃ new,
     let v1 := Pipe.handleEvents events v in
     let v2 := Pipe.handleEvent EvContentBlockStop v1 in
     delivered v1 = delivered v ++ new ∧ Stream.blockTexts new = []
     ∧ (Stream.partialTexts new ≠ [] →
        delivered v2 = delivered v1 ++ [BlockReply (concat (Stream.partialTexts new))]
        ∧ collectedTexts v2 = collectedTexts v1 ++ [concat (Stream.partialTexts new)]
        ∧ currentTextBuffer v2 = [])
     ∧ (Stream.partialTexts new = [] → v2 = v1))
  ∧ (∃ new,
     let v1 := Pty.handleEvents events v in
     let v2 := Pty.handleEvent EvContentBlockStop v1 in
     delivered v1 = delivered v ++ new ∧ Stream.blockTexts new = []
     ∧ (Stream.partialTexts new ≠ [] →
        delivered v2 = delivered v1 ++ [BlockReply (concat (Stream.partialTexts new))]
        ∧ collectedTexts v2 = collectedTexts v1 ++ [concat (Stream.partialTexts new)]
        ∧ currentTextBuffer v2 = [])
     ∧ (Stream.partialTexts new = [] → v2 = v1)).
Proof.
  intros Hno Hbuf.
  assert (∀ v1, Stream.extendsBlock v v1 →
    ∃ new, delivered v1 = delivered v ++ new ∧ Stream.blockTexts new = []
      ∧ (Stream.partialTexts new ≠ [] →
         delivered (Stream.onBlockStop v1)
           = delivered v1 ++ [BlockReply (concat (Stream.partialTexts new))]
         ∧ collectedTexts (Stream.onBlockStop v1)
             = collectedTexts v1 ++ [concat (Stream.partialTexts new)]
         ∧ currentTextBuffer (Stream.onBlockStop v1) = [])
      ∧ (Stream.partialTexts new = [] → Stream.onBlockStop v1 = v1)) as Hmain.
  { intros v1 (new & D & B & F & T). exists new. rewrite Hbuf in T. cbn in T.
    split; [done|]. split; [done|]. rewrite onBlockStop_fires, T.
    destruct (concat (Stream.partialTexts new)) as [|c cs] eqn:Hc; cbn [JS.truthy].
    - split; [|done]. intros Hne. by apply concat_nonempty in Hne.
    - split; [done|]. intros Hnil. rewrite Hnil in Hc. discriminate Hc. }
  split; apply Hmain.
  - apply (events_extend Pipe.handleEvent pipe_event_extends); done.
  - apply (events_extend Pty.handleEvent pty_event_extends); done.
Qed.

Lemma openText_app a : ∀ b open,
  Stream.openText open (a ++ b) = Stream.openText open a ≫= λ o, Stream.openText o b.
Proof.
  induction a as [|c a IH]; intros b open; cbn; [done|].
  destruct c; [apply IH| |apply IH]. case_bool_decide; [apply IH|done].
Qed.

Lemma openText_no_block new : ∀ open,
  Stream.blockTexts new = [] →
  Stream.openText open new = Some (open ++ concat (Stream.partialTexts new)).
Proof.
  induction new as [|c new IH]; intros open Hb; cbn; [by rewrite app_nil_r|].
  destruct c; cbn in Hb |- *; [|done|by apply IH].
  rewrite IH by done. by rewrite app_assoc.
Qed.

(** In any sequence of events, from the start of a run, every block reply
    carries the concatenation of the partial replies fired since the block
    reply before it, and the text buffer holds the partial replies fired
    since the last block reply. *)
Lemma block_replies_agree_with_partials (H : CliStreamEvent → StreamVars → StreamVars) :
  (∀ e v, e ≠ EvContentBlockStop → Stream.extendsBlock v (H e v)) →
  (∀ v, H EvContentBlockStop v = Stream.onBlockStop v) →
  ∀ events v,
    Stream.openText [] (delivered v) = Some (currentTextBuffer v) →
    let v' := foldl (λ v e, H e v) v events in
    Stream.openText [] (delivered v') = Some (currentTextBuffer v').
Proof.
  intros Hstep Hstop events.
  induction events as [|e events IH]; intros v Hv; cbn [foldl]; [done|].
  apply IH.
  assert (e = EvContentBlockStop ∨ e ≠ EvContentBlockStop) as [->|Hne]
    by (destruct e; (by left) || (by right)).
  - rewrite Hstop, onBlockStop_fires.
    destruct (JS.truthy (currentTextBuffer v)); [|done]. cbn [delivered currentTextBuffer].
    rewrite openText_app, Hv. cbn. by rewrite bool_decide_eq_true_2.
  - destruct (Hstep e v Hne) as (new & D & B & _ & T).
    rewrite D, T, openText_app, Hv. cbn. by apply openText_no_block.
Qed.

Lemma pipe_block_replies_agree events sessionId :
  let v := Pipe.handleEvents events (Stream.init sessionId) in
  Stream.openText [] (delivered v) = Some (currentTextBuffer v).
Proof.
  by apply (block_replies_agree_with_partials Pipe.handleEvent pipe_event_extends).
Qed.

Lemma pty_block_replies_agree events sessionId :
  let v := Pty.handleEvents events (Stream.init sessionId) in
  Stream.openText [] (delivered v) = Some (currentTextBuffer v).
Proof.
  by apply (block_replies_agree_with_partials Pty.handleEvent pty_event_extends).
Qed.

Lemma block_reply_concatenates_partials_witness :
  let events := [Sample.textDelta "Hello"; EvToolUse; Sample.textDelta " world"] in
  let v := Stream.init (JS.lit "s1") in
  delivered (Pipe.handleEvents (events ++ [EvContentBlockStop]) v)
    = [PartialReply (JS.lit "Hello"); PartialReply (JS.lit " world");
       BlockReply (JS.lit "Hello world")]
  ∧ delivered (Pty.handleEvents (events ++ [EvContentBlockStop]) v)
    = [PartialReply (JS.lit "Hello"); PartialReply (JS.lit " world");
       BlockReply (JS.lit "Hello world")].
Proof.
  intros events v.
  destruct (block_reply_concatenates_partials events v) as [(n1 & E1) (n2 & E2)].
  - intros Hin. by repeat (apply elem_of_cons in Hin as [Hin|Hin]; [discriminate|]);
      apply elem_of_nil in Hin.
  - reflexivity.
  - cbv zeta in E1, E2.
    destruct E1 as (D1 & _ & S1 & _). destruct E2 as (D2 & _ & S2 & _).
    assert (n1 = [PartialReply (JS.lit "Hello"); PartialReply (JS.lit " world")]) as ->.
    { change (delivered v) with (@nil Callback) in D1. rewrite app_nil_l in D1.
      by rewrite <- D1. }
    assert (n2 = [PartialReply (JS.lit "Hello"); PartialReply (JS.lit " world")]) as ->.
    { change (delivered v) with (@nil Callback) in D2. rewrite app_nil_l in D2.
      by rewrite <- D2. }
    change (Pipe.handleEvents (events ++ [EvContentBlockStop]) v)
      with (Pipe.handleEvent EvContentBlockStop (Pipe.handleEvents events v)).
    change (Pty.handleEvents (events ++ [EvContentBlockStop]) v)
      with (Pty.handleEvent EvContentBlockStop (Pty.handleEvents events v)).
    split.
    + destruct S1 as (-> & _); [discriminate|]. by rewrite D1.
    + destruct S2 as (-> & _); [discriminate|]. by rewrite D2.
Defined.

End Blocks.

(** ** Streaming: the terminal result event *)

Section ResultEvent.

(** The pseudo-terminal runner uses the result event as a fallback only. *)
Lemma pty_result_is_fallback result session_id v :
  collectedTexts (Pty.onResult result session_id v) =
    if bool_decide (collectedTexts v = [] ∧ currentTextBuffer v = [])
    then collectedTexts v
         ++ (if JS.truthy_opt (Pty.resultText result)
             then [default [] (Pty.resultText result)] else [])
    else collectedTexts v.
Proof.
  unfold Pty.onResult.
  set (v' := if JS.truthy_opt session_id then _ else v).
  assert (collectedTexts v' = collectedTexts v ∧ currentTextBuffer v' = currentTextBuffer v)
    as [Ec Eb] by (subst v'; by destruct (JS.truthy_opt session_id)).
  rewrite Ec, Eb.
  destruct (collectedTexts v) as [|t ts] eqn:Hc; cbn [length Nat.eqb andb].
  - destruct (currentTextBuffer v) as [|c cs] eqn:Hb.
    + rewrite !bool_decide_eq_true_2 by done.
      destruct (JS.truthy_opt (Pty.resultText result)); cbn; by rewrite ?Ec, ?Hc.
    + rewrite bool_decide_eq_false_2 by done.
      rewrite bool_decide_eq_false_2 by (by intros [_ ?]). by rewrite ?Ec, ?Hc.
  - rewrite bool_decide_eq_false_2 by (by intros [? _]). by rewrite ?Ec, ?Hc.
Qed.

(** The pipe runner adds the text of the result event unless one of the
    collected texts is equal to it. *)
Lemma pipe_result_unless_included result session_id v :
  collectedTexts (Pipe.onResult result session_id v) =
    if JS.truthy_opt (Pipe.resultText result)
       && negb (JS.includes (default [] (Pipe.resultText result)) (collectedTexts v))
    then collectedTexts v ++ [default [] (Pipe.resultText result)]
    else collectedTexts v.
Proof.
  unfold Pipe.onResult.
  set (v' := if JS.truthy_opt session_id then _ else v).
  assert (collectedTexts v' = collectedTexts v) as Ec
    by (subst v'; by destruct (JS.truthy_opt session_id)).
  rewrite Ec. destruct (_ && _); cbn; by rewrite ?Ec.
Qed.

(** C3, at the input where the pipe runner departs from it: two completed
    blocks followed by a result event whose text is the whole answer.  The
    pipe runner appends the result text to the two collected blocks; the
    pseudo-terminal runner, on the same events, leaves the collected texts
    as they were. *)
Theorem pipe_result_joins_collected_blocks :
  let events := [Sample.textDelta "Hello"; EvContentBlockStop;
                 Sample.textDelta " world"; EvContentBlockStop] in
  let result := EvResult (Some (ResultObject (Some (JS.lit "Hello world")))) None in
  let v := Stream.init (JS.lit "s1") in
  collectedTexts (Pipe.handleEvents events v) = [JS.lit "Hello"; JS.lit " world"]
  ∧ collectedTexts (Pipe.handleEvents (events ++ [result]) v)
      = [JS.lit "Hello"; JS.lit " world"; JS.lit "Hello world"]
  ∧ collectedTexts (Pty.handleEvents (events ++ [result]) v)
      = [JS.lit "Hello"; JS.lit " world"].
Proof. by vm_compute. Qed.

End ResultEvent.

(** ** Streaming: tool results *)

Section ToolResults.

Lemma summary_long content :
  (200 < length content)%nat →
  Stream.summary content = take 200 content ++ JS.lit "..."
  ∧ length (Stream.summary content) = 203%nat
  ∧ drop 200 (Stream.summary content) = JS.lit "...".
Proof.
  intros Hlen. unfold Stream.summary, JS.slice_to.
  apply Nat.ltb_lt in Hlen as Hb. rewrite Hb.
  split; [done|]. split.
  - rewrite length_app, length_take, Nat.min_l by lia. reflexivity.
  - rewrite drop_app_length'; [done|]. rewrite length_take. symmetry. apply Nat.min_l. lia.
Qed.

Lemma summary_short content :
  (length content ≤ 200)%nat → Stream.summary content = content.
Proof.
  intros Hlen. unfold Stream.summary.
  by rewrite (proj2 (Nat.ltb_ge 200 (length content))).
Qed.

(** C5 as stated fails for an empty text: it is 200 characters or shorter,
    and it is not delivered at all. *)
Lemma tool_result_empty_counterexample :
  let v := Stream.init (JS.lit "s1") in
  (length (@nil N) ≤ 200)%nat
  ∧ delivered (Pipe.handleEvent (EvToolResult (Some [])) v) = []
  ∧ delivered (Pty.handleEvent (EvToolResult (Some [])) v) = []
  ∧ ¬ (ToolResult [] ∈ delivered (Pipe.handleEvent (EvToolResult (Some [])) v)).
Proof.
  intros v. split; [cbn; lia|]. split; [done|]. split; [done|].
  cbn. apply not_elem_of_nil.
Qed.

(** C5 (amended). In both streaming runners a tool-result event fires the
    tool-result callback exactly once when its text is not empty: with the
    first 200 code units followed by ["..."] (203 code units in all) when
    the text is longer than 200, with the text itself otherwise.  An empty
    or absent text fires nothing.  Nothing else changes. *)
Theorem tool_result_is_summarised (content : jsstring) (v : StreamVars) :
  Pipe.handleEvent (EvToolResult (Some content)) v
    = Pty.handleEvent (EvToolResult (Some content)) v
  ∧ ((200 < length content)%nat →
       Pipe.handleEvent (EvToolResult (Some content)) v
         = Stream.fire (ToolResult (take 200 content ++ JS.lit "...")) v
       ∧ length (take 200 content ++ JS.lit "...") = 203%nat
       ∧ drop 200 (take 200 content ++ JS.lit "...") = JS.lit "...")
  ∧ ((0 < length content ≤ 200)%nat →
       Pipe.handleEvent (EvToolResult (Some content)) v
         = Stream.fire (ToolResult content) v)
  ∧ (content = [] → Pipe.handleEvent (EvToolResult (Some content)) v = v)
  ∧ Pipe.handleEvent (EvToolResult None) v = v
  ∧ Pty.handleEvent (EvToolResult None) v = v.
Proof.
  split; [done|]. cbn [Pipe.handleEvent Pty.handleEvent Stream.onToolResult].
  split; [|split; [|split; [|done]]].
  - intros Hlen. destruct (summary_long content Hlen) as (E & L & D).
    rewrite E in L, D. split; [|done].
    destruct content; [cbn in Hlen; lia|]. cbn [JS.truthy]. by rewrite E.
  - intros [Hpos Hlen]. destruct content; [cbn in Hpos; lia|].
    cbn [JS.truthy]. by rewrite summary_short.
  - by intros ->.
Qed.

Lemma tool_result_is_summarised_witness :
  let long := replicate 300 120%N in
  let short := replicate 150 120%N in
  let v := Stream.init (JS.lit "s1") in
  delivered (Pipe.handleEvent (EvToolResult (Some long)) v)
    = [ToolResult (replicate 200 120%N ++ JS.lit "...")]
  ∧ length (take 200 long ++ JS.lit "...") = 203%nat
  ∧ delivered (Pty.handleEvent (EvToolResult (Some short)) v) = [ToolResult short].
Proof.
  intros long short v.
  destruct (tool_result_is_summarised long v) as (_ & H1 & _).
  destruct (tool_result_is_summarised short v) as (E & _ & H2 & _).
  destruct H1 as (E1 & L1 & _); [cbn; lia|].
  split; [by rewrite E1|]. split; [exact L1|].
  rewrite <- E, H2; [done|]. cbn. lia.
Defined.

End ToolResults.


(** ** Streaming: what is collected is kept *)

Section Collected.

Lemma collectsMore_refl v : Stream.collectsMore v v.
Proof. exists []. by rewrite app_nil_r. Qed.

Lemma collectsMore_trans v1 v2 v3 :
  Stream.collectsMore v1 v2 → Stream.collectsMore v2 v3 → Stream.collectsMore v1 v3.
Proof.
  intros (r1 & E1 & F1) (r2 & E2 & F2). exists (r1 ++ r2).
  rewrite E2, E1, app_assoc. split; [done|]. by apply Forall_app.
Qed.

Lemma collectsMore_same v v' :
  collectedTexts v' = collectedTexts v → Stream.collectsMore v v'.
Proof. intros E. exists []. by rewrite E, app_nil_r. Qed.

Lemma collect_collectsMore t v : t ≠ [] → Stream.collectsMore v (Stream.collect t v).
Proof. intros Ht. exists [t]. split; [done|]. by constructor. Qed.

Lemma onSystem_collected subtype sid v :
  collectedTexts (Stream.onSystem subtype sid v) = collectedTexts v.
Proof. unfold Stream.onSystem. by destruct (_ && _). Qed.

Lemma onDelta_collected delta v :
  collectedTexts (Stream.onDelta delta v) = collectedTexts v.
Proof.
  unfold Stream.onDelta. destruct delta; [|done]. by destruct (_ && _).
Qed.

Lemma onToolResult_collected content v :
  collectedTexts (Stream.onToolResult content v) = collectedTexts v.
Proof.
  unfold Stream.onToolResult. destruct content as [c|]; [|done].
  by destruct (JS.truthy c).
Qed.

Lemma onBlockStop_collectsMore v : Stream.collectsMore v (Stream.onBlockStop v).
Proof.
  rewrite onBlockStop_fires. destruct (JS.truthy _) eqn:Ht; [|apply collectsMore_refl].
  exists [currentTextBuffer v]. split; [done|].
  constructor; [by apply truthy_nonempty|done].
Qed.

Lemma onError_collectsMore message v : Stream.collectsMore v (Stream.onError message v).
Proof.
  apply collect_collectsMore. intros H. apply (f_equal length) in H.
  rewrite length_app in H. vm_compute in H. discriminate H.
Qed.

Lemma flush_collectsMore v : Stream.collectsMore v (Stream.flush v).
Proof.
  unfold Stream.flush. destruct (JS.truthy _) eqn:Ht; [|apply collectsMore_refl].
  by apply collect_collectsMore, truthy_nonempty.
Qed.

Lemma pipe_event_collectsMore e v : Stream.collectsMore v (Pipe.handleEvent e v).
Proof.
  destruct e; cbn [Pipe.handleEvent];
    auto using collectsMore_refl, collectsMore_same, onSystem_collected,
      onDelta_collected, onToolResult_collected, onBlockStop_collectsMore,
      onError_collectsMore.
  - apply collectsMore_same. unfold Pipe.onAssistant.
    destruct message; [|done]. by destruct (_ && _).
  - unfold Pipe.onResult.
    set (v' := if JS.truthy_opt session_id then _ else v).
    apply collectsMore_trans with v'.
    + apply collectsMore_same. subst v'. by destruct (JS.truthy_opt session_id).
    + destruct (JS.truthy_opt (Pipe.resultText result)) eqn:Ht; cbn [andb];
        [|apply collectsMore_refl].
      destruct (negb _); [|apply collectsMore_refl].
      by apply collect_collectsMore, truthy_opt_nonempty.
Qed.

Lemma pty_blocks_collected content : ∀ v,
  collectedTexts (foldl Pty.onBlock v content) = collectedTexts v.
Proof.
  induction content as [|b content IH]; intros v; cbn [foldl]; [done|].
  rewrite IH. unfold Pty.onBlock. by destruct (_ && _).
Qed.

Lemma pty_event_collectsMore e v : Stream.collectsMore v (Pty.handleEvent e v).
Proof.
  destruct e; cbn [Pty.handleEvent];
    auto using collectsMore_refl, collectsMore_same, onSystem_collected,
      onDelta_collected, onToolResult_collected, onBlockStop_collectsMore,
      onError_collectsMore.
  - apply collectsMore_same. unfold Pty.onAssistant.
    destruct message as [m|]; [|done].
    destruct (msg_content m); [apply pty_blocks_collected|done].
  - unfold Pty.onResult.
    set (v' := if JS.truthy_opt session_id then _ else v).
    apply collectsMore_trans with v'.
    + apply collectsMore_same. subst v'. by destruct (JS.truthy_opt session_id).
    + destruct (_ && _); [|apply collectsMore_refl].
      destruct (JS.truthy_opt (Pty.resultText result)) eqn:Ht;
        [|apply collectsMore_refl].
      by apply collect_collectsMore, truthy_opt_nonempty.
Qed.

Lemma pipe_line_collectsMore parse line v :
  Stream.collectsMore v (Pipe.onLine parse line v).
Proof.
  unfold Pipe.onLine. destruct (negb _); [apply collectsMore_refl|].
  destruct (parse line); [apply pipe_event_collectsMore|apply collectsMore_refl].
Qed.

Lemma pty_line_collectsMore parse line v :
  Stream.collectsMore v (Pty.processLine parse line v).
Proof.
  unfold Pty.processLine. destruct (negb _); [apply collectsMore_refl|].
  destruct (parse line); [apply pty_event_collectsMore|apply collectsMore_refl].
Qed.

Lemma pipe_lines_collectMore parse lines : ∀ v,
  Stream.collectsMore (stream v)
    (stream (foldl (λ v l, set_stream (Pipe.onLine parse l) v) v lines)).
Proof.
  induction lines as [|l lines IH]; intros v; cbn [foldl]; [apply collectsMore_refl|].
  eapply collectsMore_trans; [|apply IH]. apply pipe_line_collectsMore.
Qed.

Lemma drainLines_collectsMore parse fuel : ∀ v,
  Stream.collectsMore (stream v) (stream (Pty.drainLines parse fuel v)).
Proof.
  induction fuel as [|fuel IH]; intros v; cbn [Pty.drainLines];
    [apply collectsMore_refl|].
  destruct (JS.indexOf 10 (dataBuffer v)); [|apply collectsMore_refl].
  eapply collectsMore_trans; [|apply IH]. apply pty_line_collectsMore.
Qed.

Lemma pty_chunks_collectMore parse chunks : ∀ v,
  Stream.collectsMore (stream v)
    (stream (foldl (λ v d, Pty.onData parse d v) v chunks)).
Proof.
  induction chunks as [|d chunks IH]; intros v; cbn [foldl]; [apply collectsMore_refl|].
  eapply collectsMore_trans; [|apply IH]. unfold Pty.onData.
  apply (drainLines_collectsMore parse _ (set_dataBuffer (dataBuffer v ++ d) v)).
Qed.

End Collected.

(** ** Trimming: [trim] leaves no white space at either end *)

Lemma trimStart_suffix s : ∃ p, s = p ++ JS.trimStart s.
Proof.
  induction s as [|c s [p IH]]; [by exists []|]. cbn.
  destruct (JS.isWhiteSpace c); [|by exists []].
  exists (c :: p). cbn. by rewrite <- IH.
Qed.

Lemma trimStart_head s c :
  head (JS.trimStart s) = Some c → JS.isWhiteSpace c = false.
Proof.
  induction s as [|d s IH]; cbn; [done|].
  destruct (JS.isWhiteSpace d) eqn:E; [done|]. cbn. by intros [= <-].
Qed.

Lemma trimStart_fixed s :
  (∀ c, head s = Some c → JS.isWhiteSpace c = false) → JS.trimStart s = s.
Proof. destruct s as [|c s]; [done|]. intros H. cbn. by rewrite (H c eq_refl). Qed.

Lemma trimEnd_prefix s : ∃ q, s = JS.trimEnd s ++ q.
Proof.
  unfold JS.trimEnd. destruct (trimStart_suffix (rev s)) as [p Hp].
  exists (rev p). rewrite <- rev_app_distr, <- Hp. by rewrite rev_involutive.
Qed.

Lemma trimEnd_last s c :
  last (JS.trimEnd s) = Some c → JS.isWhiteSpace c = false.
Proof.
  unfold JS.trimEnd. intros H. apply (trimStart_head (rev s)).
  destruct (JS.trimStart (rev s)) as [|d t]; [done|].
  cbn in H. rewrite last_app in H. cbn in H. by injection H as <-.
Qed.

Lemma trimEnd_fixed s :
  (∀ c, last s = Some c → JS.isWhiteSpace c = false) → JS.trimEnd s = s.
Proof.
  intros H. unfold JS.trimEnd. rewrite trimStart_fixed; [apply rev_involutive|].
  intros c Hc. apply H. rewrite <- (rev_involutive s).
  destruct (rev s) as [|d t]; [done|]. cbn in *. injection Hc as ->.
  by rewrite last_app.
Qed.

Lemma trim_shape s :
  (∀ c, head (JS.trim s) = Some c → JS.isWhiteSpace c = false)
  ∧ (∀ c, last (JS.trim s) = Some c → JS.isWhiteSpace c = false).
Proof.
  unfold JS.trim. split; [|apply trimEnd_last].
  intros c Hc. apply (trimStart_head s).
  destruct (trimEnd_prefix (JS.trimStart s)) as [q Hq]. rewrite Hq.
  by destruct (JS.trimEnd (JS.trimStart s)).
Qed.

Lemma trim_trimmed s : JS.trim (JS.trim s) = JS.trim s.
Proof.
  destruct (trim_shape s) as [Hh Hl].
  unfold JS.trim at 1. rewrite (trimStart_fixed _ Hh). by apply trimEnd_fixed.
Qed.

(** ** Streaming: what is buffered at exit *)

Section ExitFlush.

Lemma indexOf_lt c s i : JS.indexOf c s = Some i → (i < length s)%nat.
Proof.
  revert i. induction s as [|d s IH]; intros i; cbn [JS.indexOf]; [done|].
  destruct (d =? c)%N.
  - intros [= <-]. cbn. lia.
  - destruct (JS.indexOf c s) as [j|]; [|done].
    intros [= <-]. specialize (IH j eq_refl). cbn. lia.
Qed.

(** The fuel given to the loop of [onData] lets it run until no newline is
    left in [dataBuffer]: the loop ends the way the source's does. *)
Lemma drainLines_done parse fuel : ∀ v,
  (length (dataBuffer v) < fuel)%nat →
  JS.indexOf 10 (dataBuffer (Pty.drainLines parse fuel v)) = None.
Proof.
  induction fuel as [|fuel IH]; intros v Hlen; [lia|].
  cbn [Pty.drainLines].
  destruct (JS.indexOf 10 (dataBuffer v)) as [i|] eqn:Hi; [|done].
  apply IH. cbn. unfold JS.slice_from. rewrite length_drop.
  apply indexOf_lt in Hi. lia.
Qed.

Lemma processLine_blank parse line v :
  JS.truthy (JS.trim line) = false → Pty.processLine parse line v = v.
Proof. intros H. unfold Pty.processLine. by rewrite H. Qed.

Lemma drainAtExit_stream parse v :
  stream (Pty.drainAtExit parse v)
    = Stream.flush (Pty.processLine parse (JS.trim (dataBuffer v)) (stream v)).
Proof.
  unfold Pty.drainAtExit.
  destruct (JS.truthy (JS.trim (dataBuffer v))) eqn:Ht; [done|].
  assert (JS.trim (dataBuffer v) = []) as -> by (by destruct (JS.trim _)).
  by rewrite processLine_blank.
Qed.

Lemma flush_collected v :
  collectedTexts (Stream.flush v)
    = collectedTexts v
      ++ (if JS.truthy (currentTextBuffer v) then [currentTextBuffer v] else []).
Proof. unfold Stream.flush. destruct (JS.truthy _); [done|]. by rewrite app_nil_r. Qed.

Lemma payloadsOf_covers texts t :
  t ∈ texts → textPayload t ∈ default [] (Stream.payloadsOf texts).
Proof.
  intros Hin. destruct texts as [|t0 ts]; [by apply elem_of_nil in Hin|].
  cbn [Stream.payloadsOf default]. by apply list_elem_of_fmap_2.
Qed.

(** C9. Pseudo-terminal runner: after every [onData] no newline is left
    in [dataBuffer], so what remains at exit is one unterminated line; the
    exit handler processes it (trimmed) as a line, the way every line is
    processed (its event, if it parses, goes through the [switch]), then
    flushes the text buffer into the collected texts; every text collected
    before stays, and every collected text is in the payloads of the
    result.  Pipe runner: the close handler flushes the text buffer into
    the collected texts, and every collected text is in the payloads of the
    result; the line buffer is [readline]'s, and whatever line [readline]
    emits last, at the end of the input, is handled like every line before
    the close handler builds the result: its event goes through the
    [switch], what it adds to the collected texts and to the text buffer is
    in the payloads, and when every line parses the run is the run of the
    handlers on the events of all lines, the last included. *)
Theorem exit_flushes_buffers (parse : jsstring → option CliStreamEvent) :
  (∀ data v, JS.indexOf 10 (dataBuffer (Pty.onData parse data v)) = None)
  ∧ (∀ exitCode now v,
       let last := Pty.processLine parse (JS.trim (dataBuffer v)) (stream v) in
       let out := Pty.onExit parse exitCode now v in
       collectedTexts (stream out.1)
         = collectedTexts last
           ++ (if JS.truthy (currentTextBuffer last) then [currentTextBuffer last] else [])
       ∧ Stream.collectsMore (stream v) (stream out.1)
       ∧ ∀ t, t ∈ collectedTexts (stream out.1) →
              textPayload t ∈ default [] (payloads out.2))
  ∧ (∀ code now v,
       let out := Pipe.onClose code now v in
       collectedTexts (stream out.1)
         = collectedTexts (stream v)
           ++ (if JS.truthy (currentTextBuffer (stream v))
               then [currentTextBuffer (stream v)] else [])
       ∧ ∀ t, t ∈ collectedTexts (stream out.1) →
              textPayload t ∈ default [] (payloads out.2))
  ∧ (∀ v event,
       JS.trim (dataBuffer v) ≠ [] →
       parse (JS.trim (dataBuffer v)) = Some event →
       Pty.processLine parse (JS.trim (dataBuffer v)) (stream v)
       = Pty.handleEvent event (stream v))
  ∧ (∀ (readline : jsstring → list jsstring) stdoutText stderrText code now p
       before rest,
       readline stdoutText = before ++ [rest] →
       let earlier := foldl (λ s line, Pipe.onLine parse line s)
                        (Stream.init (p_sessionId p)) before in
       let last := Pipe.onLine parse rest earlier in
       let out := PipeRun.run parse readline stdoutText stderrText code now p in
       (∀ event, JS.trim rest ≠ [] → parse rest = Some event →
                 last = Pipe.handleEvent event earlier)
       ∧ stream out.1 = Stream.flush last
       ∧ collectedTexts (stream out.1)
         = collectedTexts last
           ++ (if JS.truthy (currentTextBuffer last) then [currentTextBuffer last] else [])
       ∧ Stream.collectsMore earlier (stream out.1)
       ∧ ∀ t, t ∈ collectedTexts (stream out.1) →
              textPayload t ∈ default [] (payloads out.2))
  ∧ (∀ (readline : jsstring → list jsstring) stdoutText stderrText code now p events,
       Forall2 (λ line event, JS.trim line ≠ [] ∧ parse line = Some event)
         (readline stdoutText) events →
       let out := PipeRun.run parse readline stdoutText stderrText code now p in
       stream out.1
       = Stream.flush (Pipe.handleEvents events (Stream.init (p_sessionId p)))
       ∧ ∀ t, t ∈ collectedTexts
                    (Stream.flush (Pipe.handleEvents events (Stream.init (p_sessionId p)))) →
              textPayload t ∈ default [] (payloads out.2)).
Proof.
  assert (∀ code now v,
       let out := Pipe.onClose code now v in
       stream out.1 = Stream.flush (stream v)
       ∧ ∀ t, t ∈ collectedTexts (stream out.1) →
              textPayload t ∈ default [] (payloads out.2)) as Hclose.
  { intros code now v out.
    assert (stream out.1 = Stream.flush (stream v)) as E1.
    { subst out. unfold Pipe.onClose. by destruct (_ && _ && _). }
    split; [exact E1|]. rewrite E1.
    intros t Hin. subst out. unfold Pipe.onClose.
    destruct (_ && _ && _); cbn [snd payloads Stream.mkResult stream set_stream].
    + cbn [default]. apply elem_of_app. left. by apply payloadsOf_covers.
    + by apply payloadsOf_covers. }
  assert (∀ (readline : jsstring → list jsstring) stdoutText stderrText code now p,
       stream (PipeRun.run parse readline stdoutText stderrText code now p).1
       = Stream.flush (foldl (λ s line, Pipe.onLine parse line s)
                         (Stream.init (p_sessionId p)) (readline stdoutText))) as Hrun.
  { intros readline stdoutText stderrText code now p. unfold PipeRun.run. cbn zeta.
    destruct (Hclose code now
                (Pipe.onStderr stderrText
                   (foldl (λ v line, set_stream (Pipe.onLine parse line) v)
                      (Stream.initRun p) (readline stdoutText)))) as [-> _].
    cbn [Pipe.onStderr stream set_stderrBuffer]. f_equal.
    generalize (readline stdoutText). intros lines.
    change (Stream.init (p_sessionId p)) with (stream (Stream.initRun p)).
    generalize (Stream.initRun p).
    induction lines as [|l lines IH]; intros v; [done|]. cbn [foldl]. by rewrite IH. }
  split; [|split; [|split; [|split; [|split]]]].
  - intros data v. unfold Pty.onData. apply drainLines_done. lia.
  - intros exitCode now v last out.
    assert (out.1 = Pty.drainAtExit parse v) as E1.
    { subst out. unfold Pty.onExit. by destruct (_ && _ && _). }
    rewrite E1, drainAtExit_stream. subst last.
    split; [apply flush_collected|]. split.
    + eapply collectsMore_trans; [apply pty_line_collectsMore|apply flush_collectsMore].
    + intros t Hin. subst out. unfold Pty.onExit.
      rewrite <- (drainAtExit_stream parse v) in Hin.
      destruct (negb (exitCode =? 0) && negb (aborted (handle (Pty.drainAtExit parse v))))
        eqn:Hc; cbn [andb].
      * destruct (collectedTexts (stream (Pty.drainAtExit parse v))) as [|t0 ts] eqn:Hts;
          [by apply elem_of_nil in Hin|].
        cbn [length Nat.eqb snd payloads Stream.mkResult]. rewrite ?Hts.
        by apply payloadsOf_covers.
      * cbn [snd payloads Stream.mkResult]. by apply payloadsOf_covers.
  - intros code now v out. destruct (Hclose code now v) as [E1 Hp].
    fold out in E1, Hp. split; [|exact Hp]. rewrite E1. apply flush_collected.
  - intros v event Ht Hp. unfold Pty.processLine. rewrite Hp, trim_trimmed.
    destruct (JS.trim (dataBuffer v)); [done|]. done.
  - intros readline stdoutText stderrText code now p before rest Hr earlier last out.
    assert (stream out.1 = Stream.flush last) as E.
    { subst out. rewrite Hrun, Hr, foldl_app. done. }
    split; [|split; [exact E|split; [|split]]].
    + intros event Ht Hp. subst last. unfold Pipe.onLine. rewrite Hp.
      destruct (JS.trim rest); [done|]. done.
    + rewrite E. apply flush_collected.
    + rewrite E. eapply collectsMore_trans;
        [apply pipe_line_collectsMore|apply flush_collectsMore].
    + subst out. unfold PipeRun.run. cbn zeta. apply Hclose.
  - intros readline stdoutText stderrText code now p events Hev out.
    assert (stream out.1
            = Stream.flush (Pipe.handleEvents events (Stream.init (p_sessionId p)))) as E.
    { subst out. rewrite Hrun. f_equal. unfold Pipe.handleEvents.
      generalize (Stream.init (p_sessionId p)).
      induction Hev as [|l e lines events [Ht Hp] _ IH]; intros s; [done|].
      cbn [foldl]. rewrite <- IH. f_equal. unfold Pipe.onLine. rewrite Hp.
      destruct (JS.trim l); [done|]. done. }
    split; [exact E|]. rewrite <- E. subst out. unfold PipeRun.run. cbn zeta.
    apply Hclose.
Qed.

Lemma exit_flushes_buffers_witness :
  let v := foldl (λ v d, Pty.onData Sample.parse d v) (Stream.initRun Sample.params)
             [Sample.deltaLine "Hello" ++ [10%N]; Sample.deltaLine " world"] in
  let out := Pty.onExit Sample.parse 0 2000 v in
  let piped := PipeRun.run Sample.parse SampleReadline.readline
                 (Sample.deltaLine "Hello" ++ [10%N] ++ Sample.deltaLine " world")
                 [] (Some 0) 2000 Sample.params in
  dataBuffer v = Sample.deltaLine " world"
  ∧ collectedTexts (stream v) = []
  ∧ collectedTexts (stream out.1) = [JS.lit "Hello world"]
  ∧ textPayload (JS.lit "Hello world") ∈ default [] (payloads out.2)
  ∧ collectedTexts (stream piped.1) = [JS.lit "Hello world"]
  ∧ textPayload (JS.lit "Hello world") ∈ default [] (payloads piped.2).
Proof.
  intros v out piped.
  destruct (exit_flushes_buffers Sample.parse) as (_ & H & _ & _ & Hpipe & _).
  destruct (H 0 2000 v) as (E & _ & P). fold out in E, P.
  assert (collectedTexts (stream out.1) = [JS.lit "Hello world"]) as Hc
    by (rewrite E; by vm_compute).
  destruct (Hpipe SampleReadline.readline
              (Sample.deltaLine "Hello" ++ [10%N] ++ Sample.deltaLine " world")
              [] (Some 0) 2000 Sample.params
              [Sample.deltaLine "Hello"] (Sample.deltaLine " world"))
    as (Hlast & _ & E' & _ & P'); [by vm_compute|]. fold piped in E', P'.
  assert (collectedTexts (stream piped.1) = [JS.lit "Hello world"]) as Hc'.
  { rewrite E'.
    rewrite (Hlast (Sample.textDelta " world")) by (by vm_compute).
    by vm_compute. }
  split; [by vm_compute|]. split; [by vm_compute|]. split; [exact Hc|].
  split; [apply P; rewrite Hc; apply list_elem_of_here|].
  split; [exact Hc'|]. apply P'. rewrite Hc'. apply list_elem_of_here.
Defined.

End ExitFlush.


(** ** Backend resolution *)

Section Resolution.
Import Backends.

Variable normalizeProviderId : jsstring → jsstring.

Lemma resolve_via_merged provider cfg :
  let normalized := normalizeProviderId provider in
  let override :=
    pickBackendConfig normalizeProviderId (default [] (cfg ≫= cliBackends)) normalized in
  resolveCliBackendConfig normalizeProviderId provider cfg =
    match mergedFor normalized override with
    | None => None
    | Some merged =>
        match usableCommand merged with
        | None => None
        | Some cmd => Some {| id := normalized; config := withCommand cmd merged |}
        end
    end.
Proof.
  intros normalized override. unfold resolveCliBackendConfig, mergedFor, normalizeBackendKey.
  fold normalized. fold override.
  destruct (bool_decide (normalized = L "claude-cli")); [done|].
  destruct (bool_decide (normalized = L "codex-cli")); [done|].
  by destruct override.
Qed.

Lemma usableCommand_Some c cmd :
  usableCommand c = Some cmd → cmd ≠ [] ∧ ∃ raw, command c = Some raw ∧ cmd = JS.trim raw.
Proof.
  unfold usableCommand. destruct (command c) as [raw|]; cbn; [|done].
  destruct (JS.truthy (JS.trim raw)) eqn:Ht; [|done].
  intros [= <-]. split; [by apply truthy_nonempty|]. by exists raw.
Qed.

Lemma usableCommand_None c :
  usableCommand c = None ↔
  command c = None ∨ ∃ raw, command c = Some raw ∧ JS.trim raw = [].
Proof.
  unfold usableCommand. destruct (command c) as [raw|]; cbn.
  - destruct (JS.trim raw) eqn:Ht; cbn.
    + split; [|done]. intros _. right. by exists raw.
    + split; [done|]. intros [?|(raw' & [= <-] & H)]; [done|].
      rewrite Ht in H. discriminate H.
  - split; [by left|done].
Qed.

(** C6. Resolution of a provider whose normalised id is [claude-cli] or
    [codex-cli], without an override in the configuration, yields the
    built-in descriptor under that id, its command [claude] or [codex].
    An id that is neither built in nor overridden does not resolve.
    Whenever the command of the merged descriptor is absent, empty or
    white space, resolution fails; and every descriptor that resolution
    yields has a non-empty, trimmed command. *)
Theorem resolution_requires_command (provider : jsstring) (cfg : option OpenClawConfig) :
  let normalized := normalizeProviderId provider in
  let override :=
    pickBackendConfig normalizeProviderId (default [] (cfg ≫= cliBackends)) normalized in
  let resolved := resolveCliBackendConfig normalizeProviderId provider cfg in
  (override = None → normalized = L "claude-cli" →
     resolved = Some {| id := L "claude-cli"; config := DEFAULT_CLAUDE_BACKEND |}
     ∧ command DEFAULT_CLAUDE_BACKEND = Some (L "claude"))
  ∧ (override = None → normalized = L "codex-cli" →
     resolved = Some {| id := L "codex-cli"; config := DEFAULT_CODEX_BACKEND |}
     ∧ command DEFAULT_CODEX_BACKEND = Some (L "codex"))
  ∧ (override = None → normalized ≠ L "claude-cli" → normalized ≠ L "codex-cli" →
     resolved = None)
  ∧ (∀ merged, mergedFor normalized override = Some merged →
     (command merged = None ∨ ∃ raw, command merged = Some raw ∧ JS.trim raw = []) →
     resolved = None)
  ∧ (∀ r, resolved = Some r →
     id r = normalized
     ∧ ∃ cmd, command (config r) = Some cmd ∧ cmd ≠ []).
Proof.
  intros normalized override resolved.
  assert (resolved = match mergedFor normalized override with
                     | None => None
                     | Some merged =>
                         match usableCommand merged with
                         | None => None
                         | Some cmd =>
                             Some {| id := normalized; config := withCommand cmd merged |}
                         end
                     end) as E by apply resolve_via_merged.
  split; [|split; [|split; [|split]]].
  - intros Ho Hn. rewrite E, Ho, Hn. by vm_compute.
  - intros Ho Hn. rewrite E, Ho, Hn. by vm_compute.
  - intros Ho H1 H2. rewrite E, Ho. unfold mergedFor.
    by rewrite !bool_decide_eq_false_2.
  - intros merged Hm Hc. rewrite E, Hm.
    by rewrite (proj2 (usableCommand_None merged) Hc).
  - intros r. rewrite E. destruct (mergedFor normalized override) as [merged|]; [|done].
    destruct (usableCommand merged) as [cmd|] eqn:Hu; [|done].
    intros [= <-]. split; [done|]. exists cmd. split; [done|].
    by apply usableCommand_Some in Hu as [? _].
Qed.

End Resolution.

Lemma resolution_requires_command_witness :
  let N := Sample.normalizeProviderId in
  let blank :=
    Some {| cliBackends := Some [(JS.lit "codex-cli",
              Backends.withCommand (JS.lit "   ") Backends.emptyOverride)] |} in
  Backends.resolveCliBackendConfig N (JS.lit " claude-cli ") None
    = Some {| id := JS.lit "claude-cli"; config := Backends.DEFAULT_CLAUDE_BACKEND |}
  ∧ Backends.resolveCliBackendConfig N (JS.lit "codex-cli") None
    = Some {| id := JS.lit "codex-cli"; config := Backends.DEFAULT_CODEX_BACKEND |}
  ∧ Backends.resolveCliBackendConfig N (JS.lit "gemini-cli") None = None
  ∧ Backends.resolveCliBackendConfig N (JS.lit "codex-cli") blank = None.
Proof.
  intros N blank.
  destruct (resolution_requires_command N (JS.lit " claude-cli ") None) as (H1 & _).
  destruct (resolution_requires_command N (JS.lit "codex-cli") None) as (_ & H2 & _).
  destruct (resolution_requires_command N (JS.lit "gemini-cli") None) as (_ & _ & H3 & _).
  destruct (resolution_requires_command N (JS.lit "codex-cli") blank) as (_ & _ & _ & H4 & _).
  split; [apply H1; by vm_compute|].
  split; [apply H2; by vm_compute|].
  split; [apply H3; by vm_compute|].
  eapply H4; [by vm_compute|]. right. exists (JS.lit "   "). split; by vm_compute.
Defined.

(** ** Failure of the child process *)

Section Failover.

Variable normalizeProviderId : jsstring → jsstring.
Variable classifyFailoverReason : jsstring → option jsstring.
Variable resolveFailoverStatus : jsstring → option Z.
Variable isFailoverErrorMessage : jsstring → bool.
Variable resolveSessionIdToSend :
  CliBackendConfig → option jsstring → option jsstring * bool.
Variable parseCliJsonl parseCliJson : jsstring → CliBackendConfig → option CliOutput.

Let failover := CliRunner.failover classifyFailoverReason resolveFailoverStatus.
Let runTask :=
  CliRunner.runTask classifyFailoverReason resolveFailoverStatus parseCliJsonl parseCliJson.
Let runCliAgent :=
  CliRunner.runCliAgent normalizeProviderId classifyFailoverReason resolveFailoverStatus
    isFailoverErrorMessage resolveSessionIdToSend parseCliJsonl parseCliJson.

Lemma runTask_nonzero backend useResume provider modelId child result :
  default false (streaming backend) = false →
  executed child = Returned result → code result ≠ Some 0 →
  runTask backend useResume provider modelId child
    = Threw (failover (CliRunner.failureText result) provider modelId).
Proof.
  intros Hs He Hc. unfold runTask, CliRunner.runTask. rewrite Hs, He.
  by rewrite bool_decide_eq_false_2.
Qed.

Lemma rethrow_failover err provider modelId provider' modelId' :
  CliRunner.rethrow classifyFailoverReason resolveFailoverStatus isFailoverErrorMessage
    (failover err provider modelId) provider' modelId'
  = failover err provider modelId.
Proof. done. Qed.

(** C7 as stated fails for the legacy runner of [pi-cli-runner/run.ts]: a
    process that exits with code 1, not killed, makes it return a result
    whose payload is the error text; nothing is raised. *)
Lemma legacy_runner_returns_counterexample :
  let result := {| code := Some 1; stdout := [];
                   stderr := JS.lit "401 unauthorized"; killed := false |} in
  Exec.runCliAgent Sample.params 2000 (Returned result)
    = Returned {| payloads := Some [errorPayload (JS.lit "401 unauthorized")];
                  durationMs := 1000;
                  result_aborted := Some false;
                  agentMeta := {| meta_sessionId := JS.lit "s1";
                                  meta_provider := JS.lit "anthropic";
                                  meta_model := JS.lit "claude-sonnet-4-5";
                                  meta_usage := None |} |}
  ∧ ¬ (∃ e, Exec.runCliAgent Sample.params 2000 (Returned result) = Threw e).
Proof.
  intros result. split; [by vm_compute|]. intros [e H]. vm_compute in H. discriminate H.
Qed.

(** C7 (amended). In [cli-runner.ts] a collecting (non-streaming) run
    whose process exits with a code other than 0 raises a failover error
    that carries the error text [stderr || stdout || "CLI failed."], the
    reason the classifier gives for that text, [unknown] when it gives
    none, the provider, the model and the status mapped from the reason;
    nothing is returned.  A streaming run whose helper rejects raises the
    same kind of error from the rejection's message.  The legacy runner of
    [pi-cli-runner/run.ts] raises nothing for a non-zero exit: it returns a
    result whose only payload is the error text, flagged as an error. *)
Theorem nonzero_exit_raises_failover :
  (∀ err provider modelId,
     (classifyFailoverReason err = None →
        failover err provider modelId
        = FailoverError err (JS.lit "unknown") provider modelId
            (resolveFailoverStatus (JS.lit "unknown")))
     ∧ (∀ reason, classifyFailoverReason err = Some reason →
        failover err provider modelId
        = FailoverError err reason provider modelId (resolveFailoverStatus reason)))
  ∧ (∀ p now child backendResolved result,
       Backends.resolveCliBackendConfig normalizeProviderId (cp_provider p) (cp_config p)
         = Some backendResolved →
       default false (streaming (config backendResolved)) = false →
       executed child = Returned result → code result ≠ Some 0 →
       runCliAgent p now child
       = Threw (failover (CliRunner.failureText result) (cp_provider p)
                  (JS.or_else (JS.trim (default (JS.lit "default") (cp_model p)))
                              (JS.lit "default"))))
  ∧ (∀ backend useResume provider modelId child e,
       default false (streaming backend) = true → streamed child = Threw e →
       runTask backend useResume provider modelId child
       = Threw (failover (thrownMessage e) provider modelId))
  ∧ (∀ p now result, code result ≠ Some 0 →
       ∃ res, Exec.runCliAgent p now (Returned result) = Returned res
         ∧ payloads res
           = Some [errorPayload
                     (JS.or_else (JS.trim (stderr result))
                        (JS.or_else (JS.trim (stdout result))
                           (JS.lit "CLI exited with code "
                            ++ Stream.showCode (code result))))]
         ∧ result_aborted res = Some (killed result)).
Proof.
  split; [|split; [|split]].
  - intros err provider modelId. unfold failover, CliRunner.failover. split.
    + by intros ->.
    + by intros reason ->.
  - intros p now child backendResolved result Hr Hs He Hc.
    unfold runCliAgent, CliRunner.runCliAgent. rewrite Hr.
    destruct (resolveSessionIdToSend _ _) as [cliSessionIdToSend isNew].
    fold runTask.
    rewrite runTask_nonzero with (result := result) by done.
    by rewrite rethrow_failover.
  - intros backend useResume provider modelId child e Hs He.
    unfold runTask, CliRunner.runTask. by rewrite Hs, He.
  - intros p now result Hc. unfold Exec.runCliAgent.
    rewrite bool_decide_eq_false_2 by done. cbn [negb]. by eexists.
Qed.

End Failover.

Lemma nonzero_exit_raises_failover_witness :
  let run := CliRunner.runCliAgent Sample.normalizeProviderId
               Sample.classifyFailoverReason Sample.resolveFailoverStatus
               Sample.isFailoverErrorMessage Sample.resolveSessionIdToSend
               Sample.parseNothing Sample.parseNothing in
  let collecting :=
    Some {| cliBackends := Some [(JS.lit "codex-cli",
              Backends.withStreaming false Backends.emptyOverride)] |} in
  let p := {| cp_sessionId := JS.lit "s1"; cp_config := collecting;
              cp_provider := JS.lit "codex-cli"; cp_model := Some (JS.lit "o3");
              cp_cliSessionId := None; cp_started := 1000 |} in
  let failed text :=
    {| streamed := Threw (PlainError (JS.lit "unused"));
       executed := Returned {| code := Some 1; stdout := []; stderr := text;
                               killed := false |} |} in
  run p 2000 (failed (JS.lit "401 unauthorized"))
    = Threw (FailoverError (JS.lit "401 unauthorized") (JS.lit "auth")
               (JS.lit "codex-cli") (JS.lit "o3") (Some 401))
  ∧ run p 2000 (failed (JS.lit "segmentation fault"))
    = Threw (FailoverError (JS.lit "segmentation fault") (JS.lit "unknown")
               (JS.lit "codex-cli") (JS.lit "o3") None).
Proof.
  intros run collecting p failed.
  destruct (nonzero_exit_raises_failover Sample.normalizeProviderId
              Sample.classifyFailoverReason Sample.resolveFailoverStatus
              Sample.isFailoverErrorMessage Sample.resolveSessionIdToSend
              Sample.parseNothing Sample.parseNothing) as (_ & H & _).
  destruct (Backends.resolveCliBackendConfig Sample.normalizeProviderId
              (cp_provider p) (cp_config p)) as [br|] eqn:Hr.
  2: { vm_compute in Hr. discriminate Hr. }
  assert (default false (streaming (config br)) = false) as Hs
    by (vm_compute in Hr; injection Hr as <-; reflexivity).
  unfold run. split.
  - rewrite (H p 2000 (failed (JS.lit "401 unauthorized")) br _ Hr Hs eq_refl);
      [by vm_compute|discriminate].
  - rewrite (H p 2000 (failed (JS.lit "segmentation fault")) br _ Hr Hs eq_refl);
      [by vm_compute|discriminate].
Defined.

(** ** Payloads and empty text *)

Section Payloads.

Variable normalizeProviderId : jsstring → jsstring.
Variable classifyFailoverReason : jsstring → option jsstring.
Variable resolveFailoverStatus : jsstring → option Z.
Variable isFailoverErrorMessage : jsstring → bool.
Variable resolveSessionIdToSend :
  CliBackendConfig → option jsstring → option jsstring * bool.
Variable parseCliJsonl parseCliJson : jsstring → CliBackendConfig → option CliOutput.

Lemma assemblePayloads_cases output :
  (from_option JS.trim [] (out_text output) = [] →
     CliRunner.assemblePayloads output = None)
  ∧ (from_option JS.trim [] (out_text output) ≠ [] →
     CliRunner.assemblePayloads output
       = Some [textPayload (from_option JS.trim [] (out_text output))]).
Proof.
  unfold CliRunner.assemblePayloads. destruct (out_text output) as [t|]; cbn; [|done].
  by destruct (JS.trim t).
Qed.

Lemma literal_prefix_nonempty (l rest : jsstring) : l ≠ [] → l ++ rest ≠ [].
Proof. by destruct l. Qed.

Lemma collected_nonempty_payloads texts :
  Forall (λ t, t ≠ []) texts →
  Stream.payloadsOf texts ≠ Some []
  ∧ ∀ pl, pl ∈ default [] (Stream.payloadsOf texts) → text pl ≠ [].
Proof.
  intros HF. destruct texts as [|t ts]; cbn [Stream.payloadsOf default].
  - split; [done|]. intros pl Hin. by apply elem_of_nil in Hin.
  - split; [done|]. intros pl (t' & -> & Hin)%list_elem_of_fmap_1.
    cbn. by apply (proj1 (Forall_forall _ _) HF).
Qed.

(** C10 as stated fails in the streaming runners, which never trim: a
    block of one space is collected and returned as a payload, although
    the collected text trims to the empty string. *)
Lemma whitespace_payload_counterexample :
  let blank := EvContentBlockDelta
                 (Some {| delta_type := Some (JS.lit "text_delta");
                          delta_text := Some (JS.lit " ") |}) in
  let v := set_stream (Pipe.handleEvents [blank; EvContentBlockStop])
             (Stream.initRun Sample.params) in
  let res := (Pipe.onClose (Some 0) 2000 v).2 in
  collectedTexts (stream v) = [JS.lit " "]
  ∧ JS.trim (concat (collectedTexts (stream v))) = []
  ∧ payloads res = Some [textPayload (JS.lit " ")].
Proof. by vm_compute. Qed.

(** C10 (amended). [cli-runner.ts]: output text that is absent or trims to
    the empty string gives no payload list, any other gives one payload
    with the trimmed text; a run that returns never has a payload with
    empty text.  [pi-cli-runner/run.ts]: the same on exit code 0, for the
    trimmed standard output; on any other exit code the result has one
    error payload whose text is not empty.  Streaming runners: from the
    start of a run, whatever lines or data arrive, the result of the exit
    handler has no payload list when nothing was collected and the exit is
    not reported as an error, and never a payload with empty text; the
    collected texts are not trimmed. *)
Theorem empty_text_yields_no_payload :
  (∀ output,
     (from_option JS.trim [] (out_text output) = [] →
        CliRunner.assemblePayloads output = None)
     ∧ (from_option JS.trim [] (out_text output) ≠ [] →
        CliRunner.assemblePayloads output
          = Some [textPayload (from_option JS.trim [] (out_text output))]))
  ∧ (∀ p now child res,
       CliRunner.runCliAgent normalizeProviderId classifyFailoverReason
         resolveFailoverStatus isFailoverErrorMessage resolveSessionIdToSend
         parseCliJsonl parseCliJson p now child = Returned res →
       payloads res = None ∨ ∃ t, payloads res = Some [textPayload t] ∧ t ≠ [])
  ∧ (∀ p now result, code result = Some 0 →
       ∃ res, Exec.runCliAgent p now (Returned result) = Returned res
         ∧ (JS.trim (stdout result) = [] → payloads res = None)
         ∧ (JS.trim (stdout result) ≠ [] →
            payloads res = Some [textPayload (JS.trim (stdout result))]))
  ∧ (∀ p now result, code result ≠ Some 0 →
       ∃ res t, Exec.runCliAgent p now (Returned result) = Returned res
         ∧ payloads res = Some [errorPayload t] ∧ t ≠ [])
  ∧ (∀ parse lines err code now p,
       let v := set_stderrBuffer err
                  (foldl (λ v l, set_stream (Pipe.onLine parse l) v)
                     (Stream.initRun p) lines) in
       let out := Pipe.onClose code now v in
       payloads out.2 ≠ Some []
       ∧ (∀ pl, pl ∈ default [] (payloads out.2) → text pl ≠ [])
       ∧ (collectedTexts (stream out.1) = [] →
          payloads out.2 = None ∨ ∃ t, payloads out.2 = Some [errorPayload t]))
  ∧ (∀ parse chunks exitCode now p,
       let v := foldl (λ v d, Pty.onData parse d v) (Stream.initRun p) chunks in
       let out := Pty.onExit parse exitCode now v in
       payloads out.2 ≠ Some []
       ∧ (∀ pl, pl ∈ default [] (payloads out.2) → text pl ≠ [])
       ∧ (collectedTexts (stream out.1) = [] →
          payloads out.2 = None ∨ ∃ t, payloads out.2 = Some [errorPayload t])).
Proof.
  split; [apply assemblePayloads_cases|].
  split; [|split; [|split; [|split]]].
  - intros p now child res. unfold CliRunner.runCliAgent.
    destruct (Backends.resolveCliBackendConfig _ _ _) as [b|]; [|done].
    destruct (resolveSessionIdToSend _ _) as [sid isNew].
    destruct (CliRunner.runTask _ _ _ _ _ _ _ _ _) as [output|e]; [|done].
    intros [= <-]. cbn [payloads].
    destruct (assemblePayloads_cases output) as [H0 H1].
    destruct (from_option JS.trim [] (out_text output)) as [|c cs] eqn:Ht.
    + left. by apply H0.
    + right. eexists. split; [by apply H1|done].
  - intros p now result Hc. unfold Exec.runCliAgent.
    rewrite bool_decide_eq_true_2 by done. cbn [negb].
    eexists. split; [done|]. cbn [payloads].
    by destruct (JS.trim (stdout result)).
  - intros p now result Hc. unfold Exec.runCliAgent.
    rewrite bool_decide_eq_false_2 by done. cbn [negb].
    eexists _, _. split; [done|]. split; [done|].
    unfold JS.or_else.
    destruct (JS.truthy (JS.trim (stderr result))) eqn:H1; [by apply truthy_nonempty|].
    destruct (JS.truthy (JS.trim (stdout result))) eqn:H2; [by apply truthy_nonempty|].
    by apply literal_prefix_nonempty.
  - intros parse lines err code now p v out.
    assert (Forall (λ t, t ≠ []) (collectedTexts (Stream.flush (stream v)))) as HF.
    { destruct (collectsMore_trans _ _ _
                  (pipe_lines_collectMore parse lines (Stream.initRun p))
                  (flush_collectsMore _)) as (rest & E & F).
      subst v. cbn [stream set_stderrBuffer]. by rewrite E. }
    destruct (collected_nonempty_payloads _ HF) as [P1 P2].
    subst out. unfold Pipe.onClose.
    destruct (_ && _ && _); cbn [fst snd payloads Stream.mkResult stream set_stream].
    + split; [intros [= H]; by apply app_nil in H as [_ ?]|]. split.
      * intros pl [Hin|Hin%list_elem_of_singleton]%elem_of_app; [by apply P2|].
        subst pl. cbn [text errorPayload]. by apply literal_prefix_nonempty.
      * intros ->. right. by eexists.
    + split; [done|]. split; [done|]. intros ->. by left.
  - intros parse chunks exitCode now p v out.
    assert (Forall (λ t, t ≠ []) (collectedTexts (stream (Pty.drainAtExit parse v)))) as HF.
    { rewrite drainAtExit_stream.
      destruct (collectsMore_trans _ _ _
                  (pty_chunks_collectMore parse chunks (Stream.initRun p))
                  (collectsMore_trans _ _ _
                     (pty_line_collectsMore parse (JS.trim (dataBuffer v)) (stream v))
                     (flush_collectsMore _))) as (rest & E & F).
      fold v in E. by rewrite E. }
    destruct (collected_nonempty_payloads _ HF) as [P1 P2].
    subst out. unfold Pty.onExit.
    destruct (_ && _ && _); cbn [fst snd payloads Stream.mkResult stream set_stream].
    + split; [done|]. split.
      * intros pl Hin%list_elem_of_singleton. subst pl. cbn [text errorPayload].
        by apply literal_prefix_nonempty.
      * intros _. right. by eexists.
    + split; [done|]. split; [done|]. intros ->. by left.
Qed.

End Payloads.

Lemma empty_text_yields_no_payload_witness :
  let run := CliRunner.runCliAgent Sample.normalizeProviderId
               Sample.classifyFailoverReason Sample.resolveFailoverStatus
               Sample.isFailoverErrorMessage Sample.resolveSessionIdToSend
               Sample.parseNothing Sample.parseNothing in
  let collecting :=
    Some {| cliBackends := Some [(JS.lit "codex-cli",
              Backends.withStreaming false Backends.emptyOverride)] |} in
  let p := {| cp_sessionId := JS.lit "s1"; cp_config := collecting;
              cp_provider := JS.lit "codex-cli"; cp_model := Some (JS.lit "o3");
              cp_cliSessionId := None; cp_started := 1000 |} in
  let blank := {| code := Some 0; stdout := JS.lit "  "; stderr := []; killed := false |} in
  let child := {| streamed := Threw (PlainError (JS.lit "unused"));
                  executed := Returned blank |} in
  CliRunner.assemblePayloads
    {| out_text := Some (JS.lit "  "); out_sessionId := None; out_usage := None |} = None
  ∧ (∃ res, run p 2000 child = Returned res ∧ payloads res = None)
  ∧ (∃ res, Exec.runCliAgent Sample.params 2000 (Returned blank) = Returned res
            ∧ payloads res = None).
Proof.
  intros run collecting p blank child.
  destruct (empty_text_yields_no_payload Sample.normalizeProviderId
              Sample.classifyFailoverReason Sample.resolveFailoverStatus
              Sample.isFailoverErrorMessage Sample.resolveSessionIdToSend
              Sample.parseNothing Sample.parseNothing) as (H1 & H2 & H3 & _).
  split; [apply H1; by vm_compute|]. split.
  - unfold run. destruct (CliRunner.runCliAgent _ _ _ _ _ _ _ p 2000 child)
      as [res|e] eqn:Hres; [|vm_compute in Hres; discriminate Hres].
    exists res. split; [reflexivity|].
    destruct (H2 p 2000 child res Hres) as [Hn|(t & Ht & Hne)]; [exact Hn|].
    exfalso. vm_compute in Hres. injection Hres as <-. discriminate Ht.
  - destruct (H3 Sample.params 2000 blank eq_refl) as (res & E & Hn & _).
    exists res. split; [exact E|]. apply Hn. by vm_compute.
Defined.


(** ** The scenarios of the specification, run on the model *)

Section Scenarios.
Import Runs.

(** Scenario A, pseudo-terminal runner: two deltas, a block stop and a
    result event with a session id, arriving in chunks that do not end at
    line ends. *)
Example scenario_A_pty :
  let chunks := [Sample.deltaLine "Hello" ++ [10%N] ++ take 20 (Sample.deltaLine " world");
                 drop 20 (Sample.deltaLine " world") ++ [13%N; 10%N]
                   ++ Sample.stopLine ++ [10%N];
                 Sample.resultLine "Hello world" "abc"] in
  let v := foldl (λ v d, Pty.onData Sample.parse d v)
             (Stream.initRun Sample.params) chunks in
  (Pty.onExit Sample.parse 0 2500 v).2
  = {| payloads := Some [textPayload (JS.lit "Hello world")];
       durationMs := 1500;
       result_aborted := Some false;
       agentMeta := {| meta_sessionId := JS.lit "abc";
                       meta_provider := JS.lit "anthropic";
                       meta_model := JS.lit "claude-sonnet-4-5";
                       meta_usage := None |} |}
  ∧ delivered (stream v)
    = [PartialReply (JS.lit "Hello"); PartialReply (JS.lit " world");
       BlockReply (JS.lit "Hello world")].
Proof. by vm_compute. Qed.

(** Scenario A, pipe runner: the same lines, one [line] event each. *)
Example scenario_A_pipe :
  let lines := [Sample.deltaLine "Hello"; Sample.deltaLine " world";
                Sample.stopLine; Sample.resultLine "Hello world" "abc"] in
  let v := foldl (λ v l, set_stream (Pipe.onLine Sample.parse l) v)
             (Stream.initRun Sample.params) lines in
  payloads (Pipe.onClose (Some 0) 2500 v).2 = Some [textPayload (JS.lit "Hello world")]
  ∧ meta_sessionId (agentMeta (Pipe.onClose (Some 0) 2500 v).2) = JS.lit "abc"
  ∧ result_aborted (Pipe.onClose (Some 0) 2500 v).2 = Some false.
Proof. by vm_compute. Qed.

(** Scenario B: a tool result of 300 characters, then a result event. *)
Example scenario_B :
  let events := [EvToolResult (Some (replicate 300 120%N));
                 EvResult (Some (ResultObject (Some (JS.lit "Done")))) None] in
  Stream.toolTexts (delivered (Pipe.handleEvents events (Stream.init (JS.lit "s1"))))
  = [replicate 200 120%N ++ JS.lit "..."]
  ∧ Stream.toolTexts (delivered (Pty.handleEvents events (Stream.init (JS.lit "s1"))))
  = [replicate 200 120%N ++ JS.lit "..."].
Proof. by vm_compute. Qed.

(** A run from spawn to close on the registry: two callers wait for its
    end, the close handler finalizes the run, both are released with
    [true], and the key is free again. *)
Example run_releases_waiters :
  let s1 := JS.lit "s1" in
  let '(h, r) := Stream.spawnRun Sample.params Runs.empty in
  let '(w1, r) := waitForCliRunEnd s1 None r in
  let '(w2, r) := waitForCliRunEnd s1 (Some 20) r in
  let r := Pipe.lineEvent Sample.parse h (Sample.deltaLine "Hello") r in
  let active := isCliRunActive s1 r in
  let r := Pipe.closeEvent h (Some 0) 2500 r in
  w1 = Pending 2 ∧ w2 = Pending 3 ∧ active = true
  ∧ isCliRunActive s1 r = false
  ∧ settled r !! 2%nat = Some true ∧ settled r !! 3%nat = Some true
  ∧ timers r = ∅
  ∧ (payloads <$> (runs r !! h ≫= λ v, resolved (handle v)))
    = Some (Some [textPayload (JS.lit "Hello")]).
Proof. by vm_compute. Qed.

(** Scenario D on the registry: two aborts in a row, then the close. *)
Example scenario_D :
  let s1 := JS.lit "s1" in
  let '(h, r) := Stream.spawnRun Sample.params Runs.empty in
  let '(a1, r) := abortCliRun s1 r in
  let '(a2, r) := abortCliRun s1 r in
  let r := Pipe.closeEvent h None 2500 r in
  a1 = true ∧ a2 = true
  ∧ (signals <$> (handle <$> runs r !! h)) = Some [JS.lit "SIGTERM"]
  ∧ (result_aborted <$> (runs r !! h ≫= λ v, resolved (handle v))) = Some (Some true).
Proof. by vm_compute. Qed.

End Scenarios.

(** ** One run under every order of abort, timeout and finalize *)

Section HandleHistories.

(** What every history keeps true of the closure variables. *)
Lemma handle_step_signal h op :
  (aborted h = false ∧ signals h = []
   ∨ aborted h = true ∧ isStreaming h = false ∧ signals h = [JS.lit "SIGTERM"]) →
  let h' := HandleOps.step h op in
  aborted h' = false ∧ signals h' = []
  ∨ aborted h' = true ∧ isStreaming h' = false ∧ signals h' = [JS.lit "SIGTERM"].
Proof.
  intros [[Ha Hs]|(Ha & Hi & Hs)]; destruct op; cbn;
    unfold Handle.timeoutFires, Handle.abort; cbn;
    repeat (rewrite ?Ha, ?Hs, ?Hi; cbn);
    try (destruct (timeoutId h); cbn; rewrite ?Ha, ?Hs, ?Hi; cbn);
    try (destruct (isStreaming h); cbn; rewrite ?Ha, ?Hs, ?Hi; cbn);
    auto.
Qed.

Lemma handle_history_signal ops : ∀ h,
  (aborted h = false ∧ signals h = []
   ∨ aborted h = true ∧ isStreaming h = false ∧ signals h = [JS.lit "SIGTERM"]) →
  let h' := foldl HandleOps.step h ops in
  aborted h' = false ∧ signals h' = []
  ∨ aborted h' = true ∧ isStreaming h' = false ∧ signals h' = [JS.lit "SIGTERM"].
Proof.
  induction ops as [|op ops IH]; intros h Hh; [done|].
  cbn [foldl]. apply IH. by apply handle_step_signal.
Qed.

Lemma handle_aborted_kept ops : ∀ h,
  aborted h = true → aborted (foldl HandleOps.step h ops) = true.
Proof.
  induction ops as [|op ops IH]; intros h Hh; [done|].
  cbn [foldl]. apply IH. destruct op; cbn; [| |done].
  - unfold Handle.abort. by rewrite Hh.
  - unfold Handle.timeoutFires, Handle.abort.
    destruct (timeoutId h); cbn; [|done]. rewrite Hh. cbn.
    by destruct (isStreaming h).
Qed.

(** X1. Whatever the order and number of aborts, timer callbacks and
    finalize calls on a run, the child process is sent SIGTERM at most
    once, it is sent exactly when the run counts as aborted, and an aborted
    run is never reported as streaming again. *)
Theorem handle_kills_at_most_once (timeoutMs : Z) (ops : list HandleOp) :
  let h := HandleOps.run timeoutMs ops in
  aborted h = false ∧ signals h = []
  ∨ aborted h = true ∧ isStreaming h = false ∧ signals h = [JS.lit "SIGTERM"].
Proof. apply handle_history_signal. by left. Qed.

Lemma handle_no_timer_step h op :
  op ≠ OpAbort → timeoutId h = None → aborted h = false → signals h = [] →
  let h' := HandleOps.step h op in
  timeoutId h' = None ∧ aborted h' = false ∧ signals h' = [].
Proof.
  intros Hop Ht Ha Hs. destruct op; [done| |]; cbn.
  - unfold Handle.timeoutFires. by rewrite Ht.
  - done.
Qed.

Lemma handle_no_timer_run ops : ∀ h,
  OpAbort ∉ ops → timeoutId h = None → aborted h = false → signals h = [] →
  let h' := foldl HandleOps.step h ops in
  timeoutId h' = None ∧ aborted h' = false ∧ signals h' = [].
Proof.
  induction ops as [|op ops IH]; intros h Hno Ht Ha Hs; [done|].
  cbn [foldl]. apply not_elem_of_cons in Hno as [Hop Hno].
  destruct (handle_no_timer_step h op) as (? & ? & ?); [done..|].
  by apply IH.
Qed.

Lemma handle_quiet_run ops : ∀ h,
  OpAbort ∉ ops → OpTimeout ∉ ops → aborted h = false → signals h = [] →
  let h' := foldl HandleOps.step h ops in
  aborted h' = false ∧ signals h' = [].
Proof.
  induction ops as [|op ops IH]; intros h Hno Hnt Ha Hs; [done|].
  cbn [foldl]. apply not_elem_of_cons in Hno as [Hop Hno].
  apply not_elem_of_cons in Hnt as [Hop' Hnt].
  apply IH; [done..| |]; by destruct op.
Qed.

(** X2. The run's timer kills the child only while the run is streaming:
    with a timeout that is not positive no timer exists, and once
    finalize has run the timer is cleared, so in both cases a history
    without an abort never signals the child; a timer that fires first,
    on a run with a positive timeout, aborts it with one SIGTERM. *)
Theorem timer_kills_only_a_streaming_run (timeoutMs : Z) :
  (∀ ops, timeoutMs ≤ 0 → OpAbort ∉ ops →
     signals (HandleOps.run timeoutMs ops) = []
     ∧ aborted (HandleOps.run timeoutMs ops) = false)
  ∧ (∀ before res after, OpAbort ∉ before ++ after → OpTimeout ∉ before →
     signals (HandleOps.run timeoutMs (before ++ OpFinalize res :: after)) = []
     ∧ aborted (HandleOps.run timeoutMs (before ++ OpFinalize res :: after)) = false)
  ∧ (∀ ops, 0 < timeoutMs →
     signals (HandleOps.run timeoutMs (OpTimeout :: ops)) = [JS.lit "SIGTERM"]
     ∧ aborted (HandleOps.run timeoutMs (OpTimeout :: ops)) = true).
Proof.
  split; [|split].
  - intros ops Hle Hno. unfold HandleOps.run.
    destruct (handle_no_timer_run ops (Handle.init timeoutMs)) as (_ & ? & ?);
      try done.
    cbn. destruct (0 <? timeoutMs) eqn:E; [lia|done].
  - intros before res after Hno Hnt. unfold HandleOps.run.
    rewrite foldl_app. cbn [foldl].
    apply not_elem_of_app in Hno as [Hb Ha].
    destruct (handle_quiet_run before (Handle.init timeoutMs)) as [E1 E2];
      [done..|].
    destruct (handle_no_timer_run after
                (HandleOps.step (foldl HandleOps.step (Handle.init timeoutMs) before)
                   (OpFinalize res))) as (_ & ? & ?); try done.
  - intros ops Hpos.
    assert (aborted (HandleOps.step (Handle.init timeoutMs) OpTimeout) = true) as H0.
    { cbn. unfold Handle.timeoutFires. cbn.
      destruct (0 <? timeoutMs) eqn:E; [done|lia]. }
    pose proof (handle_aborted_kept ops _ H0) as Hab.
    destruct (handle_history_signal (OpTimeout :: ops) (Handle.init timeoutMs))
      as [[H _]|(_ & _ & H)]; [by left| |].
    + cbn [foldl] in H. congruence.
    + done.
Qed.

Lemma timer_kills_only_a_streaming_run_witness :
  signals (HandleOps.run 0 [OpTimeout; OpTimeout]) = []
  ∧ signals (HandleOps.run 30000 [OpTimeout; OpAbort]) = [JS.lit "SIGTERM"].
Proof.
  destruct (timer_kills_only_a_streaming_run 0) as (H1 & _ & _).
  destruct (timer_kills_only_a_streaming_run 30000) as (_ & _ & H3).
  split.
  - apply (H1 [OpTimeout; OpTimeout]); [lia|].
    intros H. by repeat (apply elem_of_cons in H as [H|H]; [done|]);
      apply elem_of_nil in H.
  - apply (H3 [OpAbort]). lia.
Defined.

Lemma handle_resolved_kept ops : ∀ h res,
  resolved h = Some res → resolved (foldl HandleOps.step h ops) = Some res.
Proof.
  induction ops as [|op ops IH]; intros h res Hr; [done|].
  cbn [foldl]. apply IH. destruct op; cbn.
  - unfold Handle.abort. by destruct (negb _).
  - unfold Handle.timeoutFires, Handle.abort.
    destruct (timeoutId h); cbn; [|done].
    destruct (isStreaming h); cbn; [|done]. by destruct (negb _).
  - by rewrite Hr.
Qed.

Lemma handle_unresolved ops : ∀ h,
  (∀ res, OpFinalize res ∉ ops) → resolved h = None →
  resolved (foldl HandleOps.step h ops) = None.
Proof.
  induction ops as [|op ops IH]; intros h Hno Hr; [done|].
  cbn [foldl]. apply IH.
  - intros res Hin. apply (Hno res). by right.
  - destruct op; cbn.
    + unfold Handle.abort. by destruct (negb _).
    + unfold Handle.timeoutFires, Handle.abort.
      destruct (timeoutId h); cbn; [|done].
      destruct (isStreaming h); cbn; [|done]. by destruct (negb _).
    + exfalso. apply (Hno res). by left.
Qed.

(** X3. The promise of a run is settled by the first finalize and by
    nothing else: before it the promise is pending, after it the promise
    holds the first result, whatever aborts, timer callbacks and further
    finalize calls (a close after a spawn error) follow. *)
Theorem first_finalize_settles_the_run (timeoutMs : Z)
    (before after : list HandleOp) (res : RunResult) :
  (∀ res', OpFinalize res' ∉ before) →
  resolved (HandleOps.run timeoutMs before) = None
  ∧ resolved (HandleOps.run timeoutMs (before ++ OpFinalize res :: after)) = Some res
  ∧ isStreaming (HandleOps.run timeoutMs (before ++ OpFinalize res :: after)) = false.
Proof.
  intros Hno. unfold HandleOps.run.
  pose proof (handle_unresolved before (Handle.init timeoutMs) Hno eq_refl) as H0.
  split; [done|]. rewrite foldl_app. cbn [foldl].
  split.
  - apply handle_resolved_kept. cbn. by rewrite H0.
  - generalize (foldl HandleOps.step (Handle.init timeoutMs) before). intros h.
    assert (isStreaming (HandleOps.step h (OpFinalize res)) = false) as H by done.
    revert H. generalize (HandleOps.step h (OpFinalize res)).
    induction after as [|op after IH]; intros g Hg; [done|].
    cbn [foldl]. apply IH. destruct op; cbn; [| |done].
    + unfold Handle.abort. by destruct (negb _).
    + unfold Handle.timeoutFires, Handle.abort.
      destruct (timeoutId g); cbn; [|done]. rewrite Hg. done.
Qed.

Lemma first_finalize_settles_the_run_witness :
  let res := Stream.mkResult None 2000 (Stream.initRun Sample.params) in
  let late := Stream.mkResult (Some []) 3000 (Stream.initRun Sample.params) in
  resolved (HandleOps.run 30000 [OpAbort; OpFinalize res; OpTimeout; OpFinalize late])
  = Some res.
Proof.
  intros res late.
  apply (first_finalize_settles_the_run 30000 [OpAbort] [OpTimeout; OpFinalize late] res).
  intros res' H. apply elem_of_cons in H as [H|H]; [done|]. by apply elem_of_nil in H.
Defined.

End HandleHistories.

(** ** Streams of events: session id, callbacks and collected texts *)

Section StreamEvents.

Lemma pipe_event_sessionId e v :
  resolvedSessionId (Pipe.handleEvent e v)
  = default (resolvedSessionId v) (Events.announcedSessionId e).
Proof.
  destruct e as [subtype sid|message| |delta| | |content|result sid|message|type];
    cbn; try done.
  - unfold Stream.onSystem.
    destruct (bool_decide _ && JS.truthy_opt sid) eqn:E; [|done].
    apply andb_true_iff in E as [_ E]. by destruct sid.
  - destruct message as [m|]; cbn; [|done]. by destruct (_ && _).
  - destruct delta as [d|]; cbn; [|done]. by destruct (_ && _).
  - unfold Stream.onBlockStop. by destruct (JS.truthy _).
  - destruct content as [c|]; cbn; [|done]. by destruct (JS.truthy c).
  - unfold Pipe.onResult.
    destruct (JS.truthy_opt sid) eqn:E; destruct (_ && _); cbn; try done;
      by destruct sid.
Qed.

Lemma pty_blocks_sessionId content : ∀ v,
  resolvedSessionId (foldl Pty.onBlock v content) = resolvedSessionId v.
Proof.
  induction content as [|b content IH]; intros v; [done|].
  cbn [foldl]. rewrite IH. unfold Pty.onBlock. by destruct (_ && _).
Qed.

Lemma pty_event_sessionId e v :
  resolvedSessionId (Pty.handleEvent e v)
  = default (resolvedSessionId v) (Events.announcedSessionId e).
Proof.
  destruct e as [subtype sid|message| |delta| | |content|result sid|message|type];
    cbn; try done.
  - unfold Stream.onSystem.
    destruct (bool_decide _ && JS.truthy_opt sid) eqn:E; [|done].
    apply andb_true_iff in E as [_ E]. by destruct sid.
  - destruct message as [m|]; cbn; [|done].
    destruct (msg_content m); [|done]. apply pty_blocks_sessionId.
  - destruct delta as [d|]; cbn; [|done]. by destruct (_ && _).
  - unfold Stream.onBlockStop. by destruct (JS.truthy _).
  - destruct content as [c|]; cbn; [|done]. by destruct (JS.truthy c).
  - unfold Pty.onResult.
    destruct (JS.truthy_opt sid) eqn:E; destruct (_ && _); cbn;
      try destruct (JS.truthy_opt (Pty.resultText result)); cbn; try done;
      by destruct sid.
Qed.

Lemma last_announced (H : CliStreamEvent → StreamVars → StreamVars) :
  (∀ e v, resolvedSessionId (H e v)
          = default (resolvedSessionId v) (Events.announcedSessionId e)) →
  ∀ events v,
    resolvedSessionId (foldl (λ v e, H e v) v events)
    = default (resolvedSessionId v) (last (omap Events.announcedSessionId events)).
Proof.
  intros HH events. induction events as [|e events IH]; intros v; [done|].
  cbn [foldl]. rewrite IH, HH.
  change (omap Events.announcedSessionId (e :: events))
    with (match Events.announcedSessionId e with
          | Some s => s :: omap Events.announcedSessionId events
          | None => omap Events.announcedSessionId events
          end).
  destruct (Events.announcedSessionId e) as [s|]; cbn [default]; [|done].
  rewrite last_cons. by destruct (last _).
Qed.

Lemma announced_nonempty e s : Events.announcedSessionId e = Some s → s ≠ [].
Proof.
  destruct e as [subtype sid|?| |?| | |?|result sid|?|?]; cbn; try done.
  - destruct (_ && JS.truthy_opt sid) eqn:E; [|done].
    apply andb_true_iff in E as [_ E]. intros ->. by apply truthy_nonempty.
  - destruct (JS.truthy_opt sid) eqn:E; [|done]. intros ->. by apply truthy_nonempty.
Qed.

Lemma last_announced_nonempty events s :
  last (omap Events.announcedSessionId events) = Some s → s ≠ [].
Proof.
  intros Hl. apply last_Some_elem_of in Hl.
  apply list_elem_of_omap in Hl as (e & _ & He). by apply announced_nonempty in He.
Qed.

(** X4. The session id a streaming run reports is the one announced by
    the last event that announces one (a system event of subtype init or
    a result event, with a non-empty session_id), and the id of the request
    when no event does; it is therefore empty only if the request's id is
    empty and nothing was announced.  Both runners, for every stream of
    events and every exit code. *)
Theorem reported_session_is_last_announced (events : list CliStreamEvent)
    (p : RunParams) (parse : jsstring → option CliStreamEvent)
    (code : option Z) (exitCode now : Z) :
  let announced := last (omap Events.announcedSessionId events) in
  let piped := Pipe.onClose code now
                 (set_stream (Pipe.handleEvents events) (Stream.initRun p)) in
  let ptyed := Pty.onExit parse exitCode now
                 (set_stream (Pty.handleEvents events) (Stream.initRun p)) in
  meta_sessionId (agentMeta piped.2) = default (p_sessionId p) announced
  ∧ meta_sessionId (agentMeta ptyed.2) = default (p_sessionId p) announced
  ∧ (meta_sessionId (agentMeta piped.2) = [] → p_sessionId p = [] ∧ announced = None).
Proof.
  intros announced piped ptyed.
  assert (meta_sessionId (agentMeta piped.2) = default (p_sessionId p) announced) as E1.
  { subst piped. unfold Pipe.onClose. cbn.
    assert (∀ v, resolvedSessionId (Stream.flush v) = resolvedSessionId v) as Hf
      by (intros v; unfold Stream.flush; by destruct (JS.truthy _)).
    destruct (_ && _ && _); cbn; rewrite Hf;
      unfold Pipe.handleEvents;
      by rewrite (last_announced Pipe.handleEvent pipe_event_sessionId). }
  split; [exact E1|]. split.
  - subst ptyed. unfold Pty.onExit, Pty.drainAtExit. cbn.
    assert (∀ v, resolvedSessionId (Stream.flush v) = resolvedSessionId v) as Hf
      by (intros v; unfold Stream.flush; by destruct (JS.truthy _)).
    destruct (_ && _ && _); cbn; rewrite Hf;
      unfold Pty.handleEvents;
      by rewrite (last_announced Pty.handleEvent pty_event_sessionId).
  - rewrite E1. subst announced.
    destruct (last _) as [s|] eqn:El; cbn; [|done].
    intros ->. by apply last_announced_nonempty in El.
Qed.


(** Every handler only adds callbacks; [adds P v v'] says which. *)
Lemma shown_partial t : t ≠ [] → Events.shown (PartialReply t).
Proof. by split. Qed.

Lemma shown_summary c : c ≠ [] → Events.shown (ToolResult (Stream.summary c)).
Proof.
  intros Hc. unfold Stream.summary, JS.slice_to.
  destruct (200 <? length c)%nat eqn:E.
  - apply Nat.ltb_lt in E. split.
    + cbn. intros H. apply app_eq_nil in H as [_ H]. by vm_compute in H.
    + intros t [= <-]. rewrite length_app, length_take.
      change (length (JS.lit "...")) with 3%nat. lia.
  - apply Nat.ltb_ge in E. split; [done|]. intros t [= <-]. lia.
Qed.

Lemma appendText_shown t v :
  t ≠ [] → Forall Events.shown (delivered v) →
  Forall Events.shown (delivered (Stream.appendText t v)).
Proof.
  intros Ht Hv. cbn. apply Forall_app. split; [done|].
  apply Forall_singleton. by apply shown_partial.
Qed.

Lemma shared_event_shown e v :
  Events.sameInBothRunners e = true →
  Forall Events.shown (delivered v) →
  Forall Events.shown (delivered (Pipe.handleEvent e v)).
Proof.
  intros He Hv.
  destruct e as [subtype sid|?| |delta| | |content|?|message|?]; cbn; try done.
  - unfold Stream.onSystem. by destruct (_ && _).
  - destruct delta as [d|]; cbn; [|done].
    destruct (_ && JS.truthy_opt _) eqn:E; [|done].
    apply andb_true_iff in E as [_ E].
    apply appendText_shown; [|done]. by apply truthy_opt_nonempty.
  - unfold Stream.onBlockStop. destruct (JS.truthy _) eqn:E; [|done].
    cbn. apply Forall_app. split; [done|]. apply Forall_singleton.
    split; [by apply truthy_nonempty|done].
  - destruct content as [c|]; cbn; [|done].
    destruct (JS.truthy c) eqn:E; [|done].
    cbn. apply Forall_app. split; [done|]. apply Forall_singleton.
    apply shown_summary. by apply truthy_nonempty.
Qed.

Lemma shared_event_same e v :
  Events.sameInBothRunners e = true → Pty.handleEvent e v = Pipe.handleEvent e v.
Proof. by destruct e. Qed.

Lemma pipe_event_shown e v :
  Forall Events.shown (delivered v) →
  Forall Events.shown (delivered (Pipe.handleEvent e v)).
Proof.
  intros Hv. destruct (Events.sameInBothRunners e) eqn:He;
    [by apply shared_event_shown|].
  destruct e as [?|message| |?| | |?|result sid|?|?]; try done; cbn.
  - destruct message as [m|]; cbn; [|done].
    destruct (_ && JS.truthy_opt _) eqn:E; [|done].
    apply andb_true_iff in E as [_ E].
    apply appendText_shown; [|done]. by apply truthy_opt_nonempty.
  - unfold Pipe.onResult. destruct (JS.truthy_opt sid); by destruct (_ && _).
Qed.

Lemma pty_blocks_shown content : ∀ v,
  Forall Events.shown (delivered v) →
  Forall Events.shown (delivered (foldl Pty.onBlock v content)).
Proof.
  induction content as [|b content IH]; intros v Hv; [done|].
  cbn [foldl]. apply IH. unfold Pty.onBlock.
  destruct (_ && JS.truthy_opt _) eqn:E; [|done].
  apply andb_true_iff in E as [_ E].
  apply appendText_shown; [|done]. by apply truthy_opt_nonempty.
Qed.

Lemma pty_event_shown e v :
  Forall Events.shown (delivered v) →
  Forall Events.shown (delivered (Pty.handleEvent e v)).
Proof.
  intros Hv. destruct (Events.sameInBothRunners e) eqn:He.
  { rewrite shared_event_same by done. by apply shared_event_shown. }
  destruct e as [?|message| |?| | |?|result sid|?|?]; try done; cbn.
  - destruct message as [m|]; cbn; [|done].
    destruct (msg_content m); [|done]. by apply pty_blocks_shown.
  - unfold Pty.onResult. destruct (JS.truthy_opt sid); destruct (_ && _); try done;
      by destruct (JS.truthy_opt _).
Qed.

Lemma events_keep (P : StreamVars → Prop)
    (H : CliStreamEvent → StreamVars → StreamVars) :
  (∀ e v, P v → P (H e v)) →
  ∀ events v, P v → P (foldl (λ v e, H e v) v events).
Proof.
  intros HH events. induction events as [|e events IH]; intros v Hv; [done|].
  cbn [foldl]. apply IH. by apply HH.
Qed.

(** X5. No callback of a streaming run carries an empty text, and a
    tool-result callback never carries more than 203 code units: for every
    stream of events, in both runners, every partial reply, block reply and
    tool result delivered satisfies it. *)
Theorem callbacks_are_never_empty (events : list CliStreamEvent)
    (sessionId : jsstring) :
  Forall Events.shown (delivered (Pipe.handleEvents events (Stream.init sessionId)))
  ∧ Forall Events.shown (delivered (Pty.handleEvents events (Stream.init sessionId))).
Proof.
  split.
  - apply (events_keep (λ v, Forall Events.shown (delivered v)) Pipe.handleEvent);
      [apply pipe_event_shown|done].
  - apply (events_keep (λ v, Forall Events.shown (delivered v)) Pty.handleEvent);
      [apply pty_event_shown|done].
Qed.

Lemma blockTexts_app a b :
  Stream.blockTexts (a ++ b) = Stream.blockTexts a ++ Stream.blockTexts b.
Proof. unfold Stream.blockTexts. by rewrite omap_app. Qed.

Lemma quiet_pipe_event e v :
  Events.collectsDirectly e = false →
  collectedTexts v = Stream.blockTexts (delivered v) →
  collectedTexts (Pipe.handleEvent e v)
  = Stream.blockTexts (delivered (Pipe.handleEvent e v)).
Proof.
  intros He Hv.
  assert (e = EvContentBlockStop ∨ e ≠ EvContentBlockStop) as [->|Hne]
    by (destruct e; (by left) || (by right)).
  - cbn. rewrite onBlockStop_fires. destruct (JS.truthy _); [|done].
    cbn. by rewrite blockTexts_app, Hv.
  - destruct (pipe_event_extends e v Hne) as (new & Hd & Hb & _).
    rewrite Hd, blockTexts_app, Hb, app_nil_r, <- Hv.
    destruct e as [subtype sid|message| |delta| | |content|?|?|?]; try done; cbn.
    + apply onSystem_collected.
    + destruct message as [m|]; cbn; [|done]. by destruct (_ && _).
    + apply onDelta_collected.
    + apply onToolResult_collected.
Qed.

Lemma quiet_pty_event e v :
  Events.collectsDirectly e = false →
  collectedTexts v = Stream.blockTexts (delivered v) →
  collectedTexts (Pty.handleEvent e v)
  = Stream.blockTexts (delivered (Pty.handleEvent e v)).
Proof.
  intros He Hv.
  assert (e = EvContentBlockStop ∨ e ≠ EvContentBlockStop) as [->|Hne]
    by (destruct e; (by left) || (by right)).
  - cbn. rewrite onBlockStop_fires. destruct (JS.truthy _); [|done].
    cbn. by rewrite blockTexts_app, Hv.
  - destruct (pty_event_extends e v Hne) as (new & Hd & Hb & _).
    rewrite Hd, blockTexts_app, Hb, app_nil_r, <- Hv.
    destruct e as [subtype sid|message| |delta| | |content|?|?|?]; try done; cbn.
    + apply onSystem_collected.
    + destruct message as [m|]; cbn; [|done].
      destruct (msg_content m); [|done]. apply pty_blocks_collected.
    + apply onDelta_collected.
    + apply onToolResult_collected.
Qed.

Lemma quiet_events (H : CliStreamEvent → StreamVars → StreamVars) :
  (∀ e v, Events.collectsDirectly e = false →
          collectedTexts v = Stream.blockTexts (delivered v) →
          collectedTexts (H e v) = Stream.blockTexts (delivered (H e v))) →
  ∀ events v,
    Forall (λ e, Events.collectsDirectly e = false) events →
    collectedTexts v = Stream.blockTexts (delivered v) →
    let v' := foldl (λ v e, H e v) v events in
    collectedTexts v' = Stream.blockTexts (delivered v').
Proof.
  intros HH events. induction events as [|e events IH]; intros v He Hv; [done|].
  cbn [foldl]. apply Forall_cons in He as [He Hes]. apply IH; [done|].
  by apply HH.
Qed.

(** X6. While a stream holds no result and no error event, the texts a
    runner has collected for the final payloads are exactly the texts of
    the block replies it has delivered, in the same order; at a clean exit
    the payloads are these block replies followed by the text still open,
    if any.  Both runners. *)
Theorem payloads_are_the_block_replies (events : list CliStreamEvent)
    (p : RunParams) (parse : jsstring → option CliStreamEvent) (now : Z) :
  Forall (λ e, Events.collectsDirectly e = false) events →
  let piped := Pipe.handleEvents events (Stream.init (p_sessionId p)) in
  let ptyed := Pty.handleEvents events (Stream.init (p_sessionId p)) in
  let rest (v : StreamVars) :=
    if JS.truthy (currentTextBuffer v) then [currentTextBuffer v] else [] in
  collectedTexts piped = Stream.blockTexts (delivered piped)
  ∧ collectedTexts ptyed = Stream.blockTexts (delivered ptyed)
  ∧ payloads (Pipe.onClose (Some 0) now
                (set_stream (Pipe.handleEvents events) (Stream.initRun p))).2
    = Stream.payloadsOf (Stream.blockTexts (delivered piped) ++ rest piped)
  ∧ payloads (Pty.onExit parse 0 now
                (set_stream (Pty.handleEvents events) (Stream.initRun p))).2
    = Stream.payloadsOf (Stream.blockTexts (delivered ptyed) ++ rest ptyed).
Proof.
  intros Hq piped ptyed rest.
  assert (collectedTexts piped = Stream.blockTexts (delivered piped)) as E1
    by (apply (quiet_events Pipe.handleEvent quiet_pipe_event); done).
  assert (collectedTexts ptyed = Stream.blockTexts (delivered ptyed)) as E2
    by (apply (quiet_events Pty.handleEvent quiet_pty_event); done).
  split; [exact E1|]. split; [exact E2|]. split.
  - unfold Pipe.onClose. cbn. rewrite flush_collected. fold piped. by rewrite E1.
  - unfold Pty.onExit, Pty.drainAtExit. cbn. rewrite flush_collected.
    fold ptyed. by rewrite E2.
Qed.

Lemma payloads_are_the_block_replies_witness :
  let events := [Sample.textDelta "Hello"; EvContentBlockStop;
                 EvToolResult (Some (JS.lit "ok")); Sample.textDelta " world"] in
  payloads (Pipe.onClose (Some 0) 2000
              (set_stream (Pipe.handleEvents events) (Stream.initRun Sample.params))).2
  = Some [textPayload (JS.lit "Hello"); textPayload (JS.lit " world")].
Proof.
  intros events.
  destruct (payloads_are_the_block_replies events Sample.params Sample.parse 2000)
    as (_ & _ & H & _).
  - repeat constructor.
  - rewrite H. by vm_compute.
Defined.

Lemma collectsMore_elem v v' t :
  Stream.collectsMore v v' → t ∈ collectedTexts v → t ∈ collectedTexts v'.
Proof. intros (rest & -> & _) Ht. apply elem_of_app. by left. Qed.

Lemma events_collectMore (H : CliStreamEvent → StreamVars → StreamVars) :
  (∀ e v, Stream.collectsMore v (H e v)) →
  ∀ events v, Stream.collectsMore v (foldl (λ v e, H e v) v events).
Proof.
  intros HH events. induction events as [|e events IH]; intros v.
  - apply collectsMore_refl.
  - cbn [foldl]. eapply collectsMore_trans; [apply HH|apply IH].
Qed.

Lemma error_event_collected (H : CliStreamEvent → StreamVars → StreamVars) :
  (∀ e v, Stream.collectsMore v (H e v)) →
  (∀ message v, H (EvError message) v = Stream.onError message v) →
  ∀ events v message, EvError message ∈ events →
    (JS.lit "Error: " ++ message) ∈ collectedTexts (foldl (λ v e, H e v) v events).
Proof.
  intros HH He events v message Hin.
  apply list_elem_of_split in Hin as (before & after & ->).
  rewrite foldl_app. cbn [foldl].
  eapply collectsMore_elem; [by apply events_collectMore|].
  rewrite He. cbn. apply elem_of_app. right. by apply list_elem_of_singleton.
Qed.

(** X7. An error event of the stream is never lost: for every stream
    that holds an error event with message m, the result of the run lists
    the text "Error: m" among its payloads, not marked as an error payload,
    whatever the exit code, the error output and the events that follow.
    Both runners. *)
Theorem error_events_reach_the_result (events : list CliStreamEvent)
    (message : jsstring) (p : RunParams) (parse : jsstring → option CliStreamEvent)
    (code : option Z) (exitCode now : Z) (err : jsstring) :
  EvError message ∈ events →
  textPayload (JS.lit "Error: " ++ message)
    ∈ default [] (payloads (Pipe.onClose code now
                    (set_stderrBuffer err
                       (set_stream (Pipe.handleEvents events) (Stream.initRun p)))).2)
  ∧ textPayload (JS.lit "Error: " ++ message)
    ∈ default [] (payloads (Pty.onExit parse exitCode now
                    (set_stream (Pty.handleEvents events) (Stream.initRun p))).2).
Proof.
  intros Hin. split.
  - pose proof (error_event_collected Pipe.handleEvent pipe_event_collectsMore
                  (λ _ _, eq_refl) events (Stream.init (p_sessionId p)) message Hin) as Hc.
    unfold Pipe.onClose. cbn.
    set (v := Pipe.handleEvents events (Stream.init (p_sessionId p))) in *.
    assert ((JS.lit "Error: " ++ message) ∈ collectedTexts (Stream.flush v)) as Hf
      by (eapply collectsMore_elem; [apply flush_collectsMore|done]).
    apply payloadsOf_covers in Hf.
    destruct (_ && _ && _); cbn; [|done]. apply elem_of_app. by left.
  - pose proof (error_event_collected Pty.handleEvent pty_event_collectsMore
                  (λ _ _, eq_refl) events (Stream.init (p_sessionId p)) message Hin) as Hc.
    unfold Pty.onExit, Pty.drainAtExit. cbn.
    set (v := Pty.handleEvents events (Stream.init (p_sessionId p))) in *.
    assert ((JS.lit "Error: " ++ message) ∈ collectedTexts (Stream.flush v)) as Hf
      by (eapply collectsMore_elem; [apply flush_collectsMore|done]).
    assert (Nat.eqb (length (collectedTexts (Stream.flush v))) 0 = false) as ->.
    { destruct (collectedTexts (Stream.flush v)); [|done]. by apply elem_of_nil in Hf. }
    rewrite andb_false_r. cbn. by apply payloadsOf_covers.
Qed.

Lemma error_events_reach_the_result_witness :
  let events := [Sample.textDelta "Hello"; EvError (JS.lit "overloaded");
                 EvContentBlockStop] in
  textPayload (JS.lit "Error: overloaded")
    ∈ default [] (payloads (Pipe.onClose (Some 1) 2000
                    (set_stderrBuffer (JS.lit "boom")
                       (set_stream (Pipe.handleEvents events)
                          (Stream.initRun Sample.params)))).2).
Proof.
  intros events.
  apply (error_events_reach_the_result events (JS.lit "overloaded") Sample.params
           Sample.parse (Some 1) 1 2000 (JS.lit "boom")).
  apply elem_of_cons. right. apply elem_of_cons. by left.
Defined.

End StreamEvents.

Lemma reported_session_is_last_announced_witness :
  let events := [EvSystem (Some (JS.lit "init")) (Some (JS.lit "abc"));
                 Sample.textDelta "Hello";
                 EvResult None (Some (JS.lit "xyz")); EvResult None (Some [])] in
  meta_sessionId (agentMeta (Pipe.onClose (Some 0) 2000
                    (set_stream (Pipe.handleEvents events)
                       (Stream.initRun Sample.params))).2)
  = JS.lit "xyz".
Proof.
  intros events.
  destruct (reported_session_is_last_announced events Sample.params Sample.parse
              (Some 0) 0 2000) as (H & _ & _).
  rewrite H. by vm_compute.
Defined.
(** ** The pseudo-terminal runner: chunks and lines *)

Section Chunking.

Variable parse : jsstring → option CliStreamEvent.

Lemma indexOf_app_l c s t i :
  JS.indexOf c s = Some i → JS.indexOf c (s ++ t) = Some i.
Proof.
  revert i. induction s as [|d s IH]; intros i; cbn; [done|].
  destruct (d =? c)%N; [done|].
  destruct (JS.indexOf c s) as [j|]; cbn; [|done].
  intros [= <-]. by rewrite (IH j eq_refl).
Qed.

Lemma indexOf_first c s t : c ∉ s → JS.indexOf c (s ++ c :: t) = Some (length s).
Proof.
  induction s as [|d s IH]; intros Hc; cbn.
  - by rewrite N.eqb_refl.
  - apply not_elem_of_cons in Hc as [Hd Hc].
    destruct (d =? c)%N eqn:E; [apply N.eqb_eq in E; congruence|].
    by rewrite IH.
Qed.

Lemma indexOf_None c s : c ∉ s → JS.indexOf c s = None.
Proof.
  induction s as [|d s IH]; intros Hc; cbn; [done|].
  apply not_elem_of_cons in Hc as [Hd Hc].
  destruct (d =? c)%N eqn:E; [apply N.eqb_eq in E; congruence|].
  by rewrite IH.
Qed.

Lemma drainLines_fuel fuel : ∀ fuel' v,
  (length (dataBuffer v) < fuel)%nat → (length (dataBuffer v) < fuel')%nat →
  Pty.drainLines parse fuel v = Pty.drainLines parse fuel' v.
Proof.
  induction fuel as [|fuel IH]; intros [|fuel'] v H1 H2; try lia.
  cbn [Pty.drainLines].
  destruct (JS.indexOf 10 (dataBuffer v)) as [i|] eqn:E; [|done].
  apply indexOf_lt in E.
  apply IH; cbn; unfold JS.slice_from; rewrite length_drop; lia.
Qed.

Lemma drainLines_step fuel v i :
  JS.indexOf 10 (dataBuffer v) = Some i →
  Pty.drainLines parse (S fuel) v
  = Pty.drainLines parse fuel
      (set_stream
         (Pty.processLine parse (JS.stripTrailingCR (JS.slice_to i (dataBuffer v))))
         (set_dataBuffer (JS.slice_from (S i) (dataBuffer v)) v)).
Proof. intros E. cbn [Pty.drainLines]. by rewrite E. Qed.

Lemma drainLines_stop fuel v :
  JS.indexOf 10 (dataBuffer v) = None → Pty.drainLines parse fuel v = v.
Proof. intros E. destruct fuel; [done|]. cbn [Pty.drainLines]. by rewrite E. Qed.

Lemma drain_append fuel : ∀ v b,
  (length (dataBuffer v) < fuel)%nat →
  let v' := Pty.drainLines parse fuel v in
  Pty.drainLines parse (S (length (dataBuffer v' ++ b)))
    (set_dataBuffer (dataBuffer v' ++ b) v')
  = Pty.drainLines parse (S (length (dataBuffer v ++ b)))
      (set_dataBuffer (dataBuffer v ++ b) v).
Proof.
  induction fuel as [|fuel IH]; intros v b Hlen; [lia|].
  cbn zeta.
  destruct (JS.indexOf 10 (dataBuffer v)) as [i|] eqn:E;
    [|by rewrite (drainLines_stop (S fuel) v E)].
  pose proof (indexOf_lt _ _ _ E) as Hi.
  rewrite (drainLines_step fuel v i E).
  set (line := JS.stripTrailingCR (JS.slice_to i (dataBuffer v))).
  set (v1 := set_stream (Pty.processLine parse line)
               (set_dataBuffer (JS.slice_from (S i) (dataBuffer v)) v)).
  assert (length (dataBuffer v1) < fuel)%nat as H1.
  { subst v1. cbn. unfold JS.slice_from. rewrite length_drop. lia. }
  specialize (IH v1 b H1). cbn zeta in IH. rewrite IH.
  symmetry.
  rewrite (drainLines_step _ _ i)
    by (cbn; by apply indexOf_app_l).
  change (dataBuffer (set_dataBuffer (dataBuffer v ++ b) v)) with (dataBuffer v ++ b).
  unfold JS.slice_to, JS.slice_from.
  rewrite take_app_le by lia.
  rewrite drop_app_le by lia.
  fold (JS.slice_to i (dataBuffer v)). fold line.
  change (set_stream (Pty.processLine parse line)
            (set_dataBuffer (drop (S i) (dataBuffer v) ++ b)
               (set_dataBuffer (dataBuffer v ++ b) v)))
    with (set_dataBuffer (dataBuffer v1 ++ b) v1).
  apply drainLines_fuel.
  - cbn. unfold JS.slice_from. rewrite !length_app, length_drop. lia.
  - cbn. lia.
Qed.

Lemma onData_onData a b v :
  Pty.onData parse b (Pty.onData parse a v) = Pty.onData parse (a ++ b) v.
Proof.
  unfold Pty.onData. cbn zeta.
  change (dataBuffer (set_dataBuffer (dataBuffer v ++ a) v)) with (dataBuffer v ++ a).
  set (v0 := set_dataBuffer (dataBuffer v ++ a) v).
  change (dataBuffer v ++ a) with (dataBuffer v0).
  set (v' := Pty.drainLines parse (S (length (dataBuffer v0))) v0).
  change (dataBuffer (set_dataBuffer (dataBuffer v' ++ b) v')) with (dataBuffer v' ++ b).
  subst v'. rewrite (drain_append (S (length (dataBuffer v0))) v0 b) by lia.
  subst v0. cbn. by rewrite <- !app_assoc.
Qed.

Lemma onData_chunks chunks : ∀ a v,
  foldl (λ v d, Pty.onData parse d v) (Pty.onData parse a v) chunks
  = Pty.onData parse (a ++ concat chunks) v.
Proof.
  induction chunks as [|b chunks IH]; intros a v; cbn [foldl concat].
  - by rewrite app_nil_r.
  - by rewrite onData_onData, IH, app_assoc.
Qed.

(** X8. What the pseudo-terminal runner does with its input does not
    depend on where the chunks end: handling a chunk and then another is
    handling their concatenation at once, so any way of cutting the same
    text into chunks leaves the same closure variables (callbacks
    delivered, texts collected, session id, rest of the buffer). *)
Theorem chunk_boundaries_do_not_matter :
  (∀ a b v, Pty.onData parse b (Pty.onData parse a v) = Pty.onData parse (a ++ b) v)
  ∧ (∀ a chunks v,
       foldl (λ v d, Pty.onData parse d v) v (a :: chunks)
       = Pty.onData parse (concat (a :: chunks)) v)
  ∧ (∀ a chunks b chunks' v, concat (a :: chunks) = concat (b :: chunks') →
       foldl (λ v d, Pty.onData parse d v) v (a :: chunks)
       = foldl (λ v d, Pty.onData parse d v) v (b :: chunks')).
Proof.
  split; [apply onData_onData|]. split.
  - intros a chunks v. cbn [foldl concat]. apply onData_chunks.
  - intros a chunks b chunks' v Heq. cbn [foldl]. rewrite !onData_chunks.
    cbn [concat] in Heq. by rewrite Heq.
Qed.

Lemma set_dataBuffer_same v : set_dataBuffer (dataBuffer v) v = v.
Proof. by destruct v. Qed.

Lemma drain_full_line l rest v :
  10%N ∉ l →
  Pty.drainLines parse (S (length ((l ++ [10%N]) ++ rest)))
    (set_dataBuffer ((l ++ [10%N]) ++ rest) v)
  = Pty.drainLines parse (S (length rest))
      (set_dataBuffer rest
         (set_stream (Pty.processLine parse (JS.stripTrailingCR l)) v)).
Proof.
  intros Hl.
  rewrite (drainLines_step _ _ (length l))
    by (cbn; rewrite <- app_assoc; by apply indexOf_first).
  change (dataBuffer (set_dataBuffer ((l ++ [10%N]) ++ rest) v))
    with ((l ++ [10%N]) ++ rest).
  rewrite <- app_assoc. cbn [app].
  unfold JS.slice_to, JS.slice_from.
  rewrite take_app_length.
  replace (drop (S (length l)) (l ++ 10%N :: rest)) with rest.
  2:{ change (l ++ 10%N :: rest) with (l ++ [10%N] ++ rest).
      rewrite app_assoc. rewrite drop_app_length'; [done|].
      rewrite length_app. cbn. lia. }
  apply drainLines_fuel; cbn; rewrite ?length_app; cbn; lia.
Qed.

Lemma drain_terminated lines : ∀ v,
  Forall (λ l, 10%N ∉ l) lines →
  Pty.drainLines parse (S (length (Events.terminated lines)))
    (set_dataBuffer (Events.terminated lines) v)
  = set_dataBuffer []
      (set_stream
         (λ s, foldl (λ s l, Pty.processLine parse (JS.stripTrailingCR l) s) s lines)
         v).
Proof.
  induction lines as [|l lines IH]; intros v Hl; [done|].
  apply Forall_cons in Hl as [Hl Hls].
  change (Events.terminated (l :: lines))
    with ((l ++ [10%N]) ++ Events.terminated lines).
  by rewrite drain_full_line, IH.
Qed.

Lemma terminated_nil lines : Events.terminated lines = [] → lines = [].
Proof. destruct lines as [|[|c l] lines]; done. Qed.

Lemma line_same l s :
  (∀ e, parse l = Some e → Events.sameInBothRunners e = true) →
  Pty.processLine parse l s = Pipe.onLine parse l s.
Proof.
  intros He. unfold Pty.processLine, Pipe.onLine.
  destruct (negb _); [done|]. destruct (parse l) as [e|]; [|done].
  apply shared_event_same. by apply He.
Qed.

Lemma stream_of_lines (f : jsstring → StreamVars → StreamVars) lines : ∀ v,
  stream (foldl (λ v l, set_stream (f l) v) v lines)
  = foldl (λ s l, f l s) (stream v) lines.
Proof. induction lines as [|l lines IH]; intros v; [done|]. cbn [foldl]. by rewrite IH. Qed.

(** X9. The pseudo-terminal runner, fed complete lines in chunks cut
    anywhere, does what the pipe runner does fed the same lines one by one:
    its buffer ends empty, every line was handled once, in order, and as
    long as no line is an assistant or a result event (the two cases the
    runners write differently) the callbacks delivered, the texts collected
    and the session id are those of the pipe runner. *)
Theorem pty_chunks_are_pipe_lines (lines chunks : list jsstring) (p : RunParams) :
  Forall (λ l, 10%N ∉ l) lines →
  concat chunks = Events.terminated lines →
  let v := foldl (λ v d, Pty.onData parse d v) (Stream.initRun p) chunks in
  dataBuffer v = []
  ∧ stream v
    = foldl (λ s l, Pty.processLine parse (JS.stripTrailingCR l) s)
        (Stream.init (p_sessionId p)) lines
  ∧ (Forall (λ l, ∀ e, parse (JS.stripTrailingCR l) = Some e →
                       Events.sameInBothRunners e = true) lines →
     stream v
     = stream (foldl (λ v l, set_stream (Pipe.onLine parse (JS.stripTrailingCR l)) v)
                 (Stream.initRun p) lines)).
Proof.
  intros Hl Hc v.
  assert (v = set_dataBuffer []
                (set_stream
                   (λ s, foldl (λ s l, Pty.processLine parse (JS.stripTrailingCR l) s)
                           s lines)
                   (Stream.initRun p))) as Hv.
  { subst v. destruct chunks as [|a chunks].
    - cbn in Hc. symmetry in Hc. apply terminated_nil in Hc as ->. done.
    - cbn [foldl]. rewrite onData_chunks.
      change (a ++ concat chunks) with (concat (a :: chunks)). rewrite Hc.
      unfold Pty.onData. cbn zeta.
      change (dataBuffer (Stream.initRun p) ++ Events.terminated lines)
        with (Events.terminated lines).
      change (dataBuffer (set_dataBuffer (Events.terminated lines) (Stream.initRun p)))
        with (Events.terminated lines).
      by apply drain_terminated. }
  split; [by rewrite Hv|]. split; [by rewrite Hv|].
  intros Hs. rewrite Hv, stream_of_lines. cbn.
  clear Hv v Hc Hl. generalize (Stream.init (p_sessionId p)).
  induction lines as [|l lines IH]; intros s; [done|].
  apply Forall_cons in Hs as [Hs Hss]. cbn [foldl].
  rewrite line_same by done. by apply IH.
Qed.

End Chunking.

Lemma chunk_boundaries_do_not_matter_witness :
  let line := Sample.deltaLine "Hello" ++ [10%N] in
  foldl (λ v d, Pty.onData Sample.parse d v) (Stream.initRun Sample.params)
    [take 7 line; drop 7 line]
  = foldl (λ v d, Pty.onData Sample.parse d v) (Stream.initRun Sample.params) [line].
Proof.
  intros line.
  destruct (chunk_boundaries_do_not_matter Sample.parse) as (_ & _ & H).
  apply H. by vm_compute.
Defined.

Lemma pty_chunks_are_pipe_lines_witness :
  let lines := [Sample.deltaLine "Hello"; Sample.deltaLine " world" ++ [13%N];
                Sample.stopLine] in
  let text := Events.terminated lines in
  let v := foldl (λ v d, Pty.onData Sample.parse d v) (Stream.initRun Sample.params)
             [take 30 text; take 50 (drop 30 text); drop 80 text] in
  dataBuffer v = []
  ∧ delivered (stream v)
    = [PartialReply (JS.lit "Hello"); PartialReply (JS.lit " world");
       BlockReply (JS.lit "Hello world")].
Proof.
  intros lines text v.
  destruct (pty_chunks_are_pipe_lines Sample.parse lines
              [take 30 text; take 50 (drop 30 text); drop 80 text] Sample.params)
    as (H1 & H2 & H3).
  - apply (bool_decide_unpack _). by vm_compute.
  - by vm_compute.
  - split; [exact H1|]. subst v. rewrite H3.
    + by vm_compute.
    + repeat constructor; intros e He; vm_compute in He; by injection He as <-.
Defined.
(** ** How a streaming run ends *)

Section Exits.

Lemma payloadsOf_default texts :
  default [] (Stream.payloadsOf texts) = map textPayload texts.
Proof. by destruct texts. Qed.






Lemma settle_settled res res' h :
  Handle.settle res' (Handle.settle res h) = Handle.settle res h.
Proof. unfold Handle.settle. cbn. by destruct (resolved h). Qed.

Lemma set_runs_same h v r :
  runs r !! h = Some v → Runs.set_runs (<[h := v]>) r = r.
Proof.
  intros Hv. destruct r. unfold Runs.set_runs. cbn in *. f_equal.
  by apply insert_id.
Qed.

(** X12. Finalizing a run a second time changes nothing: the promise
    keeps the first result, the registry is not cleared again, no second
    completion is logged and no waiter is released twice.  This is what
    happens when a child that failed to spawn emits both its error and its
    close event. *)
Theorem finalize_twice_is_finalize_once (h : nat) (res res' : RunResult)
    (r : Registry) :
  Stream.finalize h res' (Stream.finalize h res r) = Stream.finalize h res r.
Proof.
  unfold Stream.finalize at 2 3.
  destruct (runs r !! h) as [v|] eqn:Hv.
  2:{ unfold Stream.finalize. by rewrite Hv. }
  set (v1 := set_handle (Handle.settle res) v).
  set (r0 := Runs.set_runs (<[h := v1]>) r).
  set (sid := p_sessionId (params v)).
  set (r1 := Runs.clearActiveCliRun sid h r0).
  assert (runs r1 !! h = Some v1) as Hv1.
  { subst r1. rewrite clear_runs. subst r0. cbn. by rewrite lookup_insert_eq. }
  unfold Stream.finalize. rewrite Hv1.
  assert (set_handle (Handle.settle res') v1 = v1) as ->.
  { subst v1. unfold set_handle. cbn. by rewrite settle_settled. }
  rewrite (set_runs_same h v1 r1 Hv1).
  change (p_sessionId (params v1)) with sid.
  apply clear_mismatch.
  destruct (decide (ACTIVE_CLI_RUNS r0 !! sid = Some h)) as [Ha|Ha].
  - subst r1. rewrite (clear_active sid h r0 Ha). by rewrite lookup_delete_eq.
  - subst r1. by rewrite (clear_mismatch sid h r0 Ha).
Qed.

End Exits.
(** ** The registry over every history: waiters and the state log *)

Section RegistryHistories.
Import Runs Trace.

Lemma notify_timers_sub sessionId r w t :
  timers (notifyCliRunEnded sessionId r) !! w = Some t → timers r !! w = Some t.
Proof.
  rewrite notify_unfold.
  destruct (CLI_RUN_WAITERS r !! sessionId) as [s|]; [|done].
  destruct (default [] (waiterSets r !! s)) as [|w0 ws0] eqn:Ews; [done|].
  rewrite (release_all_timers (w0 :: ws0)). by case_bool_decide.
Qed.

Lemma clear_timers_sub sessionId h r w t :
  timers (clearActiveCliRun sessionId h r) !! w = Some t → timers r !! w = Some t.
Proof.
  unfold clearActiveCliRun. case_bool_decide; [|done].
  intros Hw. by apply notify_timers_sub in Hw.
Qed.

Lemma waitTimeout_fields w r :
  ACTIVE_CLI_RUNS (waitTimeoutFires w r) = ACTIVE_CLI_RUNS r
  ∧ stateLog (waitTimeoutFires w r) = stateLog r
  ∧ ∀ v t, timers (waitTimeoutFires w r) !! v = Some t → timers r !! v = Some t.
Proof.
  unfold waitTimeoutFires. destruct (timers r !! w) as [t0|] eqn:E; [|done].
  destruct (resolveWaiter_other w false
              (dropWaiter (t_sessionId t0) (t_waiters t0) w (set_timers (delete w) r)))
    as (Ha & _ & _ & Ht & _ & _ & Hl).
  destruct (dropWaiter_fields (t_sessionId t0) (t_waiters t0) w
              (set_timers (delete w) r)) as (Ha' & _ & Ht' & _ & _ & _ & Hl' & _).
  rewrite Ha, Ha', Hl, Hl', Ht, Ht'. cbn. split; [done|]. split; [done|].
  intros v t Hv. apply lookup_delete_Some in Hv as [_ Hv]. done.
Qed.

Lemma wait_fields sessionId timeoutMs r :
  let r' := (waitForCliRunEnd sessionId timeoutMs r).2 in
  ACTIVE_CLI_RUNS r' = ACTIVE_CLI_RUNS r
  ∧ stateLog r' = stateLog r
  ∧ ∀ v t, timers r' !! v = Some t →
           timers r !! v = Some t
           ∨ t_sessionId t = sessionId ∧ is_Some (ACTIVE_CLI_RUNS r !! sessionId).
Proof.
  cbn zeta.
  destruct (decide (sessionId = [])) as [He|He].
  { rewrite wait_immediate by by left. cbn. by eauto. }
  destruct (ACTIVE_CLI_RUNS r !! sessionId) as [h|] eqn:Ea.
  2:{ rewrite wait_immediate by by right. cbn. by eauto. }
  destruct (wait_pending_fields sessionId timeoutMs r He)
    as (r' & -> & Ha & _ & _ & Ht & _ & _ & _ & Hl); [by rewrite Ea|].
  cbn [snd]. rewrite Ha, Hl, Ht. split; [done|]. split; [done|].
  intros v t Hv. apply lookup_insert_Some in Hv as [[_ <-]|[_ Hv]]; [|by left].
  right. by cbn.
Qed.

(** What a step does to the map of active runs and to the state log:
    nothing, a registration, or the removal of a registered key. *)
Lemma step_active_log r e :
  (ACTIVE_CLI_RUNS (step r e) = ACTIVE_CLI_RUNS r ∧ stateLog (step r e) = stateLog r)
  ∨ (∃ sessionId h,
       ACTIVE_CLI_RUNS (step r e) = <[sessionId := h]> (ACTIVE_CLI_RUNS r)
       ∧ stateLog (step r e)
         = stateLog r
           ++ [{| sc_sessionId := sessionId; sc_state := processing;
                  sc_reason := if has_active sessionId r
                               then cli_run_replaced else cli_run_started |}])
  ∨ (∃ sessionId,
       is_Some (ACTIVE_CLI_RUNS r !! sessionId)
       ∧ ACTIVE_CLI_RUNS (step r e) = delete sessionId (ACTIVE_CLI_RUNS r)
       ∧ stateLog (step r e)
         = stateLog r
           ++ [{| sc_sessionId := sessionId; sc_state := idle;
                  sc_reason := cli_run_completed |}]).
Proof.
  assert (∀ sessionId h r0,
            ACTIVE_CLI_RUNS r0 = ACTIVE_CLI_RUNS r → stateLog r0 = stateLog r →
            (ACTIVE_CLI_RUNS (clearActiveCliRun sessionId h r0) = ACTIVE_CLI_RUNS r
             ∧ stateLog (clearActiveCliRun sessionId h r0) = stateLog r)
            ∨ (is_Some (ACTIVE_CLI_RUNS r !! sessionId)
               ∧ ACTIVE_CLI_RUNS (clearActiveCliRun sessionId h r0)
                 = delete sessionId (ACTIVE_CLI_RUNS r)
               ∧ stateLog (clearActiveCliRun sessionId h r0)
                 = stateLog r
                   ++ [{| sc_sessionId := sessionId; sc_state := idle;
                          sc_reason := cli_run_completed |}])) as Hclear.
  { intros sessionId h r0 Ha Hl.
    destruct (decide (ACTIVE_CLI_RUNS r0 !! sessionId = Some h)) as [E|E].
    - right. rewrite (clear_fields sessionId h r0 E).
      destruct (notify_other sessionId
                  (logSessionStateChange
                     {| sc_sessionId := sessionId; sc_state := idle;
                        sc_reason := cli_run_completed |}
                     (set_active (delete sessionId) r0))) as (H1 & _ & _ & _ & H2).
      rewrite H1, H2. cbn. rewrite Ha, Hl. rewrite Ha in E. by rewrite E.
    - left. by rewrite (clear_mismatch sessionId h r0 E). }
  destruct e as [p|sessionId h|sessionId h|sessionId timeoutMs|w|sessionId|h f|h res];
    cbn [step].
  - right. left. exists (p_sessionId p), (nextRef r). done.
  - right. left. exists sessionId, h. done.
  - destruct (Hclear sessionId h r eq_refl eq_refl) as [?|?]; [by left|].
    right. right. by exists sessionId.
  - left. by destruct (wait_fields sessionId timeoutMs r) as (? & ? & _).
  - left. by destruct (waitTimeout_fields w r) as (? & ? & _).
  - left. unfold abortCliRun. by destruct (ACTIVE_CLI_RUNS r !! sessionId).
  - left. done.
  - unfold Stream.finalize. destruct (runs r !! h) as [v|]; [|by left].
    destruct (Hclear (p_sessionId (params v)) h
                (set_runs (<[h := set_handle (Handle.settle res) v]>) r)
                eq_refl eq_refl) as [?|?]; [by left|].
    right. right. by exists (p_sessionId (params v)).
Qed.

Lemma step_timers r e w t :
  Inv r → timers (step r e) !! w = Some t →
  (timers r !! w = Some t
   ∧ (ACTIVE_CLI_RUNS (step r e) !! t_sessionId t = ACTIVE_CLI_RUNS r !! t_sessionId t
      ∨ is_Some (ACTIVE_CLI_RUNS (step r e) !! t_sessionId t)))
  ∨ is_Some (ACTIVE_CLI_RUNS (step r e) !! t_sessionId t).
Proof.
  intros HI.
  assert (∀ sessionId h r0,
            Inv r0 → ACTIVE_CLI_RUNS r0 = ACTIVE_CLI_RUNS r → timers r0 = timers r →
            timers (clearActiveCliRun sessionId h r0) !! w = Some t →
            timers r !! w = Some t
            ∧ ACTIVE_CLI_RUNS (clearActiveCliRun sessionId h r0) !! t_sessionId t
              = ACTIVE_CLI_RUNS r !! t_sessionId t) as Hclear.
  { intros sessionId h r0 HI0 Ha Ht Hw.
    pose proof (clear_timers_sub _ _ _ _ _ Hw) as Hw0.
    split; [by rewrite <- Ht|].
    destruct (decide (ACTIVE_CLI_RUNS r0 !! sessionId = Some h)) as [E|E].
    - rewrite (clear_active sessionId h r0 E), Ha.
      destruct (decide (t_sessionId t = sessionId)) as [Hs|Hs].
      + exfalso.
        destruct (clear_releases sessionId h r0 w HI0 E) as [_ Hn];
          [by exists t|congruence].
      + by rewrite lookup_delete_ne.
    - by rewrite (clear_mismatch sessionId h r0 E), Ha. }
  destruct e as [p|sessionId h|sessionId h|sessionId timeoutMs|v|sessionId|h f|h res];
    cbn [step].
  - intros Hw. left. split; [exact Hw|].
    change (ACTIVE_CLI_RUNS (Stream.spawnRun p r).2)
      with (<[p_sessionId p := nextRef r]> (ACTIVE_CLI_RUNS r)).
    destruct (decide (p_sessionId p = t_sessionId t)) as [<-|Hne].
    + right. by rewrite lookup_insert_eq.
    + left. by rewrite lookup_insert_ne.
  - intros Hw. left. split; [exact Hw|].
    change (ACTIVE_CLI_RUNS (setActiveCliRun sessionId h r))
      with (<[sessionId := h]> (ACTIVE_CLI_RUNS r)).
    destruct (decide (sessionId = t_sessionId t)) as [<-|Hne].
    + right. by rewrite lookup_insert_eq.
    + left. by rewrite lookup_insert_ne.
  - intros Hw. left. destruct (Hclear sessionId h r HI eq_refl eq_refl Hw). eauto.
  - intros Hw. destruct (wait_fields sessionId timeoutMs r) as (Ha & _ & Ht).
    destruct (Ht w t Hw) as [?|[<- ?]].
    + left. split; [done|]. left. by rewrite Ha.
    + right. by rewrite Ha.
  - intros Hw. destruct (waitTimeout_fields v r) as (Ha & _ & Ht).
    left. split; [by apply Ht|]. left. by rewrite Ha.
  - intros Hw. left. unfold abortCliRun in *.
    destruct (ACTIVE_CLI_RUNS r !! sessionId); eauto.
  - intros Hw. left. eauto.
  - unfold Stream.finalize. destruct (runs r !! h) as [v|]; [|by eauto].
    intros Hw. left.
    destruct (Hclear (p_sessionId (params v)) h
                (set_runs (<[h := set_handle (Handle.settle res) v]>) r))
      as [? ?]; try done; [|by eauto].
    by apply (Inv_frame r).
Qed.

Lemma run_snoc evs e : run (evs ++ [e]) = step (run evs) e.
Proof. unfold run. by rewrite foldl_app. Qed.

(** X13. Nobody waits for a run that is not there: in every history of
    the registry, each waiter whose timer is still pending waits on a
    session that has a registered run.  Clearing a run therefore leaves no
    waiter of its session behind, and a waiter can only be left to its
    timeout while its run stays registered. *)
Theorem pending_waiters_have_a_run (evs : list Event) (w : nat) (t : WaitTimer) :
  timers (run evs) !! w = Some t →
  isCliRunActive (t_sessionId t) (run evs) = true.
Proof.
  unfold isCliRunActive, has_active. rewrite bool_decide_eq_true.
  revert w t. induction evs as [|e evs IH] using rev_ind; intros w t Hw; [done|].
  rewrite run_snoc in *.
  destruct (step_timers (run evs) e w t (Inv_run evs) Hw) as [[Hw0 [Ha|Ha]]|Ha];
    [|done|done].
  rewrite Ha. by apply (IH w t).
Qed.

Lemma pending_waiters_have_a_run_witness :
  let s1 := JS.lit "s1" in
  let evs := [ESpawn Sample.params; EWait s1 None; EAbort s1] in
  isCliRunActive s1 (run evs) = true.
Proof.
  intros s1 evs.
  apply (pending_waiters_have_a_run evs 2
           {| t_sessionId := s1; t_waiters := 1; t_delay := 15000 |}).
  by vm_compute.
Defined.

Lemma count_snoc sessionId reason log c :
  StateLog.count sessionId reason (log ++ [c])
  = (StateLog.count sessionId reason log
     + if bool_decide (sc_sessionId c = sessionId ∧ sc_reason c = reason)
       then 1 else 0)%nat.
Proof.
  unfold StateLog.count. rewrite filter_app, length_app. f_equal.
  rewrite filter_cons, filter_nil.
  destruct (decide _) as [H|H];
    [by rewrite bool_decide_eq_true_2|by rewrite bool_decide_eq_false_2].
Qed.

(** X14. The session state log is balanced: in every history of the
    registry and for every session, the number of logged starts
    (processing, cli_run_started) is the number of logged completions
    (idle, cli_run_completed), plus one exactly while a run is registered
    for the session.  A replaced registration is logged as such and leaves
    the balance alone; a clear that does not match logs nothing. *)
Theorem state_log_is_balanced (evs : list Event) (sessionId : jsstring) :
  StateLog.count sessionId cli_run_started (stateLog (run evs))
  = (StateLog.count sessionId cli_run_completed (stateLog (run evs))
     + if isCliRunActive sessionId (run evs) then 1 else 0)%nat.
Proof.
  unfold isCliRunActive.
  induction evs as [|e evs IH] using rev_ind; [done|].
  rewrite run_snoc.
  destruct (step_active_log (run evs) e)
    as [[Ha Hl]|[(sid & h & Ha & Hl)|(sid & Hs & Ha & Hl)]].
  - unfold has_active in *. by rewrite Ha, Hl.
  - assert (has_active sessionId (step (run evs) e)
            = if decide (sid = sessionId) then true
              else has_active sessionId (run evs)) as ->.
    { unfold has_active. rewrite Ha. destruct (decide _) as [->|Hne].
      - rewrite lookup_insert_eq. by apply bool_decide_eq_true_2.
      - by rewrite lookup_insert_ne. }
    rewrite Hl, !count_snoc, IH. cbn [sc_sessionId sc_reason].
    destruct (decide (sid = sessionId)) as [->|Hne].
    + destruct (has_active sessionId (run evs)) eqn:E.
      * rewrite !bool_decide_eq_false_2 by (by intros [_ ?]). lia.
      * rewrite bool_decide_eq_true_2 by done.
        rewrite bool_decide_eq_false_2 by (by intros [_ ?]). lia.
    + rewrite !bool_decide_eq_false_2 by (by intros [? _]). lia.
  - assert (has_active sessionId (step (run evs) e)
            = if decide (sid = sessionId) then false
              else has_active sessionId (run evs)) as ->.
    { unfold has_active. rewrite Ha. destruct (decide _) as [->|Hne].
      - rewrite lookup_delete_eq. apply bool_decide_eq_false_2. by intros [? ?].
      - by rewrite lookup_delete_ne. }
    rewrite Hl, !count_snoc, IH. cbn [sc_sessionId sc_reason].
    destruct (decide (sid = sessionId)) as [->|Hne].
    + unfold has_active. rewrite (bool_decide_eq_true_2 _ Hs).
      rewrite bool_decide_eq_false_2 by (by intros [_ ?]).
      rewrite bool_decide_eq_true_2 by done. lia.
    + rewrite !bool_decide_eq_false_2 by (by intros [? _]). lia.
Qed.

End RegistryHistories.
(** ** Backend descriptors: merge, ids and the child's environment *)

Section BackendFacts.
Import Backends.

Lemma dedupe_elem xs : ∀ seen x, x ∈ JS.dedupe seen xs ↔ x ∈ xs ∧ x ∉ seen.
Proof.
  induction xs as [|y xs IH]; intros seen x; cbn [JS.dedupe].
  - split; [by intros ?%elem_of_nil|by intros [?%elem_of_nil _]].
  - unfold JS.includes. case_bool_decide as Hy.
    + rewrite IH, elem_of_cons. split; [intros [? ?]; by eauto|].
      intros [[->|?] Hn]; [done|by split].
    + rewrite !elem_of_cons, IH, not_elem_of_app, not_elem_of_cons. split.
      * intros [->|(Hx & Hn & _)]; [by split; [left|]|by split; [right|]].
      * intros [[->|Hx] Hn]; [by left|].
        destruct (decide (x = y)) as [->|Hne]; [by left|].
        right. repeat split; try done. apply not_elem_of_nil.
Qed.

Lemma dedupe_NoDup xs : ∀ seen, NoDup (JS.dedupe seen xs).
Proof.
  induction xs as [|y xs IH]; intros seen; cbn [JS.dedupe]; [constructor|].
  unfold JS.includes. case_bool_decide as Hy; [apply IH|].
  constructor; [|apply IH]. rewrite dedupe_elem. intros [_ Hn].
  apply Hn, elem_of_app. right. by left.
Qed.

Lemma dedupe_seen xs : ∀ seen, (∀ x, x ∈ xs → x ∈ seen) → JS.dedupe seen xs = [].
Proof.
  induction xs as [|y xs IH]; intros seen Hs; cbn [JS.dedupe]; [done|].
  unfold JS.includes. rewrite bool_decide_eq_true_2 by (apply Hs; by left).
  apply IH. intros x Hx. apply Hs. by right.
Qed.

Lemma dedupe_ext xs : ∀ seen seen',
  (∀ x, x ∈ seen ↔ x ∈ seen') → JS.dedupe seen xs = JS.dedupe seen' xs.
Proof.
  induction xs as [|y xs IH]; intros seen seen' Hs; cbn [JS.dedupe]; [done|].
  unfold JS.includes. rewrite (bool_decide_ext _ _ (Hs y)).
  case_bool_decide; [by apply IH|]. f_equal. apply IH.
  intros x. rewrite !elem_of_app. by rewrite Hs.
Qed.

Lemma dedupe_app xs : ∀ seen ys,
  JS.dedupe seen (xs ++ ys) = JS.dedupe seen xs ++ JS.dedupe (seen ++ xs) ys.
Proof.
  induction xs as [|y xs IH]; intros seen ys; cbn [JS.dedupe app].
  - by rewrite app_nil_r.
  - unfold JS.includes. case_bool_decide as Hy.
    + rewrite IH. f_equal. apply dedupe_ext. intros x.
      rewrite !elem_of_app, elem_of_cons. split; [by intros [?|?]; eauto|].
      intros [?|[->|?]]; by eauto.
    + cbn [app]. f_equal. rewrite IH. f_equal.
      by rewrite <- app_assoc.
Qed.

Lemma dedupe_fixed xs : ∀ seen,
  NoDup xs → (∀ x, x ∈ xs → x ∉ seen) → JS.dedupe seen xs = xs.
Proof.
  induction xs as [|y xs IH]; intros seen Hnd Hs; cbn [JS.dedupe]; [done|].
  apply NoDup_cons in Hnd as [Hy Hnd].
  unfold JS.includes. rewrite bool_decide_eq_false_2 by (apply Hs; by left).
  f_equal. apply IH; [done|]. intros x Hx. apply not_elem_of_app. split.
  - apply Hs. by right.
  - intros ->%list_elem_of_singleton. done.
Qed.

Lemma dedupe_again xs ys :
  JS.dedupe [] (JS.dedupe [] (xs ++ ys) ++ ys) = JS.dedupe [] (xs ++ ys).
Proof.
  rewrite (dedupe_app (JS.dedupe [] (xs ++ ys))). cbn [app].
  rewrite (dedupe_fixed (JS.dedupe [] (xs ++ ys)))
    by (apply dedupe_NoDup || (intros; apply not_elem_of_nil)).
  rewrite (dedupe_seen ys); [by rewrite app_nil_r|].
  intros x Hx. apply dedupe_elem. split; [|apply not_elem_of_nil].
  apply elem_of_app. by right.
Qed.

(** X15. The environment keys a merged backend clears are the union of
    the base's and the override's: every key of either list is in the
    merged list, nothing else is, no key is listed twice, and when the base
    lists no key twice its keys come first, in their order.  An override
    can therefore add keys to clear but never take one away. *)
Theorem merged_clearEnv_is_the_union (base override : CliBackendConfig) :
  let merged := default [] (clearEnv (mergeBackendConfig base (Some override))) in
  let ofBase := default [] (clearEnv base) in
  let ofOverride := default [] (clearEnv override) in
  NoDup merged
  ∧ (∀ key, key ∈ merged ↔ key ∈ ofBase ∨ key ∈ ofOverride)
  ∧ (NoDup ofBase → take (length ofBase) merged = ofBase).
Proof.
  cbn. split; [apply dedupe_NoDup|]. split.
  - intros key. rewrite dedupe_elem, elem_of_app. split; [by intros [? _]|].
    intros H. split; [done|apply not_elem_of_nil].
  - intros Hnd. rewrite dedupe_app. cbn [app].
    rewrite (dedupe_fixed (default [] (clearEnv base)))
      by (done || (intros; apply not_elem_of_nil)).
    by rewrite take_app_length.
Qed.

Lemma orElse_again {A} (o b : option A) : orElse o (orElse o b) = orElse o b.
Proof. by destruct o. Qed.

Lemma spreadMaps_again (b o : option (gmap jsstring jsstring)) :
  spreadMaps (Some (spreadMaps b o)) o = spreadMaps b o.
Proof.
  unfold spreadMaps. cbn. by rewrite (assoc_L (∪)), (idemp_L (∪)).
Qed.

Lemma mergeEntry_again (b o : option FormatEntry) :
  mergeEntry (Some (mergeEntry b o)) o = mergeEntry b o.
Proof. unfold mergeEntry. cbn. by rewrite !orElse_again. Qed.

(** X16. Merging an override is idempotent: applying the same override
    to an already merged descriptor changes nothing, field by field (the
    scalar fields, the two string maps, the list of keys to clear and the
    three entries of the streaming format). *)
Theorem merge_override_twice (base override : CliBackendConfig) :
  mergeBackendConfig (mergeBackendConfig base (Some override)) (Some override)
  = mergeBackendConfig base (Some override).
Proof.
  unfold mergeBackendConfig. cbn.
  rewrite !orElse_again, !spreadMaps_again, dedupe_again.
  f_equal. destruct (streamingFormat override) as [f|]; [|done].
  cbn. by rewrite !mergeEntry_again.
Qed.

Section WithNormalizer.

Variable normalizeProviderId : jsstring → jsstring.

Lemma pick_Some config : ∀ normalizedId entry,
  pickBackendConfig normalizeProviderId config normalizedId = Some entry ↔
  ∃ before key after,
    config = before ++ (key, entry) :: after
    ∧ normalizeProviderId key = normalizedId
    ∧ Forall (λ e, normalizeProviderId e.1 ≠ normalizedId) before.
Proof.
  induction config as [|[k e] config IH]; intros normalizedId entry;
    cbn [pickBackendConfig].
  - split; [done|]. intros (before & key & after & H & _). by destruct before.
  - unfold normalizeBackendKey. case_bool_decide as Hk.
    + split.
      * intros [= <-]. exists [], k, config. by repeat split.
      * intros ([|[k' e'] before] & key & after & H & Hkey & Hb).
        -- by injection H as -> -> _.
        -- injection H as -> -> _. apply Forall_cons in Hb as [Hb _]. done.
    + rewrite IH. split.
      * intros (before & key & after & -> & Hkey & Hb).
        exists ((k, e) :: before), key, after. repeat split; [done|].
        by constructor.
      * intros ([|[k' e'] before] & key & after & H & Hkey & Hb).
        -- injection H as -> -> _. done.
        -- injection H as -> -> ->. apply Forall_cons in Hb as [_ Hb].
           by exists before, key, after.
Qed.

Lemma pick_None config normalizedId :
  pickBackendConfig normalizeProviderId config normalizedId = None ↔
  Forall (λ e, normalizeProviderId e.1 ≠ normalizedId) config.
Proof.
  induction config as [|[k e] config IH]; cbn [pickBackendConfig].
  - split; [by constructor|done].
  - unfold normalizeBackendKey. case_bool_decide as Hk.
    + split; [done|]. intros [Hb _]%Forall_cons. done.
    + rewrite IH. split; [by constructor|by intros [_ ?]%Forall_cons].
Qed.

(** X17. Of the configured backends, the first one whose key normalises
    to the id wanted is the override; later entries with such a key are
    never looked at, and there is no override exactly when no key
    normalises to the id. *)
Theorem first_matching_key_is_the_override
    (config : list (jsstring * CliBackendConfig)) (normalizedId : jsstring) :
  (∀ entry,
     pickBackendConfig normalizeProviderId config normalizedId = Some entry ↔
     ∃ before key after,
       config = before ++ (key, entry) :: after
       ∧ normalizeProviderId key = normalizedId
       ∧ Forall (λ e, normalizeProviderId e.1 ≠ normalizedId) before)
  ∧ (pickBackendConfig normalizeProviderId config normalizedId = None ↔
     Forall (λ e, normalizeProviderId e.1 ≠ normalizedId) config).
Proof. split; [intros entry; apply pick_Some|apply pick_None]. Qed.

(** X18. Every backend that can be resolved is among the ids that
    [resolveCliBackendIds] lists, provided the normaliser leaves the two
    built-in ids as they are; the list names no id twice. *)
Theorem resolvable_backends_are_listed (provider : jsstring)
    (cfg : option OpenClawConfig) (r : ResolvedCliBackend) :
  normalizeProviderId (JS.lit "claude-cli") = JS.lit "claude-cli" →
  normalizeProviderId (JS.lit "codex-cli") = JS.lit "codex-cli" →
  resolveCliBackendConfig normalizeProviderId provider cfg = Some r →
  id r ∈ BackendIds.resolveCliBackendIds normalizeProviderId cfg
  ∧ NoDup (BackendIds.resolveCliBackendIds normalizeProviderId cfg).
Proof.
  intros Hclaude Hcodex Hr. split; [|apply dedupe_NoDup].
  unfold BackendIds.resolveCliBackendIds. cbn zeta.
  apply dedupe_elem. split; [|apply not_elem_of_nil].
  unfold normalizeBackendKey. rewrite Hclaude, Hcodex.
  rewrite resolve_via_merged in Hr. cbn zeta in Hr. unfold mergedFor, L in Hr.
  set (normalized := normalizeProviderId provider) in *.
  set (configured := default [] (cfg ≫= cliBackends)) in *.
  assert (id r = normalized) as ->.
  { destruct (if bool_decide (normalized = JS.lit "claude-cli") then _ else _)
      as [merged|]; [|done].
    destruct (usableCommand merged); [|done]. by injection Hr as <-. }
  case_bool_decide as H1; [rewrite H1; by left|].
  case_bool_decide as H2; [rewrite H2; right; by left|].
  destruct (pickBackendConfig normalizeProviderId configured normalized)
    as [o|] eqn:Hp; [|done].
  apply pick_Some in Hp as (before & key & after & Hc & Hk & _).
  right. right. apply list_elem_of_fmap. exists (key, o). split; [done|].
  rewrite Hc. apply elem_of_app. right. by left.
Qed.

End WithNormalizer.

Lemma resolvable_backends_are_listed_witness :
  let cfg := Some {| cliBackends := Some [(JS.lit " gemini-cli ",
                       withCommand (JS.lit "gemini") emptyOverride)] |} in
  JS.lit "gemini-cli"
    ∈ BackendIds.resolveCliBackendIds Sample.normalizeProviderId cfg.
Proof.
  intros cfg.
  destruct (resolveCliBackendConfig Sample.normalizeProviderId (JS.lit "gemini-cli") cfg)
    as [r|] eqn:Hr; [|by vm_compute in Hr].
  destruct (resolvable_backends_are_listed Sample.normalizeProviderId
              (JS.lit "gemini-cli") cfg r) as [H _]; [by vm_compute..|exact Hr|].
  assert (id r = JS.lit "gemini-cli") as <-; [|exact H].
  vm_compute in Hr. by injection Hr as <-.
Defined.

End BackendFacts.

Lemma merged_clearEnv_is_the_union_witness :
  let override :=
    {| command := None; args := None; resumeArgs := None; sessionArgs := None;
       output := None; resumeOutput := None; input := None; modelArg := None;
       modelAliases := None; sessionArg := None; sessionMode := None;
       sessionIdFields := None; systemPromptArg := None; systemPromptMode := None;
       systemPromptWhen := None; imageArg := None; imageMode := None;
       clearEnv := Some [JS.lit "ANTHROPIC_API_KEY"; JS.lit "OPENAI_API_KEY"];
       env := None; serialize := None; usageFields := None; streaming := None;
       streamingEventTypes := None; streamingFormat := None |} in
  take 2 (default [] (clearEnv
            (Backends.mergeBackendConfig override (Some Backends.DEFAULT_CLAUDE_BACKEND))))
  = [JS.lit "ANTHROPIC_API_KEY"; JS.lit "OPENAI_API_KEY"].
Proof.
  intros override.
  destruct (merged_clearEnv_is_the_union override Backends.DEFAULT_CLAUDE_BACKEND)
    as (_ & _ & H).
  apply H. apply (bool_decide_unpack _). by vm_compute.
Defined.

Lemma first_matching_key_is_the_override_witness :
  let first := Backends.withCommand (JS.lit "one") Backends.emptyOverride in
  let second := Backends.withCommand (JS.lit "two") Backends.emptyOverride in
  Backends.pickBackendConfig Sample.normalizeProviderId
    [(JS.lit "other", second); (JS.lit " mine ", first); (JS.lit "mine", second)]
    (JS.lit "mine")
  = Some first.
Proof.
  intros first second.
  apply (first_matching_key_is_the_override Sample.normalizeProviderId).
  exists [(JS.lit "other", second)], (JS.lit " mine "), [(JS.lit "mine", second)].
  split; [done|]. split; [by vm_compute|].
  apply Forall_singleton. by vm_compute.
Defined.
(** ** Backend resolution: the command, and the environment of the child *)

Section ResolvedBackend.
Import Backends.

Lemma foldl_delete_lookup (keys : list jsstring) : ∀ (m : gmap jsstring jsstring) key,
  foldl (λ next k, delete k next) m keys !! key
  = if bool_decide (key ∈ keys) then None else m !! key.
Proof.
  induction keys as [|k keys IH]; intros m key; cbn [foldl]; [done|].
  rewrite IH. destruct (decide (key = k)) as [->|Hne].
  - rewrite lookup_delete_eq. rewrite (bool_decide_eq_true_2 (k ∈ k :: keys)) by by left.
    by case_bool_decide.
  - rewrite lookup_delete_ne by done.
    apply (f_equal (λ b : bool, if b then None else m !! key)).
    apply bool_decide_ext. rewrite elem_of_cons. split; [by right|by intros [?|?]].
Qed.

Section WithNormalizer.

Variable normalizeProviderId : jsstring → jsstring.

Lemma resolved_config provider cfg r :
  resolveCliBackendConfig normalizeProviderId provider cfg = Some r →
  ∃ merged raw,
    mergedFor (normalizeProviderId provider)
      (pickBackendConfig normalizeProviderId (default [] (cfg ≫= cliBackends))
         (normalizeProviderId provider)) = Some merged
    ∧ command merged = Some raw
    ∧ JS.trim raw ≠ []
    ∧ r = {| id := normalizeProviderId provider;
             config := withCommand (JS.trim raw) merged |}.
Proof.
  rewrite resolve_via_merged. cbn zeta.
  destruct (mergedFor _ _) as [merged|]; [|done].
  destruct (usableCommand merged) as [cmd|] eqn:Hc; [|done].
  intros [= <-]. apply usableCommand_Some in Hc as (Hne & raw & Hraw & ->).
  by exists merged, raw.
Qed.

(** X19. The command of a resolved backend is ready to be spawned: it is
    not empty, it neither starts nor ends with white space, trimming it
    again changes nothing, and apart from the command the descriptor is the
    merged one (the trimming touches no other field). *)
Theorem resolved_command_is_trimmed (provider : jsstring)
    (cfg : option OpenClawConfig) (r : ResolvedCliBackend) :
  resolveCliBackendConfig normalizeProviderId provider cfg = Some r →
  ∃ cmd merged,
    command (config r) = Some cmd
    ∧ cmd ≠ []
    ∧ (∀ c, head cmd = Some c → JS.isWhiteSpace c = false)
    ∧ (∀ c, last cmd = Some c → JS.isWhiteSpace c = false)
    ∧ JS.trim cmd = cmd
    ∧ mergedFor (normalizeProviderId provider)
        (pickBackendConfig normalizeProviderId (default [] (cfg ≫= cliBackends))
           (normalizeProviderId provider)) = Some merged
    ∧ config r = withCommand cmd merged.
Proof.
  intros Hr. apply resolved_config in Hr as (merged & raw & Hm & Hraw & Hne & ->).
  exists (JS.trim raw), merged. cbn.
  destruct (trim_shape raw) as [Hh Hl].
  repeat split; try done. apply trim_trimmed.
Qed.

(** X20. No key that the backend clears reaches the child process, also
    when the backend's own environment sets it; every other key has the
    backend's value if the backend sets it and the parent's otherwise.  For
    the built-in Claude backend this holds of ANTHROPIC_API_KEY and
    ANTHROPIC_API_KEY_OLD under every configured override: no configuration
    can hand the parent's API key to the Claude CLI. *)
Theorem cleared_keys_never_reach_the_child
    (processEnv : gmap jsstring jsstring) :
  (∀ backend key,
     Task.env processEnv backend !! key
     = if bool_decide (key ∈ default [] (clearEnv backend)) then None
       else match default ∅ (env backend) !! key with
            | Some value => Some value
            | None => processEnv !! key
            end)
  ∧ (∀ provider cfg r,
       normalizeProviderId provider = JS.lit "claude-cli" →
       resolveCliBackendConfig normalizeProviderId provider cfg = Some r →
       Task.env processEnv (config r) !! JS.lit "ANTHROPIC_API_KEY" = None
       ∧ Task.env processEnv (config r) !! JS.lit "ANTHROPIC_API_KEY_OLD" = None).
Proof.
  assert (∀ backend key,
     Task.env processEnv backend !! key
     = if bool_decide (key ∈ default [] (clearEnv backend)) then None
       else match default ∅ (env backend) !! key with
            | Some value => Some value
            | None => processEnv !! key
            end) as Hlookup.
  { intros backend key. unfold Task.env. rewrite foldl_delete_lookup.
    case_bool_decide; [done|]. unfold spreadMaps. cbn.
    rewrite lookup_union. by destruct (default ∅ (env backend) !! key), (processEnv !! key). }
  split; [exact Hlookup|].
  intros provider cfg r Hn Hr.
  apply resolved_config in Hr as (merged & raw & Hm & _ & _ & ->).
  rewrite Hn in Hm. unfold mergedFor, L in Hm.
  rewrite bool_decide_eq_true_2 in Hm by done. injection Hm as <-.
  rewrite !Hlookup. cbn [config].
  assert (∀ key, key ∈ default [] (clearEnv DEFAULT_CLAUDE_BACKEND) →
            key ∈ default [] (clearEnv
              (withCommand (JS.trim raw)
                 (mergeBackendConfig DEFAULT_CLAUDE_BACKEND
                    (pickBackendConfig normalizeProviderId
                       (default [] (cfg ≫= cliBackends)) (JS.lit "claude-cli")))))) as Hin.
  { intros key Hkey. destruct (pickBackendConfig _ _ _) as [o|]; [|done].
    unfold withCommand, mergeBackendConfig. cbn [clearEnv default].
    apply dedupe_elem. split; [|apply not_elem_of_nil].
    apply elem_of_app. by left. }
  rewrite !bool_decide_eq_true_2; [done|apply Hin..].
  - cbn. unfold L. right. by left.
  - cbn. unfold L. by left.
Qed.

End WithNormalizer.

Lemma resolved_command_is_trimmed_witness :
  let cfg := Some {| cliBackends := Some [(JS.lit "codex-cli",
                       withCommand (JS.lit "  /opt/codex ") emptyOverride)] |} in
  ∃ r, resolveCliBackendConfig Sample.normalizeProviderId (JS.lit "codex-cli") cfg = Some r
       ∧ command (config r) = Some (JS.lit "/opt/codex").
Proof.
  intros cfg.
  destruct (resolveCliBackendConfig Sample.normalizeProviderId (JS.lit "codex-cli") cfg)
    as [r|] eqn:Hr; [|by vm_compute in Hr].
  exists r. split; [done|].
  destruct (resolved_command_is_trimmed Sample.normalizeProviderId
              (JS.lit "codex-cli") cfg r Hr) as (cmd & merged & Hc & _).
  rewrite Hc. vm_compute in Hr. injection Hr as <-. cbn in Hc. by rewrite <- Hc.
Defined.

Lemma cleared_keys_never_reach_the_child_witness :
  let processEnv : gmap jsstring jsstring :=
    {[ JS.lit "ANTHROPIC_API_KEY" := JS.lit "sk-parent" ]} in
  let cfg := Some {| cliBackends := Some [(JS.lit "claude-cli",
                       withCommand (JS.lit "claude-dev") emptyOverride)] |} in
  ∃ r, resolveCliBackendConfig Sample.normalizeProviderId (JS.lit "claude-cli") cfg = Some r
       ∧ Task.env processEnv (config r) !! JS.lit "ANTHROPIC_API_KEY" = None.
Proof.
  intros processEnv cfg.
  destruct (resolveCliBackendConfig Sample.normalizeProviderId (JS.lit "claude-cli") cfg)
    as [r|] eqn:Hr; [|by vm_compute in Hr].
  exists r. split; [done|].
  destruct (cleared_keys_never_reach_the_child Sample.normalizeProviderId processEnv)
    as [_ H].
  destruct (H (JS.lit "claude-cli") cfg r) as [H1 _]; [by vm_compute|exact Hr|exact H1].
Defined.

End ResolvedBackend.
(** ** The backend-agnostic runner: a failing child, and what is returned *)

Section RunnerOutcomes.

Variable normalizeProviderId : jsstring → jsstring.
Variable classifyFailoverReason : jsstring → option jsstring.
Variable resolveFailoverStatus : jsstring → option Z.
Variable isFailoverErrorMessage : jsstring → bool.
Variable resolveSessionIdToSend :
  CliBackendConfig → option jsstring → option jsstring * bool.
Variable parseCliJsonl parseCliJson : jsstring → CliBackendConfig → option CliOutput.

Let failover := CliRunner.failover classifyFailoverReason resolveFailoverStatus.
Let runTask :=
  CliRunner.runTask classifyFailoverReason resolveFailoverStatus
    parseCliJsonl parseCliJson.
Let runCliAgent :=
  CliRunner.runCliAgent normalizeProviderId classifyFailoverReason
    resolveFailoverStatus isFailoverErrorMessage resolveSessionIdToSend
    parseCliJsonl parseCliJson.
Let runClaudeCliAgent :=
  ClaudeCli.runClaudeCliAgent normalizeProviderId classifyFailoverReason
    resolveFailoverStatus isFailoverErrorMessage resolveSessionIdToSend
    parseCliJsonl parseCliJson.

Lemma modelId_nonempty (model : option jsstring) :
  JS.or_else (JS.trim (default (JS.lit "default") model)) (JS.lit "default") ≠ [].
Proof.
  unfold JS.or_else. destruct (JS.truthy _) eqn:E; [by apply truthy_nonempty|done].
Qed.

(** X21. What the backend-agnostic runner does with a failing child, from
    the resolution of the backend on (the helpers of other modules that run
    before the child, to prepare the prompt, the images and the argument
    list and to clean up stale processes, are not part of the model: they
    are further ways to throw, so nothing is said here about every way the
    runner can throw).  An unknown backend is reported by a plain error
    that names the provider as it was given, whatever the child would have
    done.  With a resolved backend a failure of the child always reaches
    the caller as an error.  In streaming mode a rejection of the streaming
    helper becomes a failover error with the helper's message, the provider
    given and the model id.  Otherwise an exit code other than 0 becomes a
    failover error with the failure text, and a rejection of the command
    goes through the [catch] clause: a failover error is thrown again as it
    is, a plain error whose message is a failover message becomes a
    failover error with that message, and any other plain error is thrown
    again as it is.  So the runner returns a result only when the backend
    is known and the child succeeded: the streaming helper resolved, or the
    command exited with code 0; that result names the provider given and a
    model id that is not empty, carries no aborted flag, and measures its
    duration from the start. *)
Theorem child_failure_reaches_the_caller (p : CliParams) (now : Z) (child : ChildRun) :
  let resolved :=
    Backends.resolveCliBackendConfig normalizeProviderId (cp_provider p) (cp_config p) in
  let modelId :=
    JS.or_else (JS.trim (default (JS.lit "default") (cp_model p))) (JS.lit "default") in
  (resolved = None →
     runCliAgent p now child
     = Threw (PlainError (JS.lit "Unknown CLI backend: " ++ cp_provider p)))
  ∧ (∀ b, resolved = Some b → default false (streaming (config b)) = true →
       ∀ e, streamed child = Threw e →
         runCliAgent p now child
         = Threw (failover (thrownMessage e) (cp_provider p) modelId))
  ∧ (∀ b, resolved = Some b → default false (streaming (config b)) = false →
       (∀ result, executed child = Returned result → code result ≠ Some 0 →
          runCliAgent p now child
          = Threw (failover (CliRunner.failureText result) (cp_provider p) modelId))
       ∧ (∀ message reason provider model status,
            executed child = Threw (FailoverError message reason provider model status) →
            runCliAgent p now child
            = Threw (FailoverError message reason provider model status))
       ∧ (∀ message, executed child = Threw (PlainError message) →
            runCliAgent p now child
            = Threw (if isFailoverErrorMessage message
                     then failover message (cp_provider p) modelId
                     else PlainError message)))
  ∧ (∀ res, runCliAgent p now child = Returned res →
       (∃ b, resolved = Some b
          ∧ if default false (streaming (config b))
            then ∃ streamResult, streamed child = Returned streamResult
            else ∃ result, executed child = Returned result ∧ code result = Some 0)
       ∧ meta_provider (agentMeta res) = cp_provider p
       ∧ meta_model (agentMeta res) = modelId
       ∧ modelId ≠ []
       ∧ result_aborted res = None
       ∧ durationMs res = now - cp_started p).
Proof.
  intros resolved modelId. subst resolved runCliAgent. unfold CliRunner.runCliAgent.
  destruct (Backends.resolveCliBackendConfig _ _ _) as [b|]; [|by repeat split].
  destruct (resolveSessionIdToSend (config b) (cp_cliSessionId p)) as [sid isNew].
  fold modelId. unfold CliRunner.runTask.
  split; [done|]. split; [|split].
  - intros b' [= <-] Hs e He. by rewrite Hs, He.
  - intros b' [= <-] Hs. rewrite Hs. split; [|split].
    + intros result He Hc. rewrite He. by rewrite bool_decide_eq_false_2.
    + intros message reason provider model status He. by rewrite He.
    + intros message He. rewrite He. cbn [CliRunner.rethrow].
      by destruct (isFailoverErrorMessage message).
  - intros res Hres. split.
    + exists b. split; [done|].
      destruct (default false (streaming (config b))).
      * destruct (streamed child) as [sr|e]; [by exists sr|discriminate Hres].
      * destruct (executed child) as [result|e]; [|discriminate Hres].
        exists result. split; [done|].
        destruct (decide (code result = Some 0)) as [Hc|Hc]; [done|].
        rewrite bool_decide_eq_false_2 in Hres by done. discriminate Hres.
    + destruct (if default false (streaming (config b)) then _ else _) as [out|e];
        [|discriminate Hres].
      injection Hres as <-. cbn. repeat split. apply modelId_nonempty.
Qed.

Lemma claude_builtin_resolves provider cfg :
  normalizeProviderId provider = JS.lit "claude-cli" →
  Backends.pickBackendConfig normalizeProviderId (default [] (cfg ≫= cliBackends))
    (JS.lit "claude-cli") = None →
  Backends.resolveCliBackendConfig normalizeProviderId provider cfg
  = Some {| id := JS.lit "claude-cli"; config := Backends.DEFAULT_CLAUDE_BACKEND |}.
Proof.
  intros Hn Hp. rewrite resolve_via_merged. cbn zeta. rewrite Hn, Hp. by vm_compute.
Qed.

(** X22. Called without a provider, and with no override configured for
    it, the Claude wrapper runs the built-in Claude backend in streaming
    mode: the outcome is that of the streaming helper alone, a result under
    provider claude-cli and the model given (opus when none is), or a
    failover error with the helper's message under the same provider and
    model.  The normaliser is assumed to leave the id claude-cli as it
    is. *)
Theorem claude_wrapper_streams_builtin (p : ClaudeCliParams) (now : Z)
    (child : ChildRun) :
  normalizeProviderId (JS.lit "claude-cli") = JS.lit "claude-cli" →
  ccp_provider p = None →
  Backends.pickBackendConfig normalizeProviderId
    (default [] (ccp_config p ≫= cliBackends)) (JS.lit "claude-cli") = None →
  let model :=
    JS.or_else (JS.trim (default (JS.lit "opus") (ccp_model p))) (JS.lit "default") in
  (∀ sr, streamed child = Returned sr →
     ∃ res, runClaudeCliAgent p now child = Returned res
       ∧ payloads res
         = CliRunner.assemblePayloads
             {| out_text := Some (sr_text sr); out_sessionId := sr_sessionId sr;
                out_usage := sr_usage sr |}
       ∧ meta_provider (agentMeta res) = JS.lit "claude-cli"
       ∧ meta_model (agentMeta res) = model
       ∧ meta_usage (agentMeta res) = sr_usage sr)
  ∧ (∀ e, streamed child = Threw e →
       runClaudeCliAgent p now child
       = Threw (failover (thrownMessage e) (JS.lit "claude-cli") model))
  ∧ (ccp_model p = None → model = JS.lit "opus").
Proof.
  intros Hn Hprov Hpick model.
  subst runClaudeCliAgent. unfold ClaudeCli.runClaudeCliAgent, CliRunner.runCliAgent.
  rewrite Hprov. cbn [cp_provider cp_config cp_model cp_cliSessionId cp_sessionId
                      cp_started default].
  rewrite (claude_builtin_resolves (JS.lit "claude-cli") (ccp_config p) Hn Hpick).
  cbn [config].
  destruct (resolveSessionIdToSend Backends.DEFAULT_CLAUDE_BACKEND (ccp_claudeSessionId p))
    as [sid isNew].
  unfold CliRunner.runTask.
  change (default false (streaming Backends.DEFAULT_CLAUDE_BACKEND)) with true.
  cbn match. fold model.
  split; [|split].
  - intros sr ->. eexists. split; [done|]. by cbn.
  - intros e ->. done.
  - intros Hm. subst model. rewrite Hm. by vm_compute.
Qed.

End RunnerOutcomes.

Lemma child_failure_reaches_the_caller_witness :
  let run := CliRunner.runCliAgent Sample.normalizeProviderId
               Sample.classifyFailoverReason Sample.resolveFailoverStatus
               Sample.isFailoverErrorMessage Sample.resolveSessionIdToSend
               Sample.parseNothing Sample.parseNothing in
  let collecting :=
    Some {| cliBackends := Some [(JS.lit "codex-cli",
              Backends.withStreaming false Backends.emptyOverride)] |} in
  let p (provider : string) config :=
    {| cp_sessionId := JS.lit "s1"; cp_config := config;
       cp_provider := JS.lit provider; cp_model := Some (JS.lit "o3");
       cp_cliSessionId := None; cp_started := 1000 |} in
  let rejects e := {| streamed := Threw e; executed := Threw e |} in
  let exits c text :=
    {| streamed := Threw (PlainError (JS.lit "unused"));
       executed := Returned {| code := Some c; stdout := text; stderr := [];
                               killed := false |} |} in
  run (p "gemini-cli"%string None) 2000 (exits 0 (JS.lit "fine"))
    = Threw (PlainError (JS.lit "Unknown CLI backend: gemini-cli"))
  ∧ run (p "codex-cli"%string None) 2000 (rejects (PlainError (JS.lit "spawn ENOENT")))
    = Threw (FailoverError (JS.lit "spawn ENOENT") (JS.lit "unknown")
               (JS.lit "codex-cli") (JS.lit "o3") None)
  ∧ run (p "codex-cli"%string collecting) 2000 (rejects (PlainError (JS.lit "spawn ENOENT")))
    = Threw (PlainError (JS.lit "spawn ENOENT"))
  ∧ run (p "codex-cli"%string collecting) 2000 (rejects (PlainError (JS.lit "401 unauthorized")))
    = Threw (FailoverError (JS.lit "401 unauthorized") (JS.lit "auth")
               (JS.lit "codex-cli") (JS.lit "o3") (Some 401))
  ∧ run (p "codex-cli"%string collecting) 2000 (exits 2 (JS.lit "no such model"))
    = Threw (FailoverError (JS.lit "no such model") (JS.lit "unknown")
               (JS.lit "codex-cli") (JS.lit "o3") None)
  ∧ (∃ res, run (p "codex-cli"%string collecting) 2000 (exits 0 (JS.lit "fine")) = Returned res
       ∧ meta_provider (agentMeta res) = JS.lit "codex-cli"
       ∧ meta_model (agentMeta res) = JS.lit "o3"
       ∧ durationMs res = 1000).
Proof.
  intros run collecting p rejects exits.
  pose (thm := child_failure_reaches_the_caller Sample.normalizeProviderId
                 Sample.classifyFailoverReason Sample.resolveFailoverStatus
                 Sample.isFailoverErrorMessage Sample.resolveSessionIdToSend
                 Sample.parseNothing Sample.parseNothing).
  destruct (Backends.resolveCliBackendConfig Sample.normalizeProviderId
              (JS.lit "codex-cli") None) as [bs|] eqn:Hbs.
  2: { vm_compute in Hbs. discriminate Hbs. }
  assert (default false (streaming (config bs)) = true) as Hss
    by (vm_compute in Hbs; injection Hbs as <-; reflexivity).
  destruct (Backends.resolveCliBackendConfig Sample.normalizeProviderId
              (JS.lit "codex-cli") collecting) as [bc|] eqn:Hbc.
  2: { vm_compute in Hbc. discriminate Hbc. }
  assert (default false (streaming (config bc)) = false) as Hsc
    by (vm_compute in Hbc; injection Hbc as <-; reflexivity).
  unfold run. split; [|split; [|split; [|split; [|split]]]].
  - destruct (thm (p "gemini-cli"%string None) 2000 (exits 0 (JS.lit "fine"))) as (H & _).
    rewrite H; by vm_compute.
  - destruct (thm (p "codex-cli"%string None) 2000 (rejects (PlainError (JS.lit "spawn ENOENT"))))
      as (_ & H & _).
    rewrite (H bs Hbs Hss _ eq_refl). by vm_compute.
  - destruct (thm (p "codex-cli"%string collecting) 2000
                (rejects (PlainError (JS.lit "spawn ENOENT")))) as (_ & _ & H & _).
    destruct (H bc Hbc Hsc) as (_ & _ & H3). rewrite (H3 _ eq_refl). by vm_compute.
  - destruct (thm (p "codex-cli"%string collecting) 2000
                (rejects (PlainError (JS.lit "401 unauthorized")))) as (_ & _ & H & _).
    destruct (H bc Hbc Hsc) as (_ & _ & H3). rewrite (H3 _ eq_refl). by vm_compute.
  - destruct (thm (p "codex-cli"%string collecting) 2000 (exits 2 (JS.lit "no such model")))
      as (_ & _ & H & _).
    destruct (H bc Hbc Hsc) as (H1 & _). rewrite (H1 _ eq_refl); [by vm_compute|discriminate].
  - destruct (run (p "codex-cli"%string collecting) 2000 (exits 0 (JS.lit "fine")))
      as [res|e] eqn:Hres; [|vm_compute in Hres; discriminate Hres].
    unfold run in Hres. rewrite Hres. exists res. split; [done|].
    destruct (thm (p "codex-cli"%string collecting) 2000 (exits 0 (JS.lit "fine")))
      as (_ & _ & _ & H).
    destruct (H res Hres) as (_ & H1 & H2 & _ & _ & H5).
    split; [exact H1|]. split; [rewrite H2; by vm_compute|]. rewrite H5. by vm_compute.
Defined.

Lemma claude_wrapper_streams_builtin_witness :
  let run := ClaudeCli.runClaudeCliAgent Sample.normalizeProviderId
               Sample.classifyFailoverReason Sample.resolveFailoverStatus
               Sample.isFailoverErrorMessage Sample.resolveSessionIdToSend
               Sample.parseNothing Sample.parseNothing in
  let p := {| ccp_sessionId := JS.lit "s1"; ccp_config := None;
              ccp_provider := None; ccp_model := None;
              ccp_claudeSessionId := None; ccp_started := 1000 |} in
  let child := {| streamed := Threw (PlainError (JS.lit "401 unauthorized"));
                  executed := Threw (PlainError (JS.lit "unused")) |} in
  run p 2000 child
  = Threw (FailoverError (JS.lit "401 unauthorized") (JS.lit "auth")
             (JS.lit "claude-cli") (JS.lit "opus") (Some 401)).
Proof.
  intros run p child.
  destruct (claude_wrapper_streams_builtin Sample.normalizeProviderId
              Sample.classifyFailoverReason Sample.resolveFailoverStatus
              Sample.isFailoverErrorMessage Sample.resolveSessionIdToSend
              Sample.parseNothing Sample.parseNothing p 2000 child)
    as (_ & H & _); [by vm_compute..|].
  subst run. rewrite (H (PlainError (JS.lit "401 unauthorized")) eq_refl).
  by vm_compute.
Defined.
(** ** The model id given to the CLI *)

Section ModelIds.
Import CliModel.

Lemma split_cons sep s : ∃ part parts, split sep s = part :: parts.
Proof.
  induction s as [|c s (part & parts & IH)]; cbn; [by eauto|].
  destruct (c =? sep)%N; [by eauto|]. rewrite IH. by eauto.
Qed.

Lemma join_cons sep a b parts :
  join sep (a :: b :: parts) = a ++ sep :: join sep (b :: parts).
Proof. done. Qed.

Lemma join_split sep s : join sep (split sep s) = s.
Proof.
  induction s as [|c s IH]; cbn [split]; [done|].
  destruct (split_cons sep s) as (part & parts & Hs). rewrite Hs in *.
  destruct (c =? sep)%N eqn:E.
  - apply N.eqb_eq in E as ->. by rewrite join_cons, IH.
  - destruct parts as [|b parts].
    + cbn in *. by rewrite IH.
    + rewrite join_cons in *. cbn [app]. by rewrite IH.
Qed.

Lemma split_without sep s : sep ∉ s → split sep s = [s].
Proof.
  induction s as [|c s IH]; intros Hs; cbn [split]; [done|].
  apply not_elem_of_cons in Hs as [Hc Hs].
  destruct (c =? sep)%N eqn:E; [apply N.eqb_eq in E; congruence|].
  by rewrite IH.
Qed.

Lemma split_at sep a b : sep ∉ a → split sep (a ++ sep :: b) = a :: split sep b.
Proof.
  induction a as [|c a IH]; intros Ha; cbn [split app].
  - by rewrite N.eqb_refl.
  - apply not_elem_of_cons in Ha as [Hc Ha].
    destruct (c =? sep)%N eqn:E; [apply N.eqb_eq in E; congruence|].
    by rewrite IH.
Qed.

(** X23. The model id given to the CLI is the configured one without
    its provider prefix: everything up to and including the first slash is
    dropped and the rest is kept as it is, further slashes included; an id
    without a slash is passed on unchanged; an absent or empty id becomes
    claude-sonnet-4-5.  (An id that ends in its first slash, such as
    "anthropic/", therefore becomes the empty string, not the default.) *)
Theorem model_id_loses_its_provider_prefix :
  resolveCliModel None = JS.lit "claude-sonnet-4-5"
  ∧ resolveCliModel (Some []) = JS.lit "claude-sonnet-4-5"
  ∧ (∀ model, model ≠ [] → 47%N ∉ model → resolveCliModel (Some model) = model)
  ∧ (∀ provider rest, 47%N ∉ provider →
       resolveCliModel (Some (provider ++ 47%N :: rest)) = rest).
Proof.
  split; [done|]. split; [done|]. split.
  - intros model Hne Hs. unfold resolveCliModel.
    destruct model as [|c model]; [done|]. cbn [JS.truthy_opt JS.truthy negb default].
    cbv zeta. cbn [default]. unfold Datatypes.id. by rewrite split_without.
  - intros provider rest Hp. unfold resolveCliModel.
    assert (JS.truthy_opt (Some (provider ++ 47%N :: rest)) = true) as ->
      by by destruct provider.
    cbn [negb default]. cbv zeta. cbn [default]. unfold Datatypes.id.
    rewrite split_at by done.
    destruct (split_cons 47 rest) as (part & parts & Hs).
    rewrite Hs. cbn [length Nat.ltb Nat.leb drop]. rewrite <- Hs. apply join_split.
Qed.

End ModelIds.

Lemma model_id_loses_its_provider_prefix_witness :
  CliModel.resolveCliModel (Some (JS.lit "anthropic/claude-opus-4/latest"))
  = JS.lit "claude-opus-4/latest".
Proof.
  destruct model_id_loses_its_provider_prefix as (_ & _ & _ & H).
  apply (H (JS.lit "anthropic") (JS.lit "claude-opus-4/latest")).
  apply (bool_decide_unpack _). by vm_compute.
Defined.

(** ** The router in front of the two runners *)

Section RouterFacts.
Import Runs.

Variable Embedded : Type.
Variable EmbeddedPromise : Type.
Variable embedded_isEmbeddedPiRunActive : jsstring → Embedded → bool.
Variable embedded_queueEmbeddedPiMessage :
  jsstring → jsstring → Embedded → bool * Embedded.
Variable embedded_abortEmbeddedPiRun : jsstring → Embedded → bool * Embedded.
Variable embedded_isEmbeddedPiRunStreaming : jsstring → Embedded → bool.
Variable embedded_waitForEmbeddedPiRunEnd :
  jsstring → option Z → Embedded → EmbeddedPromise * Embedded.

Let queueEmbeddedPiMessage :=
  Router.queueEmbeddedPiMessage Embedded embedded_isEmbeddedPiRunActive
    embedded_queueEmbeddedPiMessage.
Let abortEmbeddedPiRun :=
  Router.abortEmbeddedPiRun Embedded embedded_isEmbeddedPiRunActive
    embedded_abortEmbeddedPiRun.
Let isEmbeddedPiRunActive :=
  Router.isEmbeddedPiRunActive Embedded embedded_isEmbeddedPiRunActive.
Let isEmbeddedPiRunStreaming :=
  Router.isEmbeddedPiRunStreaming Embedded embedded_isEmbeddedPiRunActive
    embedded_isEmbeddedPiRunStreaming.
Let waitForEmbeddedPiRunEnd :=
  Router.waitForEmbeddedPiRunEnd Embedded EmbeddedPromise
    embedded_isEmbeddedPiRunActive embedded_waitForEmbeddedPiRunEnd.

(** X24. For a session without an embedded run the router is the CLI
    registry: its activity and streaming checks, its abort and its wait
    give what the registry's functions give (the router's own test for an
    active CLI run changes no answer), a queued message is never accepted
    and changes nothing, and the embedded runner's state is left alone.
    After an abort through the router the session is still active but no
    longer streaming, until the run is finalized (for a run whose variables
    are as its own handlers leave them: aborted only if not streaming). *)
Theorem router_without_embedded_run_is_the_registry
    (sessionId text : jsstring) (timeoutMs : option Z) (s : Embedded * Registry) :
  embedded_isEmbeddedPiRunActive sessionId s.1 = false →
  queueEmbeddedPiMessage sessionId text s = (false, s)
  ∧ isEmbeddedPiRunActive sessionId s = isCliRunActive sessionId s.2
  ∧ isEmbeddedPiRunStreaming sessionId s = isCliRunStreaming sessionId s.2
  ∧ abortEmbeddedPiRun sessionId s
    = ((abortCliRun sessionId s.2).1, (s.1, (abortCliRun sessionId s.2).2))
  ∧ waitForEmbeddedPiRunEnd sessionId timeoutMs s
    = (FromCli (waitForCliRunEnd sessionId timeoutMs s.2).1,
       (s.1, (waitForCliRunEnd sessionId timeoutMs s.2).2))
  ∧ (∀ h v, ACTIVE_CLI_RUNS s.2 !! sessionId = Some h → runs s.2 !! h = Some v →
       (aborted (handle v) = true → isStreaming (handle v) = false) →
       let s' := (abortEmbeddedPiRun sessionId s).2 in
       (abortEmbeddedPiRun sessionId s).1 = true
       ∧ isEmbeddedPiRunActive sessionId s' = true
       ∧ isEmbeddedPiRunStreaming sessionId s' = false).
Proof.
  intros He. destruct s as [e r]. cbn [fst snd] in *.
  subst queueEmbeddedPiMessage abortEmbeddedPiRun isEmbeddedPiRunActive
    isEmbeddedPiRunStreaming waitForEmbeddedPiRunEnd.
  unfold Router.queueEmbeddedPiMessage, Router.abortEmbeddedPiRun,
    Router.isEmbeddedPiRunActive, Router.isEmbeddedPiRunStreaming,
    Router.waitForEmbeddedPiRunEnd.
  cbn [fst snd]. rewrite !He. cbn [orb].
  unfold isCliRunActive, has_active, queueCliMessage.
  destruct (ACTIVE_CLI_RUNS r !! sessionId) as [h|] eqn:Ea.
  - rewrite (bool_decide_eq_true_2 (is_Some (Some h))) by done.
    split; [done|]. split; [done|]. split; [done|].
    split; [by destruct (abortCliRun sessionId r)|].
    split; [by destruct (waitForCliRunEnd sessionId timeoutMs r)|].
    intros h' v [= <-] Hv Hinv. unfold abortCliRun. rewrite Ea. cbn [fst snd].
    rewrite !He. cbn [orb set_runs ACTIVE_CLI_RUNS]. rewrite Ea.
    rewrite (bool_decide_eq_true_2 (is_Some (Some h))) by done.
    split; [done|]. split; [done|].
    unfold isCliRunStreaming. cbn [set_runs ACTIVE_CLI_RUNS runs]. rewrite Ea.
    rewrite lookup_alter_eq, Hv. cbn. unfold Handle.abort.
    destruct (aborted (handle v)); [by apply Hinv|done].
  - rewrite (bool_decide_eq_false_2 (is_Some None)) by (by intros [? ?]).
    split; [done|]. split; [done|].
    split; [unfold isCliRunStreaming; by rewrite Ea|].
    split; [unfold abortCliRun; by rewrite Ea|].
    split; [by rewrite wait_immediate by by right|]. done.
Qed.

End RouterFacts.

Lemma router_without_embedded_run_is_the_registry_witness :
  let idle := λ (_ : jsstring) (_ : unit), false in
  let s := (tt, (Stream.spawnRun Sample.params Runs.empty).2) in
  let aborted :=
    Router.abortEmbeddedPiRun unit idle (λ _ e, (false, e)) (JS.lit "s1") s in
  aborted.1 = true
  ∧ Router.isEmbeddedPiRunActive unit idle (JS.lit "s1") aborted.2 = true
  ∧ Router.isEmbeddedPiRunStreaming unit idle idle (JS.lit "s1") aborted.2 = false.
Proof.
  intros idle s aborted.
  destruct (router_without_embedded_run_is_the_registry unit unit idle
              (λ _ _ e, (false, e)) (λ _ e, (false, e)) idle (λ _ _ e, (tt, e))
              (JS.lit "s1") [] None s eq_refl) as (_ & _ & _ & _ & _ & H).
  apply (H 0%nat (Stream.initRun Sample.params)); by vm_compute.
Defined.
(** ** Transcript utilities: previews and size caps *)

Section Previews.
Import SessionUtils.

(** X25. A truncated preview fits: for a positive limit the result is
    never longer than the limit, a text within the limit is returned as it
    is, and a longer text is cut to exactly the limit, its last three code
    units replaced by an ellipsis when the limit leaves room for one.  A
    limit of zero or less switches truncation off. *)
Theorem truncated_preview_fits (text : jsstring) (maxChars : Z) :
  let result := truncatePreviewText text maxChars in
  (0 < maxChars → Z.of_nat (length result) ≤ maxChars)
  ∧ (maxChars ≤ 0 ∨ Z.of_nat (length text) ≤ maxChars → result = text)
  ∧ (0 < maxChars < Z.of_nat (length text) →
     Z.of_nat (length result) = maxChars
     ∧ (maxChars ≤ 3 → result = take (Z.to_nat maxChars) text)
     ∧ (3 < maxChars →
        result = take (Z.to_nat (maxChars - 3)) text ++ JS.lit "...")).
Proof.
  cbn zeta. unfold truncatePreviewText, JS.slice_to.
  assert (length (JS.lit "...") = 3%nat) as Hdots by done.
  destruct (maxChars <=? 0) eqn:E0; cbn [orb].
  { apply Z.leb_le in E0. repeat split; try done; lia. }
  apply Z.leb_gt in E0.
  destruct (Z.of_nat (length text) <=? maxChars) eqn:E1.
  { apply Z.leb_le in E1. repeat split; try done; lia. }
  apply Z.leb_gt in E1.
  destruct (maxChars <=? 3) eqn:E3.
  - apply Z.leb_le in E3. rewrite length_take.
    repeat split; try done; lia.
  - apply Z.leb_gt in E3. rewrite length_app, length_take, Hdots.
    repeat split; try done; lia.
Qed.

Lemma truncated_preview_fits_witness :
  truncatePreviewText (JS.lit "Hello, world") 8 = JS.lit "Hello..."
  ∧ truncatePreviewText (JS.lit "Hello, world") 0 = JS.lit "Hello, world".
Proof.
  destruct (truncated_preview_fits (JS.lit "Hello, world") 8) as (_ & _ & H).
  destruct (truncated_preview_fits (JS.lit "Hello, world") 0) as (_ & H0 & _).
  split.
  - destruct H as (_ & _ & H); [by vm_compute|]. rewrite H; [by vm_compute|lia].
  - apply H0. left. lia.
Defined.

Section Cap.

Context {T : Type}.
Variable jsonUtf8Bytes : T → Z.

Let arrayBytes := arrayBytes jsonUtf8Bytes.

Lemma foldl_add (l : list Z) : ∀ a, foldl Z.add a l = a + foldl Z.add 0 l.
Proof.
  induction l as [|x l IH]; intros a; cbn [foldl]; [lia|].
  rewrite (IH (a + x)), (IH (0 + x)). lia.
Qed.

Lemma arrayBytes_cons item items :
  arrayBytes (item :: items) = arrayBytes items + jsonUtf8Bytes item + 1.
Proof.
  unfold arrayBytes, SessionUtils.arrayBytes. cbn [map foldl length].
  rewrite (foldl_add _ (0 + _)). lia.
Qed.

Lemma dropOversize_more maxBytes item item' items bytes :
  dropOversize jsonUtf8Bytes maxBytes (item :: item' :: items) bytes
  = if maxBytes <? bytes
    then dropOversize jsonUtf8Bytes maxBytes (item' :: items)
           (bytes - (jsonUtf8Bytes item + 1))
    else (item :: item' :: items, bytes).
Proof. done. Qed.

Lemma dropOversize_spec maxBytes items : ∀ bytes,
  items ≠ [] → bytes = arrayBytes items →
  ∃ dropped,
    items = dropped ++ (dropOversize jsonUtf8Bytes maxBytes items bytes).1
    ∧ (dropOversize jsonUtf8Bytes maxBytes items bytes).1 ≠ []
    ∧ (dropOversize jsonUtf8Bytes maxBytes items bytes).2
      = arrayBytes (dropOversize jsonUtf8Bytes maxBytes items bytes).1
    ∧ ((dropOversize jsonUtf8Bytes maxBytes items bytes).2 ≤ maxBytes
       ∨ length (dropOversize jsonUtf8Bytes maxBytes items bytes).1 = 1%nat)
    ∧ (∀ before item, dropped = before ++ [item] →
         maxBytes < (dropOversize jsonUtf8Bytes maxBytes items bytes).2
                    + jsonUtf8Bytes item + 1).
Proof.
  induction items as [|item items IH]; intros bytes Hne Hb; [done|].
  destruct items as [|item' items].
  - exists []. cbn. repeat split; try done; [by right|].
    intros before x H. by destruct before.
  - rewrite dropOversize_more. destruct (maxBytes <? bytes) eqn:E.
    + apply Z.ltb_lt in E.
      destruct (IH (bytes - (jsonUtf8Bytes item + 1))) as (dropped & H1 & H2 & H3 & H4 & H5);
        [done|rewrite Hb, arrayBytes_cons; lia|].
      exists (item :: dropped). split; [cbn [app]; by rewrite <- H1|].
      split; [done|]. split; [done|]. split; [done|].
      intros before x Hd. destruct before as [|y before].
      * injection Hd as -> Hd. symmetry in Hd. subst dropped.
        cbn [app] in H1. rewrite H3, <- H1.
        rewrite Hb, arrayBytes_cons in E. lia.
      * injection Hd as -> Hd. by apply (H5 before x).
    + apply Z.ltb_ge in E. exists []. cbn [app fst snd].
      repeat split; try done; [by left|].
      intros before x H. by destruct before.
Qed.

(** X26. Capping an array by its JSON size keeps the newest items that
    fit: what is kept is a suffix of the array, never empty for an array
    that is not, the size reported is the size of what is kept, that size
    is within the limit unless a single item is left, and nothing was
    dropped needlessly: with the last dropped item put back the array
    would exceed the limit. *)
Theorem cap_keeps_the_newest_items_that_fit (items : list T) (maxBytes : Z) :
  let kept := (capArrayByJsonBytes jsonUtf8Bytes items maxBytes).1 in
  let bytes := (capArrayByJsonBytes jsonUtf8Bytes items maxBytes).2 in
  (items = [] → kept = [] ∧ bytes = 2)
  ∧ (items ≠ [] →
     ∃ dropped,
       items = dropped ++ kept
       ∧ kept ≠ []
       ∧ bytes = arrayBytes kept
       ∧ (bytes ≤ maxBytes ∨ length kept = 1%nat)
       ∧ (∀ before item, dropped = before ++ [item] →
            maxBytes < bytes + jsonUtf8Bytes item + 1)).
Proof.
  cbn zeta. split; [by intros ->|].
  intros Hne. destruct items as [|item items]; [done|].
  unfold capArrayByJsonBytes.
  by apply (dropOversize_spec maxBytes (item :: items)).
Qed.

End Cap.

Lemma cap_keeps_the_newest_items_that_fit_witness :
  let size := λ s : jsstring, Z.of_nat (length s) + 2 in
  let items := [JS.lit "first"; JS.lit "second"; JS.lit "third"] in
  capArrayByJsonBytes size items 20 = ([JS.lit "second"; JS.lit "third"], 18).
Proof.
  intros size items.
  destruct (cap_keeps_the_newest_items_that_fit size items 20) as [_ H].
  destruct H as (dropped & _ & _ & Hb & _); [done|].
  destruct (capArrayByJsonBytes size items 20) as [kept bytes] eqn:E.
  vm_compute in E. by injection E as <- <-.
Defined.

End Previews.
(** ** The registry over every history: the map of waiters, and the end of a run *)

Section RunEnds.
Import Runs Trace.

(** X27. The map of waiters holds what is pending and nothing else: in
    every history of the registry a session has an entry exactly while
    some caller is waiting on it with a pending timer, and the set under
    the entry is the set of exactly these waiters.  Waiters that were
    released or timed out leave no entry and no member behind. *)
Theorem waiter_map_holds_the_pending_waiters (evs : list Event)
    (sessionId : jsstring) :
  (is_Some (CLI_RUN_WAITERS (run evs) !! sessionId)
   ↔ ∃ w, pendingOn sessionId w (run evs))
  ∧ (∀ s ws w,
       CLI_RUN_WAITERS (run evs) !! sessionId = Some s →
       waiterSets (run evs) !! s = Some ws →
       (w ∈ ws ↔ pendingOn sessionId w (run evs))).
Proof.
  pose proof (Inv_run evs) as HI. split.
  - split.
    + intros [s Hs]. destruct (inv_waiters _ HI sessionId s Hs) as (ws & Hws & Hne).
      destruct ws as [|w ws]; [done|]. exists w.
      apply (inv_owner _ HI sessionId s (w :: ws) w Hs Hws). by left.
    + intros (w & t & Ht & <-).
      destruct (inv_timer _ HI w t Ht) as (_ & Hs & _). by rewrite Hs.
  - intros s ws w Hs Hws. split.
    + by apply (inv_owner _ HI sessionId s ws w).
    + intros (t & Ht & <-).
      destruct (inv_timer _ HI w t Ht) as (_ & Hs' & ws' & Hws' & Hin).
      rewrite Hs in Hs'. injection Hs' as ->. rewrite Hws in Hws'.
      by injection Hws' as ->.
Qed.

Lemma waiter_map_holds_the_pending_waiters_witness :
  let s1 := JS.lit "s1" in
  let evs := [ESpawn Sample.params; EWait s1 None; EWait s1 (Some 50);
              EWaitTimeout 3] in
  (2%nat ∈ [2%nat] ↔ pendingOn s1 2 (run evs))
  ∧ ¬ pendingOn s1 3 (run evs).
Proof.
  intros s1 evs.
  destruct (waiter_map_holds_the_pending_waiters evs s1) as [_ H].
  assert (2%nat ∈ [2%nat] ↔ pendingOn s1 2 (run evs)) as H2
    by (apply (H 1%nat [2%nat] 2%nat); by vm_compute).
  split; [exact H2|].
  intros H3. apply (H 1%nat [2%nat] 3%nat) in H3; [|by vm_compute..].
  apply list_elem_of_singleton in H3. discriminate H3.
Defined.

Lemma finalize_registered r h v res :
  Inv r → runs r !! h = Some v → resolved (handle v) = None →
  ACTIVE_CLI_RUNS r !! p_sessionId (params v) = Some h →
  let r' := Stream.finalize h res r in
  isCliRunActive (p_sessionId (params v)) r' = false
  ∧ (∃ v', runs r' !! h = Some v' ∧ resolved (handle v') = Some res
           ∧ isStreaming (handle v') = false)
  ∧ (∀ w, pendingOn (p_sessionId (params v)) w r →
          settled r' !! w = Some true ∧ timers r' !! w = None).
Proof.
  intros HI Hv Hres Ha. cbn zeta. unfold Stream.finalize. rewrite Hv.
  set (r0 := set_runs (<[h := set_handle (Handle.settle res) v]>) r).
  assert (Inv r0) as HI0 by (by apply (Inv_frame r)).
  assert (ACTIVE_CLI_RUNS r0 !! p_sessionId (params v) = Some h) as Ha0 by done.
  split; [|split].
  - unfold isCliRunActive, has_active.
    rewrite (clear_active _ _ _ Ha0), lookup_delete_eq.
    apply bool_decide_eq_false_2. by intros [? ?].
  - rewrite clear_runs. subst r0. cbn. rewrite lookup_insert_eq.
    eexists. split; [done|]. cbn. by rewrite Hres.
  - intros w Hw. by apply (clear_releases _ _ r0 w HI0 Ha0).
Qed.

(** X28. The end of the child is the end of the run, in one turn: when
    the child of a registered run closes (pipe runner) or exits
    (pseudo-terminal runner), the run's promise resolves with the result
    the exit handler built, the session is no longer active, the run no
    longer streams, and every caller waiting on the session is released
    with true and its timer cleared.  For every registry a history can
    reach. *)
Theorem child_exit_ends_the_run (evs : list Event) (h : nat) (v : RunVars)
    (parse : jsstring → option CliStreamEvent) (code : option Z)
    (exitCode now : Z) :
  let r := run evs in
  let sessionId := p_sessionId (params v) in
  runs r !! h = Some v → resolved (handle v) = None →
  ACTIVE_CLI_RUNS r !! sessionId = Some h →
  (let r' := Pipe.closeEvent h code now r in
   isCliRunActive sessionId r' = false
   ∧ (∃ v', runs r' !! h = Some v'
            ∧ resolved (handle v') = Some (Pipe.onClose code now v).2
            ∧ isStreaming (handle v') = false)
   ∧ (∀ w, pendingOn sessionId w r →
           settled r' !! w = Some true ∧ timers r' !! w = None))
  ∧ (let r' := Pty.exitEvent parse h exitCode now r in
     isCliRunActive sessionId r' = false
     ∧ (∃ v', runs r' !! h = Some v'
              ∧ resolved (handle v') = Some (Pty.onExit parse exitCode now v).2
              ∧ isStreaming (handle v') = false)
     ∧ (∀ w, pendingOn sessionId w r →
             settled r' !! w = Some true ∧ timers r' !! w = None)).
Proof.
  intros r sessionId Hv Hres Ha. pose proof (Inv_run evs) as HI. fold r in HI.
  split.
  - cbn zeta. unfold Pipe.closeEvent. rewrite Hv.
    destruct (Pipe.onClose code now v) as [v1 res] eqn:E. cbn [snd].
    assert (params v1 = params v ∧ handle v1 = handle v) as [Hp Hh].
    { unfold Pipe.onClose in E. cbn zeta in E.
      destruct (_ && _ && _) in E; by injection E as <- _. }
    set (r1 := set_runs (<[h := v1]>) r).
    destruct (finalize_registered r1 h v1 res) as (H1 & H2 & H3).
    + by apply (Inv_frame r).
    + subst r1. cbn. by rewrite lookup_insert_eq.
    + by rewrite Hh.
    + by rewrite Hp.
    + rewrite Hp in *. split; [exact H1|split; [exact H2|exact H3]].
  - cbn zeta. unfold Pty.exitEvent. rewrite Hv.
    destruct (Pty.onExit parse exitCode now v) as [v1 res] eqn:E. cbn [snd].
    assert (params v1 = params v ∧ handle v1 = handle v) as [Hp Hh].
    { unfold Pty.onExit in E. cbn zeta in E.
      destruct (drainAtExit_keeps_handle parse v) as [H1 H2].
      destruct (_ && _ && _) in E; by injection E as <- _. }
    set (r1 := set_runs (<[h := v1]>) r).
    destruct (finalize_registered r1 h v1 res) as (H1 & H2 & H3).
    + by apply (Inv_frame r).
    + subst r1. cbn. by rewrite lookup_insert_eq.
    + by rewrite Hh.
    + by rewrite Hp.
    + rewrite Hp in *. split; [exact H1|split; [exact H2|exact H3]].
Qed.

Lemma child_exit_ends_the_run_witness :
  let s1 := JS.lit "s1" in
  let evs := [ESpawn Sample.params; EWait s1 None] in
  let r' := Pipe.closeEvent 0 (Some 0) 2000 (run evs) in
  isCliRunActive s1 r' = false ∧ settled r' !! 2%nat = Some true.
Proof.
  intros s1 evs r'.
  destruct (child_exit_ends_the_run evs 0 (Stream.initRun Sample.params)
              Sample.parse (Some 0) 0 2000) as [(H1 & _ & H3) _];
    [by vm_compute..|].
  split; [exact H1|]. apply (H3 2%nat).
  eexists. split; by vm_compute.
Defined.

End RunEnds.

(** ** Streams of events: the text streamed is the text returned *)

Section StreamedText.

Lemma partialTexts_app a b :
  Stream.partialTexts (a ++ b) = Stream.partialTexts a ++ Stream.partialTexts b.
Proof. unfold Stream.partialTexts. by rewrite omap_app. Qed.

Lemma appendText_kept t v :
  Events.streamedIsKept v → Events.streamedIsKept (Stream.appendText t v).
Proof.
  unfold Events.streamedIsKept. intros Hv. cbn.
  rewrite partialTexts_app, concat_app, <- Hv. cbn. by rewrite app_nil_r, app_assoc.
Qed.

Lemma onBlockStop_kept v :
  Events.streamedIsKept v → Events.streamedIsKept (Stream.onBlockStop v).
Proof.
  unfold Events.streamedIsKept. intros Hv. rewrite onBlockStop_fires.
  destruct (JS.truthy _); [|done]. cbn.
  rewrite partialTexts_app, !concat_app, <- Hv. cbn. by rewrite !app_nil_r.
Qed.

Lemma shared_event_kept e v :
  Events.sameInBothRunners e = true → Events.collectsDirectly e = false →
  Events.streamedIsKept v → Events.streamedIsKept (Pipe.handleEvent e v).
Proof.
  intros He Hq Hv.
  destruct e as [subtype sid|?| |delta| | |content|?|?|?]; try done; cbn.
  - unfold Stream.onSystem. by destruct (_ && _).
  - destruct delta as [d|]; cbn; [|done].
    destruct (_ && _); [by apply appendText_kept|done].
  - by apply onBlockStop_kept.
  - destruct content as [c|]; cbn; [|done]. destruct (JS.truthy c); [|done].
    unfold Events.streamedIsKept in *. cbn.
    by rewrite partialTexts_app, app_nil_r.
Qed.

Lemma pipe_event_kept e v :
  Events.collectsDirectly e = false →
  Events.streamedIsKept v → Events.streamedIsKept (Pipe.handleEvent e v).
Proof.
  intros Hq Hv. destruct (Events.sameInBothRunners e) eqn:He;
    [by apply shared_event_kept|].
  destruct e as [?|message| |?| | |?|?|?|?]; try done; cbn.
  destruct message as [m|]; cbn; [|done].
  destruct (_ && _); [by apply appendText_kept|done].
Qed.

Lemma pty_blocks_kept content : ∀ v,
  Events.streamedIsKept v → Events.streamedIsKept (foldl Pty.onBlock v content).
Proof.
  induction content as [|b content IH]; intros v Hv; [done|].
  cbn [foldl]. apply IH. unfold Pty.onBlock.
  destruct (_ && _); [by apply appendText_kept|done].
Qed.

Lemma pty_event_kept e v :
  Events.collectsDirectly e = false →
  Events.streamedIsKept v → Events.streamedIsKept (Pty.handleEvent e v).
Proof.
  intros Hq Hv. destruct (Events.sameInBothRunners e) eqn:He.
  { rewrite shared_event_same by done. by apply shared_event_kept. }
  destruct e as [?|message| |?| | |?|?|?|?]; try done; cbn.
  destruct message as [m|]; cbn; [|done].
  destruct (msg_content m); [|done]. by apply pty_blocks_kept.
Qed.

Lemma quiet_events_kept (H : CliStreamEvent → StreamVars → StreamVars) :
  (∀ e v, Events.collectsDirectly e = false →
          Events.streamedIsKept v → Events.streamedIsKept (H e v)) →
  ∀ events v,
    Forall (λ e, Events.collectsDirectly e = false) events →
    Events.streamedIsKept v →
    Events.streamedIsKept (foldl (λ v e, H e v) v events).
Proof.
  intros HH events. induction events as [|e events IH]; intros v He Hv; [done|].
  cbn [foldl]. apply Forall_cons in He as [He Hes]. apply IH; [done|].
  by apply HH.
Qed.

Lemma flushed_texts v :
  Events.streamedIsKept v →
  concat (map text (default [] (Stream.payloadsOf (collectedTexts (Stream.flush v)))))
  = concat (Stream.partialTexts (delivered v)).
Proof.
  unfold Events.streamedIsKept. intros <-.
  rewrite payloadsOf_default, flush_collected, map_map. cbn.
  rewrite map_id, concat_app.
  destruct (currentTextBuffer v); cbn; by rewrite ?app_nil_r.
Qed.

(** X29. The text returned is the text streamed: for a stream without
    result and error events, the texts of the final payloads, put together,
    are exactly the texts of the partial replies that were delivered, put
    together in the order they were delivered.  Nothing streamed to the
    caller is missing from the result and nothing is added.  Both runners;
    the pipe runner for every exit code, the pseudo-terminal runner for a
    clean exit. *)
Theorem returned_text_is_the_streamed_text (events : list CliStreamEvent)
    (p : RunParams) (parse : jsstring → option CliStreamEvent)
    (code : option Z) (now : Z) :
  Forall (λ e, Events.collectsDirectly e = false) events →
  let piped := Pipe.onClose code now
                 (set_stream (Pipe.handleEvents events) (Stream.initRun p)) in
  let ptyed := Pty.onExit parse 0 now
                 (set_stream (Pty.handleEvents events) (Stream.initRun p)) in
  concat (map text (default [] (payloads piped.2)))
  = concat (Stream.partialTexts (delivered (stream piped.1)))
  ∧ concat (map text (default [] (payloads ptyed.2)))
    = concat (Stream.partialTexts (delivered (stream ptyed.1))).
Proof.
  intros Hq piped ptyed.
  assert (∀ v, delivered (Stream.flush v) = delivered v) as Hd
    by (intros v; unfold Stream.flush; by destruct (JS.truthy _)).
  split.
  - subst piped. unfold Pipe.onClose. cbn zeta.
    change (stderrBuffer _) with (@nil N). rewrite andb_false_r. cbn [andb fst snd].
    cbn [Stream.mkResult payloads stream set_stream]. rewrite Hd.
    apply flushed_texts.
    by apply (quiet_events_kept Pipe.handleEvent pipe_event_kept).
  - subst ptyed. unfold Pty.onExit, Pty.drainAtExit. cbn zeta.
    change (dataBuffer _) with (@nil N). cbn [JS.trim JS.truthy].
    change (negb (0 =? 0)) with false. cbn [andb fst snd].
    cbn [Stream.mkResult payloads stream set_stream]. rewrite Hd.
    apply flushed_texts.
    by apply (quiet_events_kept Pty.handleEvent pty_event_kept).
Qed.

Lemma returned_text_is_the_streamed_text_witness :
  let events := [Sample.textDelta "Hello"; EvContentBlockStop;
                 EvToolResult (Some (JS.lit "ok")); Sample.textDelta " world"] in
  let piped := Pipe.onClose (Some 0) 2000
                 (set_stream (Pipe.handleEvents events) (Stream.initRun Sample.params)) in
  concat (map text (default [] (payloads piped.2))) = JS.lit "Hello world".
Proof.
  intros events piped.
  destruct (returned_text_is_the_streamed_text events Sample.params Sample.parse
              (Some 0) 2000) as [H _].
  - repeat constructor.
  - subst piped. rewrite H. by vm_compute.
Defined.

End StreamedText.
